(** * webrtc-streaming-template: signaling relay and connection lifecycle

    A shallow embedding of [server.js] (the Socket.IO signaling relay),
    [src/hooks/useWebRTC.ts] (the peer-connection hook) and the streamer and
    viewer pages, with the properties the specification states about them.

    Conventions.
    - A JavaScript [Map] or [Set] that the code walks (the room table, the
      connection table, the viewer sets) is a list in insertion order.  Where
      only membership is asked (the guard set of the hook, the rooms of
      Socket.IO) it is a [gset] or a [gmap].
    - Objects that are shared and mutated in place ([RTCPeerConnection]) live
      in a store and are referred to by handle; so do the timers.
    - An [async] function is a function of the same name that runs up to the
      first [await], and a [resume] function that goes on from the point the
      function waits at with the outcome of the awaited operation.  The state
      in which it is resumed is the one the rest of the program has left. *)

From stdpp Require Import base option list gmap sets strings pretty.
From Stdlib Require Import ZArith Lia.

Open Scope string_scope.
Open Scope list_scope.

(** ** JavaScript [Set<string>] in insertion order *)

Module JsSet.

Abbreviation t := (list string).

Definition empty : t := [].

Definition has (x : string) (s : t) : bool := bool_decide (x ∈ s).

(** [Set.prototype.add]: a value already present keeps its position. *)
Definition add (x : string) (s : t) : t :=
  if has x s then s else s ++ [x].

(** [Set.prototype.delete] *)
Definition delete (x : string) (s : t) : t :=
  filter (λ y, y ≠ x) s.

Definition size (s : t) : nat := length s.

End JsSet.

(** ** JavaScript [Map<string, V>] in insertion order *)

Module JsMap.
Section ops.
Context {V : Type}.

Fixpoint get (k : string) (m : list (string * V)) : option V :=
  match m with
  | [] => None
  | (k', v) :: m' => if decide (k' = k) then Some v else get k m'
  end.

Definition has (k : string) (m : list (string * V)) : bool :=
  match get k m with Some _ => true | None => false end.

(** [Map.prototype.set]: an existing key keeps its position and takes the
    new value, a new key is appended. *)
Fixpoint set (k : string) (v : V) (m : list (string * V)) : list (string * V) :=
  match m with
  | [] => [(k, v)]
  | (k', v') :: m' =>
      if decide (k' = k) then (k, v) :: m' else (k', v') :: set k v m'
  end.

(** [Map.prototype.delete] *)
Definition delete (k : string) (m : list (string * V)) : list (string * V) :=
  filter (λ e, e.1 ≠ k) m.

Definition keys (m : list (string * V)) : list string := m.*1.

Definition values (m : list (string * V)) : list V := m.*2.
End ops.
End JsMap.

(** ** The signaling server, [server.js] *)

Module Server.

(** The value stored per room: [{ streamer: socket.id, viewers: new Set() }] *)
Record Room := mkRoom {
  streamer : string;
  viewers : JsSet.t
}.

(** SDP and ICE payloads are forwarded verbatim and never inspected. *)
Definition Payload := string.

(** The events the server emits to clients. *)
Inductive Event :=
| ViewerJoined (viewerId : string)
| ViewerLeft (viewerId : string)
| StreamerLeft
| StreamPaused
| StreamResumed
| OfferFrom (offer : Payload) (sender : string)
| AnswerFrom (answer : Payload) (sender : string)
| IceCandidateFrom (candidate : Payload) (sender : string).

(** The argument handed to an acknowledgement callback. *)
Inductive Response :=
| RoomCreated (roomId : string)
| JoinError (error : string)
| JoinSuccess.

(** What a handler does, in program order.  [Emit to ev rcpts] is
    [socket.to(to).emit(ev)], with the sockets it reaches; [Ack] is the
    call of the acknowledgement callback; [Removed] is [rooms.delete]. *)
Inductive Action :=
| Emit (to : string) (ev : Event) (rcpts : gset string)
| Ack (r : Response)
| Removed (roomId : string).

(** [rooms] is the table of line 42.  [channels] is Socket.IO's own
    book-keeping of which socket is in which Socket.IO room ([socket.join],
    and the room every socket has under its own id). *)
Record state := mkState {
  rooms : list (string * Room);
  channels : gmap string (gset string)
}.

Definition init : state := {| rooms := []; channels := ∅ |}.

Definition members (ch : string) (st : state) : gset string :=
  default ∅ (channels st !! ch).

(** [socket.join(ch)] *)
Definition socket_join (sid ch : string) (st : state) : state :=
  {| rooms := rooms st;
     channels := <[ch := {[sid]} ∪ members ch st]> (channels st) |}.

(** Socket.IO takes a closing socket out of every room before the
    [disconnect] event is dispatched. *)
Definition socket_leave_all (sid : string) (st : state) : state :=
  {| rooms := rooms st;
     channels := (λ s, s ∖ {[sid]}) <$> channels st |}.

(** [socket.to(to).emit(ev)]: every member of [to] but the sender. *)
Definition emit_to (sid to : string) (ev : Event) (st : state) : Action :=
  Emit to ev (members to st ∖ {[sid]}).

Definition set_rooms (r : list (string * Room)) (st : state) : state :=
  {| rooms := r; channels := channels st |}.

(** [io.on("connection", ...)]: the socket enters the room of its own id. *)
Definition connection (sid : string) (st : state) : state :=
  socket_join sid sid st.

Definition DEV_ROOM_ID : string := "dev-room-001".

(** [socket.on("create-room", ...)], lines 48-64.  [random] is the value of
    [Math.random().toString(36).substring(2, 15)]. *)
Definition create_room (isDevelopment : bool) (random : string)
    (sid : string) (st : state) : state * list Action :=
  let roomId := if isDevelopment then DEV_ROOM_ID else random in
  let st1 :=
    set_rooms
      (JsMap.set roomId {| streamer := sid; viewers := JsSet.empty |} (rooms st))
      st in
  let st2 := socket_join sid roomId st1 in
  (st2, [Ack (RoomCreated roomId)]).

(** [socket.on("join-room", ...)], lines 67-89. *)
Definition join_room (roomId : string) (sid : string) (st : state)
    : state * list Action :=
  match JsMap.get roomId (rooms st) with
  | None => (st, [Ack (JoinError "Room does not exist")])
  | Some room =>
      if JsSet.has sid (viewers room) then (st, [Ack JoinSuccess])
      else
        let room' :=
          {| streamer := streamer room;
             viewers := JsSet.add sid (viewers room) |} in
        let st1 := set_rooms (JsMap.set roomId room' (rooms st)) st in
        let st2 := socket_join sid roomId st1 in
        (st2, [emit_to sid (streamer room) (ViewerJoined sid) st2;
               Ack JoinSuccess])
  end.

(** The three negotiation relays, lines 92-113. *)
Definition offer (target : string) (o : Payload) (sid : string) (st : state)
    : state * list Action :=
  (st, [emit_to sid target (OfferFrom o sid) st]).

Definition answer (target : string) (a : Payload) (sid : string) (st : state)
    : state * list Action :=
  (st, [emit_to sid target (AnswerFrom a sid) st]).

Definition ice_candidate (target : string) (c : Payload) (sid : string)
    (st : state) : state * list Action :=
  (st, [emit_to sid target (IceCandidateFrom c sid) st]).

(** Lines 116-125. *)
Definition stream_paused (roomId : string) (sid : string) (st : state)
    : state * list Action :=
  (st, [emit_to sid roomId StreamPaused st]).

Definition stream_resumed (roomId : string) (sid : string) (st : state)
    : state * list Action :=
  (st, [emit_to sid roomId StreamResumed st]).

(** The body of the [for ... of rooms.entries()] loop of the disconnect
    handler, lines 132-143.  The loop visits the entries present when it
    reaches them; an iteration only deletes or mutates the entry it is at,
    so the walk is over the entries the table has on entry. *)
Fixpoint disconnect_loop (sid : string) (entries : list (string * Room))
    (st : state) : state * list Action :=
  match entries with
  | [] => (st, [])
  | (roomId, room) :: rest =>
      if decide (streamer room = sid) then
        let notify := emit_to sid roomId StreamerLeft st in
        let st1 := set_rooms (JsMap.delete roomId (rooms st)) st in
        let '(st2, tr) := disconnect_loop sid rest st1 in
        (st2, notify :: Removed roomId :: tr)
      else if JsSet.has sid (viewers room) then
        let room' :=
          {| streamer := streamer room;
             viewers := JsSet.delete sid (viewers room) |} in
        let st1 := set_rooms (JsMap.set roomId room' (rooms st)) st in
        let notify := emit_to sid (streamer room) (ViewerLeft sid) st1 in
        let '(st2, tr) := disconnect_loop sid rest st1 in
        (st2, notify :: tr)
      else disconnect_loop sid rest st
  end.

(** [socket.on("disconnect", ...)], lines 128-144. *)
Definition disconnect (sid : string) (st : state) : state * list Action :=
  let st0 := socket_leave_all sid st in
  disconnect_loop sid (rooms st0) st0.

(** The requests a client can make. *)
Inductive Request :=
| Connect
| CreateRoom (isDevelopment : bool) (random : string)
| JoinRoom (roomId : string)
| SendOffer (target : string) (o : Payload)
| SendAnswer (target : string) (a : Payload)
| SendIce (target : string) (c : Payload)
| Pause (roomId : string)
| Resume (roomId : string)
| Disconnect.

Definition handle (sid : string) (rq : Request) (st : state)
    : state * list Action :=
  match rq with
  | Connect => (connection sid st, [])
  | CreateRoom dev rnd => create_room dev rnd sid st
  | JoinRoom r => join_room r sid st
  | SendOffer t o => offer t o sid st
  | SendAnswer t a => answer t a sid st
  | SendIce t c => ice_candidate t c sid st
  | Pause r => stream_paused r sid st
  | Resume r => stream_resumed r sid st
  | Disconnect => disconnect sid st
  end.

(** The server handles a sequence of requests, each from a socket. *)
Fixpoint run (reqs : list (string * Request)) (st : state)
    : state * list Action :=
  match reqs with
  | [] => (st, [])
  | (sid, rq) :: rest =>
      let '(st1, tr1) := handle sid rq st in
      let '(st2, tr2) := run rest st1 in
      (st2, tr1 ++ tr2)
  end.

(** How many [ev] notifications the socket [v] is sent in a trace, and how
    many of them through the Socket.IO room [ch]. *)
Definition event_eqb (a b : Event) : bool :=
  match a, b with
  | ViewerJoined x, ViewerJoined y => bool_decide (x = y)
  | ViewerLeft x, ViewerLeft y => bool_decide (x = y)
  | StreamerLeft, StreamerLeft => true
  | StreamPaused, StreamPaused => true
  | StreamResumed, StreamResumed => true
  | OfferFrom o s, OfferFrom o' s' => bool_decide (o = o') && bool_decide (s = s')
  | AnswerFrom o s, AnswerFrom o' s' => bool_decide (o = o') && bool_decide (s = s')
  | IceCandidateFrom o s, IceCandidateFrom o' s' =>
      bool_decide (o = o') && bool_decide (s = s')
  | _, _ => false
  end.

Definition delivers (v : string) (ev : Event) (a : Action) : bool :=
  match a with
  | Emit _ ev' rcpts => event_eqb ev' ev && bool_decide (v ∈ rcpts)
  | _ => false
  end.

Definition delivers_via (ch v : string) (ev : Event) (a : Action) : bool :=
  match a with
  | Emit to ev' rcpts =>
      bool_decide (to = ch) && event_eqb ev' ev && bool_decide (v ∈ rcpts)
  | _ => false
  end.

Definition is_removed (r : string) (a : Action) : bool :=
  match a with
  | Removed r' => bool_decide (r' = r)
  | _ => false
  end.

Definition count (p : Action → bool) (tr : list Action) : nat :=
  length (filter (λ a, p a = true) tr).

Definition received (v : string) (ev : Event) (tr : list Action) : nat :=
  count (delivers v ev) tr.

Definition received_via (ch v : string) (ev : Event) (tr : list Action) : nat :=
  count (delivers_via ch v ev) tr.

Definition removals (r : string) (tr : list Action) : nat :=
  count (is_removed r) tr.

(** The acknowledgements in a trace, and the events a given socket is sent. *)
Definition acks (tr : list Action) : list Response :=
  omap (λ a, match a with Ack r => Some r | _ => None end) tr.

Definition inbox (me : string) (tr : list Action) : list Event :=
  omap (λ a, match a with
             | Emit _ ev rcpts => if bool_decide (me ∈ rcpts) then Some ev else None
             | _ => None
             end) tr.

(** What the table of a running server satisfies: [rooms] is a [Map] (no key
    twice), every [viewers] is a [Set] (no value twice), and a viewer of a
    room is in the Socket.IO room of the same name. *)
Record wf (st : state) : Prop := mkWf {
  wf_keys : NoDup (JsMap.keys (rooms st));
  wf_viewers : ∀ r room,
    JsMap.get r (rooms st) = Some room → NoDup (viewers room);
  wf_channel : ∀ r room v,
    JsMap.get r (rooms st) = Some room → v ∈ viewers room → v ∈ members r st
}.

(** What one pass of the disconnect loop leaves of an entry, and what it
    does at that entry. *)
Definition survives (sid : string) (e : string * Room) : option (string * Room) :=
  if decide (streamer e.2 = sid) then None
  else if JsSet.has sid (viewers e.2) then
    Some (e.1, {| streamer := streamer e.2;
                  viewers := JsSet.delete sid (viewers e.2) |})
  else Some e.

Definition farewell (sid : string) (st : state) (e : string * Room) : list Action :=
  if decide (streamer e.2 = sid) then
    [emit_to sid e.1 StreamerLeft st; Removed e.1]
  else if JsSet.has sid (viewers e.2) then
    [emit_to sid (streamer e.2) (ViewerLeft sid) st]
  else [].

(** A table used in the examples: in development mode the socket ["s"]
    creates a room and the socket ["v0"] joins it. *)
Definition one_room : state :=
  (run [("s", Connect); ("s", CreateRoom true "");
        ("v0", Connect); ("v0", JoinRoom "dev-room-001")] init).1.

(** The rooms in which [sid] is the streamer and whose Socket.IO room holds
    the socket [v]. *)
Definition streamed_with (sid v : string) (st : state) : list string :=
  (filter (λ e, streamer e.2 = sid ∧ v ∈ members e.1 st) (rooms st)).*1.

(** A table used in the examples: in production mode the socket ["s"]
    creates two rooms, to which [Math.random] gives the ids ["i"] and ["9"],
    and the socket ["v0"] joins both. *)
Definition two_rooms : state :=
  (run [("s", Connect); ("s", CreateRoom false "i"); ("s", CreateRoom false "9");
        ("v0", Connect); ("v0", JoinRoom "i"); ("v0", JoinRoom "9")] init).1.

End Server.

(** ** The browser's [RTCPeerConnection], as far as the hook uses it *)

Module RTC.

(** [RTCPeerConnectionState] and [RTCSignalingState] *)
Inductive ConnectionState :=
  New | Connecting | Connected | Disconnected | Failed | Closed.

Inductive SignalingState :=
  Stable | HaveLocalOffer | HaveRemoteOffer | HaveLocalPranswer
| HaveRemotePranswer | SignalingClosed.

#[global] Instance ConnectionState_eq_dec : EqDecision ConnectionState.
Proof. solve_decision. Defined.

#[global] Instance SignalingState_eq_dec : EqDecision SignalingState.
Proof. solve_decision. Defined.

(** The two closures the hook installs as [onconnectionstatechange]: the one
    of [createPeerConnectionForViewer] (lines 40-70) and the one of
    [createAnswer] (lines 232-237). *)
Inductive StateChangeHandler :=
| OfViewerConnection (viewerId : string)
| OfStreamerConnection.

(** A connection object.  [onicecandidate] holds the identity the closure
    sends the candidates to; [senders] holds the tracks given to [addTrack]. *)
Record t := mk {
  connectionState : ConnectionState;
  signalingState : SignalingState;
  onconnectionstatechange : option StateChangeHandler;
  onicecandidate : option string;
  onicecandidateerror : option string;
  ontrack : bool;
  senders : list nat
}.

(** [new RTCPeerConnection({ iceServers })] *)
Definition create : t :=
  {| connectionState := New; signalingState := Stable;
     onconnectionstatechange := None; onicecandidate := None;
     onicecandidateerror := None; ontrack := false; senders := [] |}.

(** [pc.close()] *)
Definition close (pc : t) : t :=
  {| connectionState := Closed; signalingState := SignalingClosed;
     onconnectionstatechange := onconnectionstatechange pc;
     onicecandidate := onicecandidate pc;
     onicecandidateerror := onicecandidateerror pc;
     ontrack := ontrack pc; senders := senders pc |}.

Definition set_connectionState (c : ConnectionState) (pc : t) : t :=
  {| connectionState := c; signalingState := signalingState pc;
     onconnectionstatechange := onconnectionstatechange pc;
     onicecandidate := onicecandidate pc;
     onicecandidateerror := onicecandidateerror pc;
     ontrack := ontrack pc; senders := senders pc |}.

Definition set_signalingState (g : SignalingState) (pc : t) : t :=
  {| connectionState := connectionState pc; signalingState := g;
     onconnectionstatechange := onconnectionstatechange pc;
     onicecandidate := onicecandidate pc;
     onicecandidateerror := onicecandidateerror pc;
     ontrack := ontrack pc; senders := senders pc |}.

Definition set_onconnectionstatechange (h : option StateChangeHandler) (pc : t) : t :=
  {| connectionState := connectionState pc; signalingState := signalingState pc;
     onconnectionstatechange := h;
     onicecandidate := onicecandidate pc;
     onicecandidateerror := onicecandidateerror pc;
     ontrack := ontrack pc; senders := senders pc |}.

Definition set_onicecandidate (h : option string) (pc : t) : t :=
  {| connectionState := connectionState pc; signalingState := signalingState pc;
     onconnectionstatechange := onconnectionstatechange pc;
     onicecandidate := h;
     onicecandidateerror := onicecandidateerror pc;
     ontrack := ontrack pc; senders := senders pc |}.

Definition set_onicecandidateerror (h : option string) (pc : t) : t :=
  {| connectionState := connectionState pc; signalingState := signalingState pc;
     onconnectionstatechange := onconnectionstatechange pc;
     onicecandidate := onicecandidate pc;
     onicecandidateerror := h;
     ontrack := ontrack pc; senders := senders pc |}.

Definition set_ontrack (h : bool) (pc : t) : t :=
  {| connectionState := connectionState pc; signalingState := signalingState pc;
     onconnectionstatechange := onconnectionstatechange pc;
     onicecandidate := onicecandidate pc;
     onicecandidateerror := onicecandidateerror pc;
     ontrack := h; senders := senders pc |}.

(** [pc.addTrack(track, stream)] *)
Definition addTrack (track : nat) (pc : t) : t :=
  {| connectionState := connectionState pc; signalingState := signalingState pc;
     onconnectionstatechange := onconnectionstatechange pc;
     onicecandidate := onicecandidate pc;
     onicecandidateerror := onicecandidateerror pc;
     ontrack := ontrack pc; senders := senders pc ++ [track] |}.

(** The method calls the hook makes on a connection. *)
Inductive Call :=
| CallClose
| CallAddTrack (track : nat)
| CallCreateOffer
| CallCreateAnswer
| CallSetLocalDescription (sdp : string)
| CallSetRemoteDescription (sdp : string)
| CallAddIceCandidate (candidate : string).

End RTC.

(** ** The hook, [src/hooks/useWebRTC.ts] *)

Module Hook.

(** A [MediaStream]: the handles of its tracks, and of its video tracks. *)
Record MediaStream := mkStream {
  getTracks : list nat;
  getVideoTracks : list nat
}.

(** What the client sends with [socket.emit]. *)
Inductive ClientMsg :=
| EmitIceCandidate (candidate target : string)
| EmitOffer (offer target : string)
| EmitAnswer (answer target : string)
| EmitStreamPaused (roomId : string)
| EmitStreamResumed (roomId : string)
| EmitCreateRoom
| EmitJoinRoom (roomId : string).

(** The state of one use of the hook.
    - [socket], [isStreamer]: the props ([socket] is [false] for [null]);
    - [isConnected] ... [remoteStream]: the [useState] values;
    - [peerConnection] ... [processingOffers]: the [useRef] values, connections
      being handles into [pcs];
    - [pcs], [nextPc]: the connection objects created so far;
      [stoppedTracks]: the tracks on which [stop()] was called;
      [emitted]: the messages given to [socket.emit], oldest first;
      [calls]: the methods called on connections, oldest first. *)
Record state := mkState {
  socket : bool;
  isStreamer : bool;
  isConnected : bool;
  error : option string;
  connectionState : RTC.ConnectionState;
  remoteStream : option nat;
  peerConnection : option nat;
  localStream : option MediaStream;
  peerConnections : list (string * nat);
  processingOffers : gset string;
  pcs : gmap nat RTC.t;
  nextPc : nat;
  stoppedTracks : gset nat;
  emitted : list ClientMsg;
  calls : list (nat * RTC.Call)
}.

(** The state on mount, lines 10-18. *)
Definition init (socket isStreamer : bool) : state :=
  {| socket := socket; isStreamer := isStreamer; isConnected := false;
     error := None; connectionState := RTC.New; remoteStream := None;
     peerConnection := None; localStream := None; peerConnections := [];
     processingOffers := ∅; pcs := ∅; nextPc := 0; stoppedTracks := ∅;
     emitted := []; calls := [] |}.

Definition setIsConnected (x : bool) (st : state) : state :=
  {| socket := socket st; isStreamer := isStreamer st; isConnected := x;
     error := error st; connectionState := connectionState st;
     remoteStream := remoteStream st; peerConnection := peerConnection st;
     localStream := localStream st; peerConnections := peerConnections st;
     processingOffers := processingOffers st; pcs := pcs st;
     nextPc := nextPc st; stoppedTracks := stoppedTracks st;
     emitted := emitted st; calls := calls st |}.

Definition setError (x : option string) (st : state) : state :=
  {| socket := socket st; isStreamer := isStreamer st;
     isConnected := isConnected st; error := x;
     connectionState := connectionState st;
     remoteStream := remoteStream st; peerConnection := peerConnection st;
     localStream := localStream st; peerConnections := peerConnections st;
     processingOffers := processingOffers st; pcs := pcs st;
     nextPc := nextPc st; stoppedTracks := stoppedTracks st;
     emitted := emitted st; calls := calls st |}.

Definition setConnectionState (x : RTC.ConnectionState) (st : state) : state :=
  {| socket := socket st; isStreamer := isStreamer st;
     isConnected := isConnected st; error := error st;
     connectionState := x; remoteStream := remoteStream st;
     peerConnection := peerConnection st; localStream := localStream st;
     peerConnections := peerConnections st;
     processingOffers := processingOffers st; pcs := pcs st;
     nextPc := nextPc st; stoppedTracks := stoppedTracks st;
     emitted := emitted st; calls := calls st |}.

Definition setRemoteStream (x : option nat) (st : state) : state :=
  {| socket := socket st; isStreamer := isStreamer st;
     isConnected := isConnected st; error := error st;
     connectionState := connectionState st; remoteStream := x;
     peerConnection := peerConnection st; localStream := localStream st;
     peerConnections := peerConnections st;
     processingOffers := processingOffers st; pcs := pcs st;
     nextPc := nextPc st; stoppedTracks := stoppedTracks st;
     emitted := emitted st; calls := calls st |}.

Definition set_peerConnection (x : option nat) (st : state) : state :=
  {| socket := socket st; isStreamer := isStreamer st;
     isConnected := isConnected st; error := error st;
     connectionState := connectionState st;
     remoteStream := remoteStream st; peerConnection := x;
     localStream := localStream st; peerConnections := peerConnections st;
     processingOffers := processingOffers st; pcs := pcs st;
     nextPc := nextPc st; stoppedTracks := stoppedTracks st;
     emitted := emitted st; calls := calls st |}.

Definition set_localStream (x : option MediaStream) (st : state) : state :=
  {| socket := socket st; isStreamer := isStreamer st;
     isConnected := isConnected st; error := error st;
     connectionState := connectionState st;
     remoteStream := remoteStream st; peerConnection := peerConnection st;
     localStream := x; peerConnections := peerConnections st;
     processingOffers := processingOffers st; pcs := pcs st;
     nextPc := nextPc st; stoppedTracks := stoppedTracks st;
     emitted := emitted st; calls := calls st |}.

Definition set_peerConnections (x : list (string * nat)) (st : state) : state :=
  {| socket := socket st; isStreamer := isStreamer st;
     isConnected := isConnected st; error := error st;
     connectionState := connectionState st;
     remoteStream := remoteStream st; peerConnection := peerConnection st;
     localStream := localStream st; peerConnections := x;
     processingOffers := processingOffers st; pcs := pcs st;
     nextPc := nextPc st; stoppedTracks := stoppedTracks st;
     emitted := emitted st; calls := calls st |}.

Definition set_processingOffers (x : gset string) (st : state) : state :=
  {| socket := socket st; isStreamer := isStreamer st;
     isConnected := isConnected st; error := error st;
     connectionState := connectionState st;
     remoteStream := remoteStream st; peerConnection := peerConnection st;
     localStream := localStream st; peerConnections := peerConnections st;
     processingOffers := x; pcs := pcs st; nextPc := nextPc st;
     stoppedTracks := stoppedTracks st; emitted := emitted st;
     calls := calls st |}.

Definition set_pcs (x : gmap nat RTC.t) (st : state) : state :=
  {| socket := socket st; isStreamer := isStreamer st;
     isConnected := isConnected st; error := error st;
     connectionState := connectionState st;
     remoteStream := remoteStream st; peerConnection := peerConnection st;
     localStream := localStream st; peerConnections := peerConnections st;
     processingOffers := processingOffers st; pcs := x;
     nextPc := nextPc st; stoppedTracks := stoppedTracks st;
     emitted := emitted st; calls := calls st |}.

Definition set_nextPc (x : nat) (st : state) : state :=
  {| socket := socket st; isStreamer := isStreamer st;
     isConnected := isConnected st; error := error st;
     connectionState := connectionState st;
     remoteStream := remoteStream st; peerConnection := peerConnection st;
     localStream := localStream st; peerConnections := peerConnections st;
     processingOffers := processingOffers st; pcs := pcs st; nextPc := x;
     stoppedTracks := stoppedTracks st; emitted := emitted st;
     calls := calls st |}.

Definition set_stoppedTracks (x : gset nat) (st : state) : state :=
  {| socket := socket st; isStreamer := isStreamer st;
     isConnected := isConnected st; error := error st;
     connectionState := connectionState st;
     remoteStream := remoteStream st; peerConnection := peerConnection st;
     localStream := localStream st; peerConnections := peerConnections st;
     processingOffers := processingOffers st; pcs := pcs st;
     nextPc := nextPc st; stoppedTracks := x; emitted := emitted st;
     calls := calls st |}.

Definition set_emitted (x : list ClientMsg) (st : state) : state :=
  {| socket := socket st; isStreamer := isStreamer st;
     isConnected := isConnected st; error := error st;
     connectionState := connectionState st;
     remoteStream := remoteStream st; peerConnection := peerConnection st;
     localStream := localStream st; peerConnections := peerConnections st;
     processingOffers := processingOffers st; pcs := pcs st;
     nextPc := nextPc st; stoppedTracks := stoppedTracks st; emitted := x;
     calls := calls st |}.

Definition set_calls (x : list (nat * RTC.Call)) (st : state) : state :=
  {| socket := socket st; isStreamer := isStreamer st;
     isConnected := isConnected st; error := error st;
     connectionState := connectionState st;
     remoteStream := remoteStream st; peerConnection := peerConnection st;
     localStream := localStream st; peerConnections := peerConnections st;
     processingOffers := processingOffers st; pcs := pcs st;
     nextPc := nextPc st; stoppedTracks := stoppedTracks st;
     emitted := emitted st; calls := x |}.

(** [socket.emit(...)] *)
Definition emit (m : ClientMsg) (st : state) : state :=
  set_emitted (emitted st ++ [m]) st.

(** Mutating the connection object behind a handle, and calling a method. *)
Definition pc_update (f : RTC.t → RTC.t) (h : nat) (st : state) : state :=
  set_pcs (alter f h (pcs st)) st.

Definition pc_call (h : nat) (c : RTC.Call) (st : state) : state :=
  set_calls (calls st ++ [(h, c)]) st.

Definition pc_close (h : nat) (st : state) : state :=
  pc_call h RTC.CallClose (pc_update RTC.close h st).

Definition pc_addTrack (h : nat) (track : nat) (st : state) : state :=
  pc_call h (RTC.CallAddTrack track) (pc_update (RTC.addTrack track) h st).

(** [new RTCPeerConnection({ iceServers })] *)
Definition newPeerConnection (st : state) : nat * state :=
  (nextPc st, set_nextPc (S (nextPc st)) (set_pcs (<[nextPc st := RTC.create]> (pcs st)) st)).

(** Reading a property of the connection behind a handle. *)
Definition pc_connectionState (h : nat) (st : state) : option RTC.ConnectionState :=
  RTC.connectionState <$> pcs st !! h.

Definition pc_signalingState (h : nat) (st : state) : option RTC.SignalingState :=
  RTC.signalingState <$> pcs st !! h.

(** [Array.from(peerConnections.current.values())], lines 45 and 412 *)
Definition allConnections (st : state) : list RTC.t :=
  omap (λ h, pcs st !! h) (JsMap.values (peerConnections st)).

(** The [onconnectionstatechange] closure of [createPeerConnectionForViewer],
    lines 40-70, on the connection [pc]. *)
Definition onconnectionstatechange_viewer (pc : nat) (st : state) : state :=
  if isStreamer st then
    let allConnections := allConnections st in
    let hasConnectedViewer :=
      existsb (λ conn, bool_decide (RTC.connectionState conn = RTC.Connected))
        allConnections in
    if hasConnectedViewer then
      setIsConnected true (setConnectionState RTC.Connected st)
    else if bool_decide (0 < length allConnections) then
      let states := RTC.connectionState <$> allConnections in
      let hasConnecting := bool_decide (RTC.Connecting ∈ states) in
      if hasConnecting then
        setIsConnected false (setConnectionState RTC.Connecting st)
      else
        setIsConnected false (setConnectionState RTC.Disconnected st)
    else
      setIsConnected false (setConnectionState RTC.New st)
  else
    match pc_connectionState pc st with
    | Some c =>
        setIsConnected (bool_decide (c = RTC.Connected)) (setConnectionState c st)
    | None => st
    end.

(** The [onconnectionstatechange] closure of [createAnswer], lines 232-237. *)
Definition onconnectionstatechange_streamer (pc : nat) (st : state) : state :=
  match peerConnection st, pc_connectionState pc st with
  | Some _, Some c =>
      setIsConnected (bool_decide (c = RTC.Connected)) (setConnectionState c st)
  | _, _ => st
  end.

(** The browser moves the connection [pc] to the state [c] and fires
    [connectionstatechange] on it. *)
Definition connectionstatechange (pc : nat) (c : RTC.ConnectionState)
    (st : state) : state :=
  let st1 := pc_update (RTC.set_connectionState c) pc st in
  match pcs st1 !! pc with
  | Some conn =>
      match RTC.onconnectionstatechange conn with
      | Some (RTC.OfViewerConnection _) => onconnectionstatechange_viewer pc st1
      | Some RTC.OfStreamerConnection => onconnectionstatechange_streamer pc st1
      | None => st1
      end
  | None => st1
  end.

(** The [ontrack] closure of [createAnswer], lines 250-254. *)
Definition track (pc : nat) (streams : list nat) (st : state) : state :=
  match pcs st !! pc with
  | Some conn =>
      if RTC.ontrack conn then
        match streams with
        | first :: _ => setRemoteStream (Some first) st
        | [] => st
        end
      else st
  | None => st
  end.

(** The [onicecandidate] closures, lines 73-81 and 240-247. *)
Definition icecandidate (pc : nat) (candidate : option string) (st : state) : state :=
  match pcs st !! pc with
  | Some conn =>
      match RTC.onicecandidate conn, candidate with
      | Some target, Some c =>
          if socket st then emit (EmitIceCandidate c target) st else st
      | _, _ => st
      end
  | None => st
  end.

(** [createPeerConnectionForViewer], lines 29-92 *)
Definition createPeerConnectionForViewer (viewerId : string) (st : state)
    : nat * state :=
  let st1 :=
    match JsMap.get viewerId (peerConnections st) with
    | Some oldPc =>
        let st' := pc_close oldPc st in
        set_peerConnections (JsMap.delete viewerId (peerConnections st')) st'
    | None => st
    end in
  let '(pc, st2) := newPeerConnection st1 in
  let st3 :=
    pc_update (RTC.set_onconnectionstatechange
                 (Some (RTC.OfViewerConnection viewerId))) pc st2 in
  let st4 := pc_update (RTC.set_onicecandidate (Some viewerId)) pc st3 in
  let st5 := pc_update (RTC.set_onicecandidateerror (Some viewerId)) pc st4 in
  (pc, set_peerConnections (JsMap.set viewerId pc (peerConnections st5)) st5).

(** *** Asynchronous functions

    An awaited browser operation settles with a value or with a thrown
    value; [message] is [err.message] when the thrown value is an [Error] and
    [None] otherwise. *)
Inductive Outcome :=
| Fulfilled (value : string)
| Rejected (message : option string).

(** The points at which the hook's [async] functions wait, with what the
    continuation holds in its closure. *)
Inductive Cont :=
| OfferCreating (viewerId : string) (pc : nat)
    (* line 185, [await pc.createOffer()] *)
| OfferSettingLocal (viewerId : string) (pc : nat) (offer : string)
    (* line 186, [await pc.setLocalDescription(offer)] *)
| AnswerSettingRemote (streamerId : string) (pc : nat)
    (* line 267, [await peerConnection.current.setRemoteDescription(offer)] *)
| AnswerCreating (streamerId : string) (pc : nat)
    (* line 268, [await peerConnection.current.createAnswer()] *)
| AnswerSettingLocal (streamerId : string) (pc : nat) (answer : string)
    (* line 269, [await peerConnection.current.setLocalDescription(answer)] *)
| HandlingAnswer (viewerId : string) (pc : nat)
    (* line 297, [await pc.setRemoteDescription(answer)] *)
| AddingIceCandidate (pc : nat)
    (* lines 316 and 321, [await pc.addIceCandidate(candidate)] *).


(** How the body of a [try] block leaves: by [return] or by running to its
    end, by a thrown value, or by waiting. *)
Inductive Completion :=
| Return
| Throw (message : option string)
| Await (k : Cont).

(** [err instanceof Error ? err.message : fallback] *)
Definition messageOr (fallback : string) (message : option string) : string :=
  default fallback message.

(** The message of the [TypeError] raised by reading a property of [null]
    (the wording of V8). *)
Definition nullPropertyMessage (prop : string) : string :=
  ("Cannot read properties of null (reading '" +:+ prop +:+ "')")%string.

(** The [catch] block of [createOffer], lines 193-200. *)
Definition createOffer_catch (r : state * Completion) : state * option Cont :=
  match r with
  | (st, Return) => (st, None)
  | (st, Throw m) => (setError (Some (messageOr "Failed to create Offer" m)) st, None)
  | (st, Await k) => (st, Some k)
  end.

(** [tracks.forEach(...)], lines 175-183: a track with a sender among
    [existingSenders] is skipped. *)
Definition addTracks (pc : nat) (existingSenders tracks : list nat)
    (st : state) : state :=
  foldl (λ st track,
           if bool_decide (track ∈ existingSenders) then st
           else pc_addTrack pc track st) st tracks.

(** [createOffer], lines 152-203, up to its first [await]. *)
Definition createOffer (viewerId : string) (st : state) : state * option Cont :=
  if negb (socket st) || negb (isStreamer st) then (st, None)
  else
    match localStream st with
    | None => (setError (Some "Local stream not ready") st, None)
    | Some stream =>
        createOffer_catch
          (let '(pc, st1) := createPeerConnectionForViewer viewerId st in
           let tracks := getTracks stream in
           let existingSenders := default [] (RTC.senders <$> pcs st1 !! pc) in
           let st2 := addTracks pc existingSenders tracks st1 in
           (pc_call pc RTC.CallCreateOffer st2, Await (OfferCreating viewerId pc)))
    end.

(** The [catch] and [finally] blocks of [createAnswer], lines 275-284. *)
Definition createAnswer_catch_finally (streamerId : string)
    (r : state * Completion) : state * option Cont :=
  match r with
  | (st, Return) =>
      (set_processingOffers (processingOffers st ∖ {[streamerId]}) st, None)
  | (st, Throw m) =>
      let st1 := setError (Some (messageOr "WebRTC Answer Error" m)) st in
      (set_processingOffers (processingOffers st1 ∖ {[streamerId]}) st1, None)
  | (st, Await k) => (st, Some k)
  end.

(** Lines 216-219 *)
Definition isTerminal (c : option RTC.ConnectionState) : bool :=
  bool_decide (c = Some RTC.Failed) || bool_decide (c = Some RTC.Closed)
  || bool_decide (c = Some RTC.Disconnected).

(** Lines 213-225: a connection in a terminal state is closed and dropped. *)
Definition dropTerminal (st : state) : state :=
  match peerConnection st with
  | Some pc =>
      if isTerminal (pc_connectionState pc st) then
        set_peerConnection None (pc_close pc st)
      else st
  | None => st
  end.

(** Lines 227-257: a connection is created if there is none. *)
Definition ensurePeerConnection (streamerId : string) (st : state) : state :=
  match peerConnection st with
  | Some _ => st
  | None =>
      let '(pc, st1) := newPeerConnection st in
      let st2 :=
        pc_update (RTC.set_onconnectionstatechange
                     (Some RTC.OfStreamerConnection)) pc st1 in
      let st3 := pc_update (RTC.set_onicecandidate (Some streamerId)) pc st2 in
      let st4 := pc_update (RTC.set_ontrack true) pc st3 in
      set_peerConnection (Some pc) st4
  end.

(** Lines 259-267: the body of the [try] block up to its first [await]. *)
Definition createAnswer_try (offer streamerId : string) (st : state)
    : state * Completion :=
  let st1 := set_processingOffers ({[streamerId]} ∪ processingOffers st) st in
  match peerConnection st1 with
  | None => (st1, Throw (Some (nullPropertyMessage "signalingState")))
  | Some pc =>
      if bool_decide (pc_signalingState pc st1 ≠ Some RTC.Stable) then
        (st1, Return)
      else
        (pc_call pc (RTC.CallSetRemoteDescription offer) st1,
         Await (AnswerSettingRemote streamerId pc))
  end.

(** [createAnswer], lines 206-287, up to its first [await]. *)
Definition createAnswer (offer streamerId : string) (st : state)
    : state * option Cont :=
  if bool_decide (streamerId ∈ processingOffers st) then (st, None)
  else
    let st1 := dropTerminal st in
    let st2 := ensurePeerConnection streamerId st1 in
    createAnswer_catch_finally streamerId (createAnswer_try offer streamerId st2).

(** The [catch] blocks of [handleAnswer] and [handleIceCandidate]. *)
Definition handle_catch (fallback : string) (r : state * Completion)
    : state * option Cont :=
  match r with
  | (st, Return) => (st, None)
  | (st, Throw m) => (setError (Some (messageOr fallback m)) st, None)
  | (st, Await k) => (st, Some k)
  end.

(** [handleAnswer], lines 290-307, up to its [await]. *)
Definition handleAnswer (answer viewerId : string) (st : state)
    : state * option Cont :=
  if negb (isStreamer st) then (st, None)
  else
    match JsMap.get viewerId (peerConnections st) with
    | None => (st, None)
    | Some pc =>
        handle_catch "Failed to handle Answer"
          (pc_call pc (RTC.CallSetRemoteDescription answer) st,
           Await (HandlingAnswer viewerId pc))
    end.

(** The continuation of an [async] function of the hook from the point [k],
    the awaited operation having settled with [o].  A fulfilled
    [setLocalDescription] or [setRemoteDescription] has moved the signaling
    state of the connection it was called on. *)
Definition resume (k : Cont) (o : Outcome) (st : state) : state * option Cont :=
  match k with
  | OfferCreating viewerId pc =>
      createOffer_catch
        match o with
        | Fulfilled offer =>
            (pc_call pc (RTC.CallSetLocalDescription offer) st,
             Await (OfferSettingLocal viewerId pc offer))
        | Rejected m => (st, Throw m)
        end
  | OfferSettingLocal viewerId pc offer =>
      createOffer_catch
        match o with
        | Fulfilled _ =>
            let st1 := pc_update (RTC.set_signalingState RTC.HaveLocalOffer) pc st in
            (emit (EmitOffer offer viewerId) st1, Return)
        | Rejected m => (st, Throw m)
        end
  | AnswerSettingRemote streamerId pc =>
      createAnswer_catch_finally streamerId
        match o with
        | Fulfilled _ =>
            let st1 := pc_update (RTC.set_signalingState RTC.HaveRemoteOffer) pc st in
            match peerConnection st1 with
            | None => (st1, Throw (Some (nullPropertyMessage "createAnswer")))
            | Some cur =>
                (pc_call cur RTC.CallCreateAnswer st1,
                 Await (AnswerCreating streamerId cur))
            end
        | Rejected m => (st, Throw m)
        end
  | AnswerCreating streamerId pc =>
      createAnswer_catch_finally streamerId
        match o with
        | Fulfilled answer =>
            match peerConnection st with
            | None => (st, Throw (Some (nullPropertyMessage "setLocalDescription")))
            | Some cur =>
                (pc_call cur (RTC.CallSetLocalDescription answer) st,
                 Await (AnswerSettingLocal streamerId cur answer))
            end
        | Rejected m => (st, Throw m)
        end
  | AnswerSettingLocal streamerId pc answer =>
      createAnswer_catch_finally streamerId
        match o with
        | Fulfilled _ =>
            let st1 := pc_update (RTC.set_signalingState RTC.Stable) pc st in
            (if socket st1 then emit (EmitAnswer answer streamerId) st1 else st1,
             Return)
        | Rejected m => (st, Throw m)
        end
  | HandlingAnswer viewerId pc =>
      handle_catch "Failed to handle Answer"
        match o with
        | Fulfilled _ =>
            (pc_update (RTC.set_signalingState RTC.Stable) pc st, Return)
        | Rejected m => (st, Throw m)
        end
  | AddingIceCandidate pc =>
      handle_catch "Failed to add ICE candidate"
        match o with
        | Fulfilled _ => (st, Return)
        | Rejected m => (st, Throw m)
        end
  end.

(** [handleIceCandidate], lines 310-333, up to its [await]. *)
Definition handleIceCandidate (candidate senderId : string) (st : state)
    : state * option Cont :=
  handle_catch "Failed to add ICE candidate"
    (if isStreamer st then
       match JsMap.get senderId (peerConnections st) with
       | Some pc =>
           (pc_call pc (RTC.CallAddIceCandidate candidate) st,
            Await (AddingIceCandidate pc))
       | None => (st, Return)
       end
     else
       match peerConnection st with
       | Some pc =>
           (pc_call pc (RTC.CallAddIceCandidate candidate) st,
            Await (AddingIceCandidate pc))
       | None => (st, Return)
       end).

(** How many more times a continuation can wait before its function ends. *)
Definition awaits_left (k : Cont) : nat :=
  match k with
  | OfferCreating _ _ => 2
  | OfferSettingLocal _ _ _ => 1
  | AnswerSettingRemote _ _ => 3
  | AnswerCreating _ _ => 2
  | AnswerSettingLocal _ _ _ => 1
  | HandlingAnswer _ _ => 1
  | AddingIceCandidate _ => 1
  end.

(** *** Media and teardown *)

(** The value [getUserMedia] settles with: a stream, a thrown [Error] with
    its [name] and [message], or a thrown value that is not an [Error]. *)
Inductive UserMedia :=
| GotStream (stream : MediaStream)
| MediaError (name message : string)
| MediaThrown.

(** How [startLocalStream] ends. *)
Inductive Started :=
| StartedStream (stream : MediaStream)
| StartedNothing
| StartedThrow (message : string).

(** The [catch] block of [startLocalStream], lines 125-148. *)
Definition startLocalStream_catch (err : option (string * string)) (st : state)
    : state * Started :=
  let errorMessage :=
    match err with
    | Some (name, message) =>
        if bool_decide (name = "NotAllowedError") then
          "Camera permission denied, please allow camera access"
        else if bool_decide (name = "NotFoundError") then
          "Camera device not found"
        else if bool_decide (name = "NotReadableError") then
          "The camera is being used by another application"
        else message
    | None => "Unable to get media devices"
    end in
  (setError (Some errorMessage) st, StartedThrow errorMessage).

(** [startLocalStream], lines 95-149.  [supported] tells whether
    [navigator.mediaDevices.getUserMedia] exists, [media] is what
    [getUserMedia] settles with. *)
Definition startLocalStream (supported : bool) (media : UserMedia) (st : state)
    : state * Started :=
  if negb (isStreamer st) then (st, StartedNothing)
  else if negb supported then
    startLocalStream_catch
      (Some ("Error", "Your browser does not support camera functionality")) st
  else
    match media with
    | GotStream stream =>
        if bool_decide (length (getVideoTracks stream) = 0) then
          startLocalStream_catch (Some ("Error", "Unable to get video track")) st
        else (set_localStream (Some stream) st, StartedStream stream)
    | MediaError name message => startLocalStream_catch (Some (name, message)) st
    | MediaThrown => startLocalStream_catch None st
    end.

(** [localStream.current.getTracks().forEach(track => track.stop())] *)
Definition stopTracks (stream : MediaStream) (st : state) : state :=
  set_stoppedTracks (stoppedTracks st ∪ list_to_set (getTracks stream)) st.

(** [stopLocalStream], lines 393-401 *)
Definition stopLocalStream (st : state) : state :=
  match localStream st with
  | Some stream => set_localStream None (stopTracks stream st)
  | None => st
  end.

(** What [cleanup] does to one connection of the table, lines 355-358. *)
Definition cleanup_one (st : state) (pc : nat) : state :=
  pc_close pc (pc_update (RTC.set_onconnectionstatechange None) pc st).

(** [cleanup], lines 336-367 *)
Definition cleanup (st : state) : state :=
  let st1 :=
    match localStream st with
    | Some stream => set_localStream None (stopTracks stream st)
    | None => st
    end in
  let st2 :=
    match peerConnection st1 with
    | Some pc =>
        let a := pc_update (RTC.set_onconnectionstatechange None) pc st1 in
        let b := pc_update (RTC.set_onicecandidate None) pc a in
        let c := pc_update (RTC.set_ontrack false) pc b in
        set_peerConnection None (pc_close pc c)
    | None => st1
    end in
  let st3 := foldl cleanup_one st2 (JsMap.values (peerConnections st2)) in
  let st4 := set_peerConnections [] st3 in
  let st5 := set_processingOffers ∅ st4 in
  setError None
    (setConnectionState RTC.New (setIsConnected false (setRemoteStream None st5))).

(** [cleanupViewerConnection], lines 404-429 *)
Definition cleanupViewerConnection (viewerId : string) (st : state) : state :=
  match JsMap.get viewerId (peerConnections st) with
  | Some pc =>
      let st1 := pc_close pc st in
      let st2 :=
        set_peerConnections (JsMap.delete viewerId (peerConnections st1)) st1 in
      if isStreamer st2 then
        let allConnections := allConnections st2 in
        let hasConnectedViewer :=
          existsb (λ conn, bool_decide (RTC.connectionState conn = RTC.Connected))
            allConnections in
        if hasConnectedViewer then
          setIsConnected true (setConnectionState RTC.Connected st2)
        else if bool_decide (0 < length allConnections) then
          setIsConnected false (setConnectionState RTC.Connecting st2)
        else
          setIsConnected false (setConnectionState RTC.New st2)
      else st2
  | None => st
  end.

(** *** The aggregate of the specification

    Modelled on the words of the specification, to compare the code with:
    "if any session is connected, connected; else if the session set is
    non-empty and any is connecting, connecting; else if the session set is
    non-empty, disconnected; else new." *)
Definition aggregate (sessions : list RTC.ConnectionState) : RTC.ConnectionState :=
  if bool_decide (RTC.Connected ∈ sessions) then RTC.Connected
  else if bool_decide (sessions ≠ []) && bool_decide (RTC.Connecting ∈ sessions)
  then RTC.Connecting
  else if bool_decide (sessions ≠ []) then RTC.Disconnected
  else RTC.New.

(** The connection states of the sessions in the table. *)
Definition sessionStates (st : state) : list RTC.ConnectionState :=
  RTC.connectionState <$> allConnections st.

(** The handles of the connections in the store are below the next handle. *)
Definition wf (st : state) : Prop :=
  ∀ h, is_Some (pcs st !! h) → h < nextPc st.

(** The hook as the streamer page uses it: [useWebRTC({ socket, isStreamer:
    true })], lines 32-35 of the page, with a socket. *)
Definition streaming (st : state) : Prop :=
  wf st ∧ socket st = true ∧ isStreamer st = true.

(** What starting an offer for each of the viewers [V] does to the sessions,
    from [h] to [h']: every viewer of [V] has a session created meanwhile,
    the session it had is closed, the sessions of other identities stay in
    the table, and a connection of the store is at most closed. *)
Record reoffered (V : list string) (h h' : state) : Prop := mkReoffered {
  ro_wf : wf h';
  ro_next : nextPc h' = nextPc h + length V;
  ro_new : ∀ i v,
    V !! i = Some v → JsMap.get v (peerConnections h') = Some (nextPc h + i);
  ro_others : ∀ w,
    w ∉ V → JsMap.get w (peerConnections h') = JsMap.get w (peerConnections h);
  ro_kept : ∀ x conn,
    pcs h !! x = Some conn →
    ∃ conn', pcs h' !! x = Some conn' ∧ (conn' = conn ∨ conn' = RTC.close conn);
  ro_closed : ∀ v x conn,
    v ∈ V → JsMap.get v (peerConnections h) = Some x → pcs h !! x = Some conn →
    pcs h' !! x = Some (RTC.close conn)
}.

(** The offers under way are carried to their end one after the other, every
    awaited operation succeeding; [sdp pc] is the offer made by [pc]. *)
Fixpoint complete_offers (sdp : nat → string) (ks : list Cont) (st : state)
    : state :=
  match ks with
  | [] => st
  | OfferCreating viewerId pc :: ks' =>
      let '(st1, k1) := resume (OfferCreating viewerId pc) (Fulfilled (sdp pc)) st in
      let st2 :=
        match k1 with
        | Some k1 => (resume k1 (Fulfilled "") st1).1
        | None => st1
        end in
      complete_offers sdp ks' st2
  | _ :: ks' => complete_offers sdp ks' st
  end.

(** An execution of one call of an [async] function from the point it is
    left at: while the function waits, any other code may run and change the
    state, so the function is resumed in a state of the environment's
    choosing.  [finishes k st final]: the call, left at [k] in [st], ends in
    [final]. *)
Inductive finishes : option Cont → state → state → Prop :=
| finishes_now st : finishes None st st
| finishes_later k o st env st' k' final :
    resume k o env = (st', k') →
    finishes k' st' final →
    finishes (Some k) st final.

(** A call is resumed as often as it waits, each time with the outcome and
    in the state the environment chooses. *)
Fixpoint resumes (choices : list (Outcome * state)) (r : state * option Cont)
    : state * option Cont :=
  match choices, r with
  | (o, env) :: rest, (_, Some k) => resumes rest (resume k o env)
  | _, _ => r
  end.

(** The streamer whose offer a continuation of [createAnswer] is handling. *)
Definition answering (k : Cont) : option string :=
  match k with
  | AnswerSettingRemote s _ | AnswerCreating s _ | AnswerSettingLocal s _ _ => Some s
  | _ => None
  end.

(** The [setRemoteDescription] calls in a log. *)
Definition remoteDescriptions (l : list (nat * RTC.Call)) : list (nat * string) :=
  omap (λ c, match c with
             | (pc, RTC.CallSetRemoteDescription sdp) => Some (pc, sdp)
             | _ => None
             end) l.

(** The offers and the answers in a log of emitted messages. *)
Definition offersTo (l : list ClientMsg) : list string :=
  omap (λ m, match m with EmitOffer _ target => Some target | _ => None end) l.

Definition answersTo (l : list ClientMsg) : list string :=
  omap (λ m, match m with EmitAnswer _ target => Some target | _ => None end) l.

(** A streamer with sessions [{v1: disconnected, v2: connected}]: a stream
    of two tracks is held, offers are created for ["v1"] and ["v2"], and
    the browser reports the two connection states. *)
Definition two_sessions : state :=
  let st0 :=
    set_localStream (Some {| getTracks := [0; 1]; getVideoTracks := [0] |})
      (init true true) in
  let st1 := (createOffer "v1" st0).1 in
  let st2 := (createOffer "v2" st1).1 in
  connectionstatechange 1 RTC.Connected
    (connectionstatechange 0 RTC.Disconnected st2).

(** A viewer whose connection to the streamer is waiting for an answer to an
    offer of its own making, so that its signaling state is not stable. *)
Definition viewer_mid_negotiation : state :=
  let st0 := ensurePeerConnection "s" (init true false) in
  pc_update (RTC.set_signalingState RTC.HaveLocalOffer) 0 st0.

(** A viewer that is handling an offer of the streamer ["s"]. *)
Definition viewer_busy : state :=
  set_processingOffers {[ "s" ]} (init true false).

(** A streamer-side hook without a socket, and one with a socket, neither
    holding a local stream. *)
Definition streamer_without_socket : state := init false true.

Definition streamer_without_media : state := init true true.

(** A connection whose callbacks are unregistered and which is closed. *)
Definition tornDown (conn : RTC.t) : Prop :=
  RTC.onconnectionstatechange conn = None
  ∧ RTC.onicecandidate conn = None
  ∧ RTC.ontrack conn = false
  ∧ RTC.connectionState conn = RTC.Closed.

(** The state [cleanup] establishes. *)
Definition clean (st : state) : Prop :=
  localStream st = None
  ∧ peerConnection st = None
  ∧ peerConnections st = []
  ∧ processingOffers st = ∅
  ∧ remoteStream st = None
  ∧ isConnected st = false
  ∧ connectionState st = RTC.New
  ∧ error st = None.

(** A viewer in the middle of a session: a connection to the streamer
    ["s"] that is connected, a remote stream, an offer being handled. *)
Definition viewer_connected : state :=
  let st1 := (createAnswer "offer" "s" (init true false)).1 in
  let st2 := connectionstatechange 0 RTC.Connected st1 in
  track 0 [7] st2.

End Hook.

(** ** The streamer page, [src/app/streamer/page.tsx] *)

Module Streamer.

(** The state of the page.
    - [roomId] ... [isInitializing]: the [useState] values;
    - [videoRef]: the video element, if mounted, with its [srcObject];
    - [viewersRef]: the set of known viewers;
    - [hook]: the state of [useWebRTC({ socket, isStreamer: true })];
    - [pending]: the calls of the hook's [async] functions that are under
      way; the page does not await them. *)
Record state := mkState {
  roomId : option string;
  viewerCount : nat;
  status : string;
  isStreaming : bool;
  isInitializing : bool;
  videoRef : option (option Hook.MediaStream);
  viewersRef : list string;
  hook : Hook.state;
  pending : list Hook.Cont
}.

Definition setRoomId (x : option string) (st : state) : state :=
  {| roomId := x; viewerCount := viewerCount st; status := status st;
     isStreaming := isStreaming st; isInitializing := isInitializing st;
     videoRef := videoRef st; viewersRef := viewersRef st; hook := hook st;
     pending := pending st |}.

Definition setViewerCount (x : nat) (st : state) : state :=
  {| roomId := roomId st; viewerCount := x; status := status st;
     isStreaming := isStreaming st; isInitializing := isInitializing st;
     videoRef := videoRef st; viewersRef := viewersRef st; hook := hook st;
     pending := pending st |}.

Definition setStatus (x : string) (st : state) : state :=
  {| roomId := roomId st; viewerCount := viewerCount st; status := x;
     isStreaming := isStreaming st; isInitializing := isInitializing st;
     videoRef := videoRef st; viewersRef := viewersRef st; hook := hook st;
     pending := pending st |}.

Definition setIsStreaming (x : bool) (st : state) : state :=
  {| roomId := roomId st; viewerCount := viewerCount st; status := status st;
     isStreaming := x; isInitializing := isInitializing st;
     videoRef := videoRef st; viewersRef := viewersRef st; hook := hook st;
     pending := pending st |}.

Definition setIsInitializing (x : bool) (st : state) : state :=
  {| roomId := roomId st; viewerCount := viewerCount st; status := status st;
     isStreaming := isStreaming st; isInitializing := x;
     videoRef := videoRef st; viewersRef := viewersRef st; hook := hook st;
     pending := pending st |}.

Definition set_videoRef (x : option (option Hook.MediaStream)) (st : state) : state :=
  {| roomId := roomId st; viewerCount := viewerCount st; status := status st;
     isStreaming := isStreaming st; isInitializing := isInitializing st;
     videoRef := x; viewersRef := viewersRef st; hook := hook st;
     pending := pending st |}.

Definition set_viewersRef (x : list string) (st : state) : state :=
  {| roomId := roomId st; viewerCount := viewerCount st; status := status st;
     isStreaming := isStreaming st; isInitializing := isInitializing st;
     videoRef := videoRef st; viewersRef := x; hook := hook st;
     pending := pending st |}.

Definition set_hook (x : Hook.state) (st : state) : state :=
  {| roomId := roomId st; viewerCount := viewerCount st; status := status st;
     isStreaming := isStreaming st; isInitializing := isInitializing st;
     videoRef := videoRef st; viewersRef := viewersRef st; hook := x;
     pending := pending st |}.

Definition set_pending (x : list Hook.Cont) (st : state) : state :=
  {| roomId := roomId st; viewerCount := viewerCount st; status := status st;
     isStreaming := isStreaming st; isInitializing := isInitializing st;
     videoRef := videoRef st; viewersRef := viewersRef st; hook := hook st;
     pending := x |}.

(** [setError] of the hook, and [socket.emit]. *)
Definition setError (e : option string) (st : state) : state :=
  set_hook (Hook.setError e (hook st)) st.

Definition emit (m : Hook.ClientMsg) (st : state) : state :=
  set_hook (Hook.emit m (hook st)) st.

(** The page on mount. *)
Definition init : state :=
  {| roomId := None; viewerCount := 0; status := "Ready"; isStreaming := false;
     isInitializing := false; videoRef := Some None; viewersRef := [];
     hook := Hook.init true true; pending := [] |}.

(** A string or [null] used as a condition. *)
Definition truthy (s : option string) : option string :=
  match s with
  | Some r => if bool_decide (r = "") then None else Some r
  | None => None
  end.

(** A call of the hook's [createOffer] that the page does not await: the
    call runs to its first [await] and stays under way. *)
Definition createOffer (viewerId : string) (st : state) : state :=
  let '(h, k) := Hook.createOffer viewerId (hook st) in
  set_pending (pending st ++ option_list k) (set_hook h st).

(** An [async] call of the hook that is under way goes on: the operation
    awaited by the [i]-th of them settles with [o]. *)
Definition settle (i : nat) (o : Hook.Outcome) (st : state) : state :=
  match pending st !! i with
  | Some k =>
      let '(h, k') := Hook.resume k o (hook st) in
      set_pending (take i (pending st) ++ option_list k' ++ drop (S i) (pending st))
        (set_hook h st)
  | None => st
  end.

(** The [catch] and [finally] blocks of [initializeStream], lines 134-141. *)
Definition initializeStream_catch_finally (r : state * option (option string))
    : state :=
  match r with
  | (st, None) => setIsInitializing false st
  | (st, Some m) =>
      let st1 := setError (Some (Hook.messageOr "Initialization failed" m)) st in
      let st2 := setStatus "Initialization failed" st1 in
      setIsInitializing false (setIsStreaming false st2)
  end.

(** [initializeStream], lines 120-142, up to [await startStreamCore()]; the
    result is [true] if the function is left waiting there. *)
Definition initializeStream (st : state) : state * bool :=
  if isInitializing st || isStreaming st then (st, false)
  else
    let st1 := setIsInitializing true st in
    let st2 := setError None st1 in
    (setStatus "Requesting camera access..." st2, true).

(** [initializeStream] goes on: [startLocalStream] has ended. *)
Definition initializeStream_acquired (supported : bool)
    (media : Hook.UserMedia) (st : state) : state * option Hook.MediaStream :=
  let '(h, started) := Hook.startLocalStream supported media (hook st) in
  let st1 := set_hook h st in
  match started with
  | Hook.StartedStream stream => (st1, Some stream)
  | Hook.StartedNothing =>
      (initializeStream_catch_finally
         (st1, Some (Some "Unable to get media stream")), None)
  | Hook.StartedThrow message =>
      (initializeStream_catch_finally (st1, Some (Some message)), None)
  end.

(** [initializeStream] goes on: [attachStreamToVideo(stream)] has ended;
    the result is [true] if the function is left waiting, inside
    [createRoom] (lines 96-109), for the socket to be connected. *)
Definition initializeStream_attached (stream : Hook.MediaStream)
    (loaded : bool) (st : state) : state * bool :=
  match videoRef st with
  | None =>
      (initializeStream_catch_finally
         (st, Some (Some "Video element initialization failed")), false)
  | Some _ =>
      let st1 := set_videoRef (Some (Some stream)) st in
      if loaded then
        let st2 := setIsStreaming true st1 in
        (setStatus "Starting camera..." st2, true)
      else
        (initializeStream_catch_finally
           (st1, Some (Some "Video loading failed")), false)
  end.

(** [initializeStream] goes on: [waitForSocketConnected(5000)] has ended,
    the socket being connected or the wait having timed out; the result is
    [true] if the function is left waiting for the room. *)
Definition initializeStream_connected (connected : bool) (st : state)
    : state * bool :=
  if connected then (emit Hook.EmitCreateRoom st, true)
  else
    (initializeStream_catch_finally
       (st, Some (Some "Socket connection timeout")), false).

(** [initializeStream] goes on to its end: the server has answered
    [create-room] with a room, or 15 seconds have passed. *)
Definition initializeStream_created (response : option string) (st : state)
    : state :=
  initializeStream_catch_finally
    match response with
    | Some newRoomId =>
        let st1 := setRoomId (Some newRoomId) st in
        (setStatus "Ready — share the room link to invite viewers" st1, None)
    | None => (st, Some (Some "Room creation timed out"))
    end.

(** [stopStream], lines 145-158 *)
Definition stopStream (st : state) : state :=
  let st1 := set_hook (Hook.stopLocalStream (hook st)) st in
  let st2 :=
    match videoRef st1 with
    | Some _ => set_videoRef (Some None) st1
    | None => st1
    end in
  let st3 := setIsStreaming false st2 in
  let st4 := setStatus "Stream paused — press Play to resume" st3 in
  match truthy (roomId st4) with
  | Some r => emit (Hook.EmitStreamPaused r) st4
  | None => st4
  end.

(** The [catch] and [finally] blocks of [restartStream], lines 181-187; the
    body of the [try] block has ended, normally or by throwing a value with
    the message given. *)
Definition restartStream_catch_finally (r : state * option (option string))
    : state :=
  match r with
  | (st, None) => setIsInitializing false st
  | (st, Some m) =>
      let st1 := setError (Some (Hook.messageOr "Stream restart failed" m)) st in
      setIsInitializing false (setStatus "Restart failed" st1)
  end.

(** [restartStream], lines 161-188, up to [await startStreamCore()]; the
    result is [true] if the function is left waiting there. *)
Definition restartStream (st : state) : state * bool :=
  match truthy (roomId st) with
  | None =>
      (setError (Some "Room has expired, please restart streaming") st, false)
  | Some r =>
      let st1 := setIsInitializing true st in
      let st2 := setError None st1 in
      let st3 := setStatus "Resuming stream..." st2 in
      (emit (Hook.EmitStreamResumed r) st3, true)
  end.

(** [restartStream] goes on: inside [startStreamCore] (lines 112-117),
    [startLocalStream] has ended.  The result is [Some stream] if the
    function is left waiting for [attachStreamToVideo(stream)]. *)
Definition restartStream_acquired (supported : bool) (media : Hook.UserMedia)
    (st : state) : state * option Hook.MediaStream :=
  let '(h, started) := Hook.startLocalStream supported media (hook st) in
  let st1 := set_hook h st in
  match started with
  | Hook.StartedStream stream => (st1, Some stream)
  | Hook.StartedNothing =>
      (restartStream_catch_finally (st1, Some (Some "Unable to get media stream")),
       None)
  | Hook.StartedThrow message =>
      (restartStream_catch_finally (st1, Some (Some message)), None)
  end.

(** [restartStream] goes on to its end: [attachStreamToVideo(stream)]
    (lines 61-93) has ended; [loaded] tells whether the video element loaded
    the metadata of the stream or reported an error. *)
Definition restartStream_attached (stream : Hook.MediaStream) (loaded : bool)
    (st : state) : state :=
  restartStream_catch_finally
    match videoRef st with
    | None => (st, Some (Some "Video element initialization failed"))
    | Some _ =>
        let st1 := set_videoRef (Some (Some stream)) st in
        if loaded then
          let st2 := setIsStreaming true st1 in
          let st3 := setStatus "Streaming live" st2 in
          (foldl (λ st viewerId, createOffer viewerId st) st3 (viewersRef st3),
           None)
        else (st1, Some (Some "Video loading failed"))
    end.

(** [onViewerJoined], lines 222-227 *)
Definition onViewerJoined (viewerId : string) (st : state) : state :=
  let st1 := set_viewersRef (JsSet.add viewerId (viewersRef st)) st in
  let st2 := setViewerCount (JsSet.size (viewersRef st1)) st1 in
  let st3 :=
    setStatus ("Viewer connected (" +:+ pretty (JsSet.size (viewersRef st2))
               +:+ " watching)") st2 in
  createOffer viewerId st3.

(** [onViewerLeft], lines 229-239 *)
Definition onViewerLeft (viewerId : string) (st : state) : state :=
  let st1 := set_hook (Hook.cleanupViewerConnection viewerId (hook st)) st in
  let st2 := set_viewersRef (JsSet.delete viewerId (viewersRef st1)) st1 in
  let st3 := setViewerCount (JsSet.size (viewersRef st2)) st2 in
  setStatus
    (if bool_decide (0 < JsSet.size (viewersRef st3)) then
       "Streaming live (" +:+ pretty (JsSet.size (viewersRef st3)) +:+ " watching)"
     else "Ready — waiting for viewers to connect") st3.

(** A call of an [async] function of the hook from a socket listener. *)
Definition spawn (r : Hook.state * option Hook.Cont) (st : state) : state :=
  set_pending (pending st ++ option_list r.2) (set_hook r.1 st).

(** What the page and its hook do with an event the server sends: the
    listeners of lines 241-242 of the page and 373-383 of the hook. *)
Definition receive (ev : Server.Event) (st : state) : state :=
  match ev with
  | Server.ViewerJoined viewerId => onViewerJoined viewerId st
  | Server.ViewerLeft viewerId => onViewerLeft viewerId st
  | Server.OfferFrom o sender => spawn (Hook.createAnswer o sender (hook st)) st
  | Server.AnswerFrom a sender => spawn (Hook.handleAnswer a sender (hook st)) st
  | Server.IceCandidateFrom c sender =>
      spawn (Hook.handleIceCandidate c sender (hook st)) st
  | Server.StreamerLeft | Server.StreamPaused | Server.StreamResumed => st
  end.

Definition receive_all (evs : list Server.Event) (st : state) : state :=
  foldl (λ st ev, receive ev st) st evs.

(** What can happen to the page: the buttons, the operations awaited by
    [initializeStream] and [restartStream] ending, an event of the server,
    an operation awaited by a call of the hook ending. *)
Inductive Event :=
| Initialize
| InitAcquired (supported : bool) (media : Hook.UserMedia)
| InitAttached (stream : Hook.MediaStream) (loaded : bool)
| InitConnected (connected : bool)
| InitCreated (response : option string)
| Pause
| Resume
| ResumeAcquired (supported : bool) (media : Hook.UserMedia)
| ResumeAttached (stream : Hook.MediaStream) (loaded : bool)
| Received (ev : Server.Event)
| Settled (i : nat) (o : Hook.Outcome).

Definition step (ev : Event) (st : state) : state :=
  match ev with
  | Initialize => (initializeStream st).1
  | InitAcquired supported media => (initializeStream_acquired supported media st).1
  | InitAttached stream loaded => (initializeStream_attached stream loaded st).1
  | InitConnected connected => (initializeStream_connected connected st).1
  | InitCreated response => initializeStream_created response st
  | Pause => stopStream st
  | Resume => (restartStream st).1
  | ResumeAcquired supported media => (restartStream_acquired supported media st).1
  | ResumeAttached stream loaded => restartStream_attached stream loaded st
  | Received ev => receive ev st
  | Settled i o => settle i o st
  end.

Definition run (evs : list Event) (st : state) : state :=
  foldl (λ st ev, step ev st) st evs.

(** What holds of every state the page reaches. *)
Definition ok (st : state) : Prop :=
  Hook.streaming (hook st) ∧ NoDup (viewersRef st) ∧ is_Some (videoRef st).

(** A streamer that is live in the room ["dev-room-001"] with a stream of
    two tracks; then the viewer ["v1"] has joined and been sent an offer;
    then the streamer has paused. *)
Definition webcam : Hook.MediaStream :=
  {| Hook.getTracks := [0; 1]; Hook.getVideoTracks := [0] |}.

Definition live : state :=
  run [Initialize; InitAcquired true (Hook.GotStream webcam);
       InitAttached webcam true; InitConnected true;
       InitCreated (Some "dev-room-001")] init.

Definition live_with_viewer : state :=
  run [Received (Server.ViewerJoined "v1"); Settled 0 (Hook.Fulfilled "offer-1");
       Settled 0 (Hook.Fulfilled "")] live.

Definition paused : state := step Pause live_with_viewer.

(** The paused streamer resumes: the camera gives a new stream and the
    video element loads it. *)
Definition camera : Hook.MediaStream :=
  {| Hook.getTracks := [2; 3]; Hook.getVideoTracks := [2] |}.

Definition resumed : state :=
  run [Resume; ResumeAcquired true (Hook.GotStream camera);
       ResumeAttached camera true] paused.

(** [restartStream] from the call to its end, nothing else running while it
    waits. *)
Definition restartStream_run (supported : bool) (media : Hook.UserMedia)
    (loaded : bool) (st : state) : state :=
  match restartStream st with
  | (st1, false) => st1
  | (st1, true) =>
      match restartStream_acquired supported media st1 with
      | (st2, None) => st2
      | (st2, Some stream) => restartStream_attached stream loaded st2
      end
  end.

(** The calls of [createOffer] started for the viewers [V], the first of
    them on the connection [next]. *)
Definition offersStarted (next : nat) (V : list string) : list Hook.Cont :=
  imap (λ i v, Hook.OfferCreating v (next + i)) V.

End Streamer.

(** ** The viewer page, [src/app/viewer/[roomId]/page.tsx] *)

Module Viewer.

(** The state of the page.
    - [roomId]: the route parameter;
    - [status] ... [isVideoPlaying]: the [useState] values;
    - [retryCountRef], [retryTimeoutRef]: the two refs of the retry logic;
    - [retryCleanup]: whether the last run of the auto-retry effect returned
      its cleanup function, which React calls before the next run;
    - [timers], [nextTimer]: the retry timers that are scheduled, with their
      delays in milliseconds;
    - [hook]: the state of [useWebRTC({ socket, isStreamer: false })];
    - [pending]: the calls of the hook's [async] functions under way. *)
Record state := mkState {
  roomId : string;
  status : string;
  hasJoinedRoom : bool;
  isJoining : bool;
  isProcessingOffer : bool;
  needsUserInteraction : bool;
  isStreamPaused : bool;
  isVideoPlaying : bool;
  retryCountRef : Z;
  retryTimeoutRef : option nat;
  retryCleanup : bool;
  timers : gmap nat Z;
  nextTimer : nat;
  hook : Hook.state;
  pending : list Hook.Cont
}.

Definition setStatus (x : string) (st : state) : state :=
  {| roomId := roomId st; status := x; hasJoinedRoom := hasJoinedRoom st;
     isJoining := isJoining st; isProcessingOffer := isProcessingOffer st;
     needsUserInteraction := needsUserInteraction st;
     isStreamPaused := isStreamPaused st;
     isVideoPlaying := isVideoPlaying st; retryCountRef := retryCountRef st;
     retryTimeoutRef := retryTimeoutRef st; retryCleanup := retryCleanup st;
     timers := timers st; nextTimer := nextTimer st; hook := hook st;
     pending := pending st |}.

Definition setHasJoinedRoom (x : bool) (st : state) : state :=
  {| roomId := roomId st; status := status st; hasJoinedRoom := x;
     isJoining := isJoining st; isProcessingOffer := isProcessingOffer st;
     needsUserInteraction := needsUserInteraction st;
     isStreamPaused := isStreamPaused st;
     isVideoPlaying := isVideoPlaying st; retryCountRef := retryCountRef st;
     retryTimeoutRef := retryTimeoutRef st; retryCleanup := retryCleanup st;
     timers := timers st; nextTimer := nextTimer st; hook := hook st;
     pending := pending st |}.

Definition setIsJoining (x : bool) (st : state) : state :=
  {| roomId := roomId st; status := status st;
     hasJoinedRoom := hasJoinedRoom st; isJoining := x;
     isProcessingOffer := isProcessingOffer st;
     needsUserInteraction := needsUserInteraction st;
     isStreamPaused := isStreamPaused st;
     isVideoPlaying := isVideoPlaying st; retryCountRef := retryCountRef st;
     retryTimeoutRef := retryTimeoutRef st; retryCleanup := retryCleanup st;
     timers := timers st; nextTimer := nextTimer st; hook := hook st;
     pending := pending st |}.

Definition setIsProcessingOffer (x : bool) (st : state) : state :=
  {| roomId := roomId st; status := status st;
     hasJoinedRoom := hasJoinedRoom st; isJoining := isJoining st;
     isProcessingOffer := x; needsUserInteraction := needsUserInteraction st;
     isStreamPaused := isStreamPaused st;
     isVideoPlaying := isVideoPlaying st; retryCountRef := retryCountRef st;
     retryTimeoutRef := retryTimeoutRef st; retryCleanup := retryCleanup st;
     timers := timers st; nextTimer := nextTimer st; hook := hook st;
     pending := pending st |}.

Definition setNeedsUserInteraction (x : bool) (st : state) : state :=
  {| roomId := roomId st; status := status st;
     hasJoinedRoom := hasJoinedRoom st; isJoining := isJoining st;
     isProcessingOffer := isProcessingOffer st; needsUserInteraction := x;
     isStreamPaused := isStreamPaused st;
     isVideoPlaying := isVideoPlaying st; retryCountRef := retryCountRef st;
     retryTimeoutRef := retryTimeoutRef st; retryCleanup := retryCleanup st;
     timers := timers st; nextTimer := nextTimer st; hook := hook st;
     pending := pending st |}.

Definition setIsStreamPaused (x : bool) (st : state) : state :=
  {| roomId := roomId st; status := status st;
     hasJoinedRoom := hasJoinedRoom st; isJoining := isJoining st;
     isProcessingOffer := isProcessingOffer st;
     needsUserInteraction := needsUserInteraction st; isStreamPaused := x;
     isVideoPlaying := isVideoPlaying st; retryCountRef := retryCountRef st;
     retryTimeoutRef := retryTimeoutRef st; retryCleanup := retryCleanup st;
     timers := timers st; nextTimer := nextTimer st; hook := hook st;
     pending := pending st |}.

Definition setIsVideoPlaying (x : bool) (st : state) : state :=
  {| roomId := roomId st; status := status st;
     hasJoinedRoom := hasJoinedRoom st; isJoining := isJoining st;
     isProcessingOffer := isProcessingOffer st;
     needsUserInteraction := needsUserInteraction st;
     isStreamPaused := isStreamPaused st; isVideoPlaying := x;
     retryCountRef := retryCountRef st;
     retryTimeoutRef := retryTimeoutRef st; retryCleanup := retryCleanup st;
     timers := timers st; nextTimer := nextTimer st; hook := hook st;
     pending := pending st |}.

Definition set_retryCountRef (x : Z) (st : state) : state :=
  {| roomId := roomId st; status := status st;
     hasJoinedRoom := hasJoinedRoom st; isJoining := isJoining st;
     isProcessingOffer := isProcessingOffer st;
     needsUserInteraction := needsUserInteraction st;
     isStreamPaused := isStreamPaused st;
     isVideoPlaying := isVideoPlaying st; retryCountRef := x;
     retryTimeoutRef := retryTimeoutRef st; retryCleanup := retryCleanup st;
     timers := timers st; nextTimer := nextTimer st; hook := hook st;
     pending := pending st |}.

Definition set_retryTimeoutRef (x : option nat) (st : state) : state :=
  {| roomId := roomId st; status := status st;
     hasJoinedRoom := hasJoinedRoom st; isJoining := isJoining st;
     isProcessingOffer := isProcessingOffer st;
     needsUserInteraction := needsUserInteraction st;
     isStreamPaused := isStreamPaused st;
     isVideoPlaying := isVideoPlaying st; retryCountRef := retryCountRef st;
     retryTimeoutRef := x; retryCleanup := retryCleanup st;
     timers := timers st; nextTimer := nextTimer st; hook := hook st;
     pending := pending st |}.

Definition set_retryCleanup (x : bool) (st : state) : state :=
  {| roomId := roomId st; status := status st;
     hasJoinedRoom := hasJoinedRoom st; isJoining := isJoining st;
     isProcessingOffer := isProcessingOffer st;
     needsUserInteraction := needsUserInteraction st;
     isStreamPaused := isStreamPaused st;
     isVideoPlaying := isVideoPlaying st; retryCountRef := retryCountRef st;
     retryTimeoutRef := retryTimeoutRef st; retryCleanup := x;
     timers := timers st; nextTimer := nextTimer st; hook := hook st;
     pending := pending st |}.

Definition set_timers (x : gmap nat Z) (st : state) : state :=
  {| roomId := roomId st; status := status st;
     hasJoinedRoom := hasJoinedRoom st; isJoining := isJoining st;
     isProcessingOffer := isProcessingOffer st;
     needsUserInteraction := needsUserInteraction st;
     isStreamPaused := isStreamPaused st;
     isVideoPlaying := isVideoPlaying st; retryCountRef := retryCountRef st;
     retryTimeoutRef := retryTimeoutRef st; retryCleanup := retryCleanup st;
     timers := x; nextTimer := nextTimer st; hook := hook st;
     pending := pending st |}.

Definition set_nextTimer (x : nat) (st : state) : state :=
  {| roomId := roomId st; status := status st;
     hasJoinedRoom := hasJoinedRoom st; isJoining := isJoining st;
     isProcessingOffer := isProcessingOffer st;
     needsUserInteraction := needsUserInteraction st;
     isStreamPaused := isStreamPaused st;
     isVideoPlaying := isVideoPlaying st; retryCountRef := retryCountRef st;
     retryTimeoutRef := retryTimeoutRef st; retryCleanup := retryCleanup st;
     timers := timers st; nextTimer := x; hook := hook st;
     pending := pending st |}.

Definition set_hook (x : Hook.state) (st : state) : state :=
  {| roomId := roomId st; status := status st;
     hasJoinedRoom := hasJoinedRoom st; isJoining := isJoining st;
     isProcessingOffer := isProcessingOffer st;
     needsUserInteraction := needsUserInteraction st;
     isStreamPaused := isStreamPaused st;
     isVideoPlaying := isVideoPlaying st; retryCountRef := retryCountRef st;
     retryTimeoutRef := retryTimeoutRef st; retryCleanup := retryCleanup st;
     timers := timers st; nextTimer := nextTimer st; hook := x;
     pending := pending st |}.

Definition set_pending (x : list Hook.Cont) (st : state) : state :=
  {| roomId := roomId st; status := status st;
     hasJoinedRoom := hasJoinedRoom st; isJoining := isJoining st;
     isProcessingOffer := isProcessingOffer st;
     needsUserInteraction := needsUserInteraction st;
     isStreamPaused := isStreamPaused st;
     isVideoPlaying := isVideoPlaying st; retryCountRef := retryCountRef st;
     retryTimeoutRef := retryTimeoutRef st; retryCleanup := retryCleanup st;
     timers := timers st; nextTimer := nextTimer st; hook := hook st;
     pending := x |}.

Definition setError (e : option string) (st : state) : state :=
  set_hook (Hook.setError e (hook st)) st.

Definition emit (m : Hook.ClientMsg) (st : state) : state :=
  set_hook (Hook.emit m (hook st)) st.

(** The page on mount, lines 9-19. *)
Definition init (roomId : string) : state :=
  {| roomId := roomId; status := "Connecting..."; hasJoinedRoom := false;
     isJoining := false; isProcessingOffer := false;
     needsUserInteraction := false; isStreamPaused := false;
     isVideoPlaying := false; retryCountRef := 0; retryTimeoutRef := None;
     retryCleanup := false; timers := ∅; nextTimer := 0;
     hook := Hook.init true false; pending := [] |}.

(** [setTimeout(callback, delay)] and [clearTimeout(t)] *)
Definition setTimeout (delay : Z) (st : state) : nat * state :=
  (nextTimer st,
   set_nextTimer (S (nextTimer st)) (set_timers (<[nextTimer st := delay]> (timers st)) st)).

Definition clearTimeout (t : nat) (st : state) : state :=
  set_timers (delete t (timers st)) st.

(** [joinRoom], lines 56-91, up to [await waitForSocketConnected(5000)].
    [isJoining] and [hasJoinedRoom] are the values the closure was made
    with. *)
Definition joinRoom (isJoining hasJoinedRoom : bool) (st : state) : state :=
  if bool_decide (roomId st = "") then setError (Some "Invalid room ID") st
  else if isJoining || hasJoinedRoom then st
  else
    let st1 := setIsJoining true st in
    let st2 := setStatus "Joining signaling room..." st1 in
    setError None st2.

(** [joinRoom] goes on: the socket is connected, or the wait has timed
    out; [join-room] is emitted, line 73. *)
Definition joinRoom_connected (st : state) : state :=
  emit (Hook.EmitJoinRoom (roomId st)) st.

(** [response?.error], as a condition: the error, if there is one and it
    is not the empty string. *)
Definition responseError (response : Server.Response) : option string :=
  match response with
  | Server.JoinError e => if bool_decide (e = "") then None else Some e
  | _ => None
  end.

(** The acknowledgement callback of [join-room], lines 73-85. *)
Definition joinRoom_callback (response : Server.Response) (st : state) : state :=
  match responseError response with
  | Some e =>
      let st1 := setError (Some e) st in
      let st2 := setStatus "Failed to join signaling room" st1 in
      setIsJoining false st2
  | None =>
      let st1 := setHasJoinedRoom true st in
      let st2 := setStatus "Signaling connected — waiting for media stream..." st1 in
      let st3 := setIsJoining false st2 in
      set_retryCountRef 0 st3
  end.

(** [handleReconnect], lines 94-114, up to the [await] inside [joinRoom]. *)
Definition handleReconnect (st : state) : state :=
  let st1 :=
    match retryTimeoutRef st with
    | Some t => set_retryTimeoutRef None (clearTimeout t st)
    | None => st
    end in
  let st2 := set_hook (Hook.cleanup (hook st1)) st1 in
  let st3 := set_retryCountRef 0 st2 in
  let st4 := setHasJoinedRoom false st3 in
  let st5 := setIsProcessingOffer false st4 in
  let st6 := setNeedsUserInteraction false st5 in
  let st7 := setIsStreamPaused false st6 in
  let st8 := setIsVideoPlaying false st7 in
  let st9 := setError None st8 in
  let st10 := setStatus "Reconnecting signaling + WebRTC..." st9 in
  joinRoom (isJoining st) (hasJoinedRoom st) st10.

(** The auto-retry effect, lines 225-245. *)
Definition autoRetry (st : state) : state :=
  let connectionState := Hook.connectionState (hook st) in
  let shouldRetry :=
    bool_decide (connectionState = RTC.Failed)
    || bool_decide (connectionState = RTC.Disconnected) in
  if negb shouldRetry then set_retryCleanup false st
  else
    let st1 := set_retryCountRef (retryCountRef st + 1) st in
    if bool_decide (retryCountRef st1 > 5)%Z then
      set_retryCleanup false (setStatus "WebRTC failed after multiple retries" st1)
    else
      let delay := (2000 * retryCountRef st1)%Z in
      let st2 :=
        match retryTimeoutRef st1 with
        | Some t => clearTimeout t st1
        | None => st1
        end in
      let '(t, st3) := setTimeout delay st2 in
      set_retryCleanup true (set_retryTimeoutRef (Some t) st3).

(** The cleanup function the effect returns, lines 246-251. *)
Definition autoRetry_cleanup (st : state) : state :=
  match retryTimeoutRef st with
  | Some t => set_retryTimeoutRef None (clearTimeout t st)
  | None => st
  end.

(** The values the effect depends on, line 252; [handleReconnect] changes
    with [isJoining] and [hasJoinedRoom], through [joinRoom]. *)
Definition autoRetry_deps (st : state)
    : RTC.ConnectionState * bool * bool * bool :=
  (Hook.connectionState (hook st), Hook.isConnected (hook st),
   isJoining st, hasJoinedRoom st).

(** After a handler has run, React renders; if a dependency of the effect
    has changed since [before], the cleanup of the last run is called, if it
    returned one, and the effect runs again. *)
Definition render (before st : state) : state :=
  if bool_decide (autoRetry_deps before = autoRetry_deps st) then st
  else autoRetry (if retryCleanup st then autoRetry_cleanup st else st).

(** The callback of the retry timer, line 243; the values of
    [webrtcConnected] and [isJoining] in its closure are the current ones,
    the effect having run again at their every change. *)
Definition retryTimeout (t : nat) (st : state) : state :=
  match timers st !! t with
  | Some _ =>
      let st1 := set_timers (delete t (timers st)) st in
      if negb (Hook.isConnected (hook st1)) && negb (isJoining st1) then
        handleReconnect st1
      else st1
  | None => st
  end.

(** The effect of lines 255-257. *)
Definition joinOnLoad (st : state) : state :=
  if negb (bool_decide (roomId st = "")) && negb (hasJoinedRoom st)
     && negb (isJoining st)
  then joinRoom (isJoining st) (hasJoinedRoom st) st
  else st.

(** [shouldProcessOffer] and [onOffer], lines 137-158; the hook's own
    listener of line 373 calls [createAnswer] as well. *)
Definition shouldProcessOffer (st : state) : bool :=
  if Hook.isConnected (hook st)
     && bool_decide (Hook.connectionState (hook st) = RTC.Connected)
  then false
  else if isProcessingOffer st then false
  else true.

Definition spawn (r : Hook.state * option Hook.Cont) (st : state) : state :=
  set_pending (pending st ++ option_list r.2) (set_hook r.1 st).

Definition onOffer (offer sender : string) (st : state) : state :=
  if shouldProcessOffer st then
    let st1 := setIsProcessingOffer true st in
    let st2 := setStatus "Negotiating WebRTC session..." st1 in
    spawn (Hook.createAnswer offer sender (hook st2)) st2
  else st.

(** What can happen to the page. *)
Inductive Event :=
| ConnectionStateChanged (pc : nat) (c : RTC.ConnectionState)
    (* the browser reports a new state of the connection [pc] *)
| HookChanged (h : Hook.state)
    (* anything else the hook does *)
| RetryTimeout (t : nat)
| Reconnect
    (* the Reconnect button, or the [reconnect] event of the socket *)
| JoinOnLoad
    (* the effect of lines 255-257 runs *)
| JoinConnected
    (* [waitForSocketConnected] has ended *)
| JoinAck (response : Server.Response)
    (* the server answers [join-room] *)
| Offer (offer sender : string)
| OfferHandled
    (* the [finally] of line 157 *)
| StreamerLeft
| StreamPaused
| StreamResumed.

Definition handler (ev : Event) (st : state) : state :=
  match ev with
  | ConnectionStateChanged pc c =>
      set_hook (Hook.connectionstatechange pc c (hook st)) st
  | HookChanged h => set_hook h st
  | RetryTimeout t => retryTimeout t st
  | Reconnect => handleReconnect st
  | JoinOnLoad => joinOnLoad st
  | JoinConnected => joinRoom_connected st
  | JoinAck response => joinRoom_callback response st
  | Offer offer sender =>
      onOffer offer sender (spawn (Hook.createAnswer offer sender (hook st)) st)
  | OfferHandled => setIsProcessingOffer false st
  | StreamerLeft =>
      setError (Some "Stream has ended") (setStatus "Streamer is offline" st)
  | StreamPaused =>
      setStatus "Stream paused — waiting to resume..."
        (setIsVideoPlaying false (setIsStreamPaused true st))
  | StreamResumed =>
      setStatus "Stream resuming — awaiting renegotiation..."
        (setIsProcessingOffer false
           (setNeedsUserInteraction false (setIsStreamPaused false st)))
  end.

Definition step (ev : Event) (st : state) : state :=
  render st (handler ev st).

Definition run (evs : list Event) (st : state) : state :=
  foldl (λ st ev, step ev st) st evs.

(** What holds of the retry logic in every state the page reaches: the
    count is not negative, and a scheduled timer is the one held by
    [retryTimeoutRef], set by a run of the effect that returned its cleanup,
    with a delay of [2000 * n] for an attempt [n] from 1 to 5. *)
Record inv (st : state) : Prop := mkInv {
  inv_count : (0 ≤ retryCountRef st)%Z;
  inv_timers : ∀ t d,
    timers st !! t = Some d →
    retryTimeoutRef st = Some t ∧ retryCleanup st = true
    ∧ ∃ n, (1 ≤ n ≤ 5)%Z ∧ d = (2000 * n)%Z
}.

(** A viewer that has joined and whose connection to the streamer ["s"] is
    connected. *)
Definition watching : state :=
  run [JoinOnLoad; JoinConnected; JoinAck Server.JoinSuccess;
       HookChanged (Hook.ensurePeerConnection "s" (Hook.init true false));
       ConnectionStateChanged 0 RTC.Connecting;
       ConnectionStateChanged 0 RTC.Connected]
    (init "dev-room-001").

End Viewer.

(** ** The hook as its user drives it *)

Module Session.
Import Hook.

(** What can happen to one use of the hook: a call of a function it
    returns, a message on the socket (the listeners of lines 370-390 call
    [createAnswer], [handleAnswer] and [handleIceCandidate]), an event of
    the browser on a connection, and an awaited operation settling, after
    which the [async] function that waited goes on.  Continuations are not
    tied to the calls that made them, so the executions of the program are
    among the ones described here. *)
Inductive Op :=
| CreateOffer (viewerId : string)
| CreateAnswer (offer streamerId : string)
| HandleAnswer (answer viewerId : string)
| HandleIceCandidate (candidate senderId : string)
| Settle (k : Cont) (o : Outcome)
| ConnectionStateChange (pc : nat) (c : RTC.ConnectionState)
| Track (pc : nat) (streams : list nat)
| IceCandidate (pc : nat) (candidate : option string)
| StartLocalStream (supported : bool) (media : UserMedia)
| StopLocalStream
| Cleanup
| CleanupViewerConnection (viewerId : string)
| SetError (e : option string).

Definition apply (op : Op) (st : state) : state :=
  match op with
  | CreateOffer v => (createOffer v st).1
  | CreateAnswer o s => (createAnswer o s st).1
  | HandleAnswer a v => (handleAnswer a v st).1
  | HandleIceCandidate c s => (handleIceCandidate c s st).1
  | Settle k o => (resume k o st).1
  | ConnectionStateChange pc c => connectionstatechange pc c st
  | Track pc streams => track pc streams st
  | IceCandidate pc c => icecandidate pc c st
  | StartLocalStream supported media => (startLocalStream supported media st).1
  | StopLocalStream => stopLocalStream st
  | Cleanup => cleanup st
  | CleanupViewerConnection v => cleanupViewerConnection v st
  | SetError e => setError e st
  end.

Definition run (ops : list Op) (st : state) : state :=
  foldl (λ st op, apply op st) st ops.

(** A call of an [async] function carried on with nothing else running
    meanwhile: each awaited operation settles with the next outcome, in the
    state the function was left in. *)
Fixpoint settle_all (os : list Outcome) (r : state * option Cont)
    : state * option Cont :=
  match os, r with
  | o :: rest, (st, Some k) => settle_all rest (resume k o st)
  | _, _ => r
  end.

(** A connection is held while a ref of the hook points to it, and released
    once [close()] has been called on it. *)
Definition held (h : nat) (st : state) : Prop :=
  peerConnection st = Some h
  ∨ ∃ viewerId, JsMap.get viewerId (peerConnections st) = Some h.

Definition released (h : nat) (st : state) : Prop :=
  (h, RTC.CallClose) ∈ calls st.

(** The part of the state the connections are reached through is as
    before, no connection has appeared and no call has been forgotten. *)
Definition framed (st st' : state) : Prop :=
  peerConnection st' = peerConnection st
  ∧ peerConnections st' = peerConnections st
  ∧ (∀ h, is_Some (pcs st' !! h) → is_Some (pcs st !! h))
  ∧ (∀ c, c ∈ calls st → c ∈ calls st').

Definition leakfree (st : state) : Prop :=
  ∀ h, is_Some (pcs st !! h) → held h st ∨ released h st.

End Session.

(** ** The streamer page: starting the stream *)

Module StreamerStart.
Import Streamer.

(** [initializeStream] from the call to its end, nothing else running while
    it waits: [supported] and [media] are what [startLocalStream] meets,
    [loaded] tells whether the video element loads the stream, [connected]
    whether the socket is connected within 5 seconds, and [response] is the
    room the server answers [create-room] with, if it does within 15
    seconds. *)
Definition initializeStream_run (supported : bool) (media : Hook.UserMedia)
    (loaded connected : bool) (response : option string) (st : state) : state :=
  match initializeStream st with
  | (st1, false) => st1
  | (st1, true) =>
      match initializeStream_acquired supported media st1 with
      | (st2, None) => st2
      | (st2, Some stream) =>
          match initializeStream_attached stream loaded st2 with
          | (st3, false) => st3
          | (st3, true) =>
              match initializeStream_connected connected st3 with
              | (st4, false) => st4
              | (st4, true) => initializeStream_created response st4
              end
          end
      end
  end.

End StreamerStart.

(** ** The viewer page: leaving *)

Module ViewerEnd.
Import Viewer.

(** The page is unmounted: React calls the cleanup functions of the
    effects in the order of the effects; the one of the auto-retry effect
    (lines 246-251), if its last run returned it, and the one of lines
    260-265. *)
Definition unmount (st : state) : state :=
  let st1 := if retryCleanup st then autoRetry_cleanup st else st in
  let st2 :=
    match retryTimeoutRef st1 with
    | Some t => clearTimeout t st1
    | None => st1
    end in
  set_hook (Hook.cleanup (hook st2)) st2.

End ViewerEnd.

(** * Properties *)

(** ** Sets and maps in insertion order *)

Section js_collections.
Context {V : Type}.
Implicit Types (m : list (string * V)) (s : list string) (k x : string).

Lemma JsSet_has_true x s : JsSet.has x s = true ↔ x ∈ s.
Proof. unfold JsSet.has. by rewrite bool_decide_eq_true. Qed.

Lemma JsSet_has_false x s : JsSet.has x s = false ↔ x ∉ s.
Proof. unfold JsSet.has. by rewrite bool_decide_eq_false. Qed.

Lemma JsSet_elem_of_add x y s : y ∈ JsSet.add x s ↔ y = x ∨ y ∈ s.
Proof.
  unfold JsSet.add. destruct (JsSet.has x s) eqn:E.
  - apply JsSet_has_true in E. split; [auto | intros [->|]; done].
  - rewrite elem_of_app, list_elem_of_singleton. tauto.
Qed.

Lemma JsSet_NoDup_add x s : NoDup s → NoDup (JsSet.add x s).
Proof.
  intros Hs. unfold JsSet.add. destruct (JsSet.has x s) eqn:E; [done|].
  apply JsSet_has_false in E. apply NoDup_app. split_and!; [done | | apply NoDup_singleton].
  intros y Hy ->%list_elem_of_singleton. done.
Qed.

Lemma JsSet_elem_of_delete x y s : y ∈ JsSet.delete x s ↔ y ≠ x ∧ y ∈ s.
Proof. unfold JsSet.delete. by rewrite list_elem_of_filter. Qed.

Lemma JsSet_NoDup_delete x s : NoDup s → NoDup (JsSet.delete x s).
Proof. apply NoDup_filter. Qed.

(** A value of a duplicate-free list occurs in it once. *)
Lemma NoDup_occurs_once x s :
  NoDup s → x ∈ s → length (filter (λ y, y = x) s) = 1.
Proof.
  induction 1 as [|y s Hy Hs IH]; [by intros ?%elem_of_nil|].
  intros Hx. rewrite filter_cons. destruct (decide (y = x)) as [->|Hne].
  - simpl. f_equal. clear IH Hx Hs. induction s as [|z s IH]; [done|].
    apply not_elem_of_cons in Hy as [Hz Hy]. rewrite filter_cons.
    rewrite decide_False by done. auto.
  - apply IH. apply elem_of_cons in Hx as [->|]; done.
Qed.

Lemma JsMap_get_Some_elem k v m : JsMap.get k m = Some v → (k, v) ∈ m.
Proof.
  induction m as [|[k' v'] m IH]; simpl; [done|].
  destruct (decide (k' = k)) as [->|].
  - intros [= ->]. left.
  - intros H. right. auto.
Qed.

Lemma JsMap_get_None k m : JsMap.get k m = None ↔ k ∉ JsMap.keys m.
Proof.
  unfold JsMap.keys. induction m as [|[k' v'] m IH]; simpl.
  - split; [intros _; apply not_elem_of_nil | done].
  - rewrite not_elem_of_cons. destruct (decide (k' = k)) as [->|Hne].
    + split; [done | intros [? _]; done].
    + rewrite IH. split; [by intros ? | by intros [_ ?]].
Qed.

Lemma JsMap_elem_get k v m : NoDup (JsMap.keys m) → (k, v) ∈ m → JsMap.get k m = Some v.
Proof.
  unfold JsMap.keys. induction m as [|[k' v'] m IH]; simpl.
  - by intros _ ?%elem_of_nil.
  - intros [Hk Hm]%NoDup_cons [[= -> ->]|Hin]%elem_of_cons.
    + by rewrite decide_True.
    + destruct (decide (k' = k)) as [->|]; [|by apply IH].
      destruct Hk. apply list_elem_of_fmap. by exists (k, v).
Qed.

Lemma JsMap_get_set_eq k v m : JsMap.get k (JsMap.set k v m) = Some v.
Proof.
  induction m as [|[k' v'] m IH]; simpl.
  - by rewrite decide_True.
  - destruct (decide (k' = k)) as [->|Hne]; simpl.
    + by rewrite decide_True.
    + by rewrite decide_False.
Qed.

Lemma JsMap_get_set_ne k k' v m :
  k ≠ k' → JsMap.get k' (JsMap.set k v m) = JsMap.get k' m.
Proof.
  intros Hne. induction m as [|[k0 v0] m IH]; simpl.
  - by rewrite decide_False.
  - destruct (decide (k0 = k)) as [->|Hne0]; simpl.
    + by rewrite !decide_False.
    + by rewrite IH.
Qed.

Lemma JsMap_keys_set k v m :
  JsMap.keys (JsMap.set k v m) =
    if JsMap.has k m then JsMap.keys m else JsMap.keys m ++ [k].
Proof.
  unfold JsMap.keys, JsMap.has. induction m as [|[k0 v0] m IH]; [done|].
  cbn [JsMap.set JsMap.get]. destruct (decide (k0 = k)) as [->|Hne0]; [done|].
  rewrite !fmap_cons, IH. by destruct (JsMap.get k m).
Qed.

Lemma JsMap_NoDup_set k v m :
  NoDup (JsMap.keys m) → NoDup (JsMap.keys (JsMap.set k v m)).
Proof.
  intros Hm. rewrite JsMap_keys_set. unfold JsMap.has.
  destruct (JsMap.get k m) eqn:E; [done|].
  apply JsMap_get_None in E.
  apply NoDup_app. split_and!; [done | | apply NoDup_singleton].
  intros y Hy ->%list_elem_of_singleton. done.
Qed.

Lemma JsMap_keys_delete k m :
  JsMap.keys (JsMap.delete k m) = filter (λ y, y ≠ k) (JsMap.keys m).
Proof.
  unfold JsMap.keys, JsMap.delete. induction m as [|[k0 v0] m IH]; [done|].
  rewrite fmap_cons, !filter_cons. cbn [fst].
  destruct (decide (k0 ≠ k)); rewrite ?fmap_cons; by rewrite IH.
Qed.

Lemma JsMap_NoDup_delete k m :
  NoDup (JsMap.keys m) → NoDup (JsMap.keys (JsMap.delete k m)).
Proof. rewrite JsMap_keys_delete. apply NoDup_filter. Qed.

Lemma JsMap_get_delete_eq k m : JsMap.get k (JsMap.delete k m) = None.
Proof.
  apply JsMap_get_None. rewrite JsMap_keys_delete, list_elem_of_filter. tauto.
Qed.

Lemma JsMap_get_delete_ne k k' m :
  k ≠ k' → JsMap.get k' (JsMap.delete k m) = JsMap.get k' m.
Proof.
  intros Hne. unfold JsMap.delete. induction m as [|[k0 v0] m IH]; [done|].
  rewrite filter_cons. cbn [fst JsMap.get].
  destruct (decide (k0 ≠ k)) as [H0|H0]; cbn [JsMap.get].
  - by rewrite IH.
  - apply dec_stable in H0 as ->. by rewrite decide_False.
Qed.

End js_collections.

(** ** The signaling server *)

Section server.
Import Server.
Implicit Types (st : state) (tr : list Action) (sid r v : string) (room : Room).

Lemma count_app p tr1 tr2 : count p (tr1 ++ tr2) = count p tr1 + count p tr2.
Proof. unfold count. by rewrite filter_app, length_app. Qed.

Lemma count_cons p a tr :
  count p (a :: tr) = (if p a then 1 else 0) + count p tr.
Proof.
  unfold count. rewrite filter_cons.
  destruct (p a); [by rewrite decide_True | by rewrite decide_False].
Qed.

Lemma count_none p tr : (∀ a, a ∈ tr → p a = false) → count p tr = 0.
Proof.
  induction tr as [|a tr IH]; [done|]. intros H. rewrite count_cons.
  rewrite (H a) by left. apply IH. intros b Hb. apply H. by right.
Qed.

Lemma members_set_rooms ch rs st : members ch (set_rooms rs st) = members ch st.
Proof. done. Qed.

Lemma members_leave_all ch sid st :
  members ch (socket_leave_all sid st) = members ch st ∖ {[sid]}.
Proof.
  unfold members, socket_leave_all. simpl. rewrite lookup_fmap.
  destruct (channels st !! ch); simpl; [done | by rewrite empty_difference_L].
Qed.

Lemma members_join ch sid ch' st :
  members ch' (socket_join sid ch st) =
    if decide (ch = ch') then {[sid]} ∪ members ch st else members ch' st.
Proof.
  unfold members at 1, socket_join. simpl. rewrite lookup_insert.
  by destruct (decide (ch = ch')).
Qed.

Lemma members_join_mono ch sid ch' st v :
  v ∈ members ch' st → v ∈ members ch' (socket_join sid ch st).
Proof.
  intros Hv. rewrite members_join. destruct (decide (ch = ch')) as [->|]; set_solver.
Qed.

Lemma JsMap_delete_middle {V} (done rest : list (string * V)) k x :
  k ∉ JsMap.keys (done ++ rest) →
  JsMap.delete k (done ++ (k, x) :: rest) = done ++ rest.
Proof.
  unfold JsMap.keys, JsMap.delete. rewrite fmap_app, not_elem_of_app.
  intros [Hd Hr]. rewrite filter_app, filter_cons, decide_False by (simpl; tauto).
  assert (∀ l : list (string * V), k ∉ l.*1 → filter (λ e, e.1 ≠ k) l = l) as Hid.
  { induction l as [|[k0 v0] l IH]; [done|]. rewrite fmap_cons, not_elem_of_cons.
    intros [Hne Hl]. simpl in Hne. rewrite filter_cons, decide_True by (simpl; congruence).
    by rewrite IH. }
  by rewrite !Hid.
Qed.

Lemma JsMap_set_middle {V} (done rest : list (string * V)) k x y :
  k ∉ JsMap.keys done →
  JsMap.set k y (done ++ (k, x) :: rest) = done ++ (k, y) :: rest.
Proof.
  unfold JsMap.keys. induction done as [|[k0 v0] done IH].
  - intros _. simpl. by rewrite decide_True.
  - rewrite fmap_cons, not_elem_of_cons. intros [Hne Hd]. simpl in *.
    rewrite decide_False by congruence. by rewrite IH.
Qed.

(** The loop, entry by entry: the table keeps what [survives], the trace is
    what [farewell] says, and the Socket.IO rooms are not touched. *)
Lemma disconnect_loop_spec sid entries : ∀ done st,
  rooms st = done ++ entries →
  NoDup (JsMap.keys (done ++ entries)) →
  rooms (disconnect_loop sid entries st).1 = done ++ omap (survives sid) entries
  ∧ channels (disconnect_loop sid entries st).1 = channels st
  ∧ (disconnect_loop sid entries st).2 = flat_map (farewell sid st) entries.
Proof.
  induction entries as [|[r room] rest IH]; intros done st Hrooms Hnd.
  - simpl. by rewrite Hrooms.
  - assert (Hsplit : (r ∉ JsMap.keys done) ∧ (r ∉ JsMap.keys rest)
                     ∧ NoDup (JsMap.keys (done ++ rest))).
    { revert Hnd. unfold JsMap.keys. rewrite !fmap_app, fmap_cons. simpl.
      intros Hnd. apply NoDup_app in Hnd as (Hd & Hdis & [Hr Hrest]%NoDup_cons).
      split_and!; [intros Hin; by eapply Hdis; [|left] | done |].
      apply NoDup_app. split_and!; [done | | done].
      intros z Hz Hz'. eapply Hdis; [done | by right]. }
    destruct Hsplit as (Hd & Hr & Hnd').
    cbn [disconnect_loop omap list_omap flat_map].
    unfold survives at 1, farewell at 1. cbn [fst snd].
    destruct (decide (streamer room = sid)) as [Hs|Hs].
    + set (st1 := set_rooms (JsMap.delete r (rooms st)) st).
      destruct (IH done st1) as (H1 & H2 & H3); [|done|].
      { unfold st1. simpl. rewrite Hrooms. apply JsMap_delete_middle.
        unfold JsMap.keys in *. rewrite fmap_app, not_elem_of_app. done. }
      destruct (disconnect_loop sid rest st1) as [st2 tr] eqn:E. simpl in *.
      split_and!; [done | done |]. by rewrite H3.
    + destruct (JsSet.has sid (viewers room)) eqn:Hhas.
      * set (room' := {| streamer := streamer room;
                         viewers := JsSet.delete sid (viewers room) |}).
        set (st1 := set_rooms (JsMap.set r room' (rooms st)) st).
        destruct (IH (done ++ [(r, room')]) st1) as (H1 & H2 & H3).
        { unfold st1. simpl. rewrite Hrooms, <- app_assoc. simpl.
          by apply JsMap_set_middle. }
        { revert Hnd. unfold JsMap.keys. by rewrite <- app_assoc, !fmap_app. }
        destruct (disconnect_loop sid rest st1) as [st2 tr] eqn:E. simpl in *.
        rewrite <- app_assoc in H1. split_and!; [done | done |]. by rewrite H3.
      * destruct (IH (done ++ [(r, room)]) st) as (H1 & H2 & H3).
        { by rewrite Hrooms, <- app_assoc. }
        { by rewrite <- app_assoc. }
        rewrite <- app_assoc in H1. done.
Qed.

Lemma join_room_duplicate st roomId sid room :
  JsMap.get roomId (rooms st) = Some room →
  sid ∈ viewers room →
  join_room roomId sid st = (st, [Ack JoinSuccess]).
Proof.
  intros Hget Hin. unfold join_room. rewrite Hget.
  by rewrite (proj2 (JsSet_has_true sid (viewers room)) Hin).
Qed.

Lemma join_room_first st roomId sid room :
  JsMap.get roomId (rooms st) = Some room →
  ∃ room',
    JsMap.get roomId (rooms (join_room roomId sid st).1) = Some room'
    ∧ streamer room' = streamer room
    ∧ viewers room' = JsSet.add sid (viewers room)
    ∧ acks (join_room roomId sid st).2 = [JoinSuccess].
Proof.
  intros Hget. unfold join_room. rewrite Hget.
  destruct (JsSet.has sid (viewers room)) eqn:Hhas; simpl.
  - exists room. split_and!; try done. unfold JsSet.add. by rewrite Hhas.
  - eexists. rewrite JsMap_get_set_eq. by split_and!.
Qed.

(** C4: joining a room that is not in the table answers
    [{error: "Room does not exist"}] and changes nothing; joining an existing
    room twice with the same identity answers [{success: true}] both times and
    leaves that identity exactly once in the room's viewers. *)
Theorem join_room_missing_and_idempotent st roomId sid :
  (JsMap.get roomId (rooms st) = None →
     join_room roomId sid st = (st, [Ack (JoinError "Room does not exist")]))
  ∧ (∀ room,
       JsMap.get roomId (rooms st) = Some room →
       NoDup (viewers room) →
       let once := join_room roomId sid st in
       let twice := join_room roomId sid once.1 in
       acks once.2 = [JoinSuccess]
       ∧ twice = (once.1, [Ack JoinSuccess])
       ∧ ∃ room',
           JsMap.get roomId (rooms twice.1) = Some room'
           ∧ streamer room' = streamer room
           ∧ length (filter (λ y, y = sid) (viewers room')) = 1).
Proof.
  split.
  - intros Hnone. unfold join_room. by rewrite Hnone.
  - intros room Hget Hnd once twice.
    destruct (join_room_first st roomId sid room Hget) as (room' & Hget' & Hs & Hv & Hack).
    fold once in Hget', Hack.
    assert (Hin : sid ∈ viewers room').
    { rewrite Hv. apply JsSet_elem_of_add. by left. }
    assert (Htwice : twice = (once.1, [Ack JoinSuccess])).
    { unfold twice. by eapply join_room_duplicate. }
    split_and!; [done | done |]. exists room'. rewrite Htwice. simpl.
    split_and!; [done | done |].
    apply NoDup_occurs_once; [|done]. rewrite Hv. by apply JsSet_NoDup_add.
Qed.

Lemma join_room_missing_and_idempotent_witness :
  join_room "no-such-room" "v1" one_room
    = (one_room, [Ack (JoinError "Room does not exist")])
  ∧ ∃ room',
      JsMap.get "dev-room-001"
        (rooms (join_room "dev-room-001" "v1"
                  (join_room "dev-room-001" "v1" one_room).1).1)
        = Some room'
      ∧ length (filter (λ y, y = "v1") (viewers room')) = 1.
Proof.
  split.
  - apply (proj1 (join_room_missing_and_idempotent one_room "no-such-room" "v1")).
    reflexivity.
  - destruct (proj2 (join_room_missing_and_idempotent one_room "dev-room-001" "v1")
                {| streamer := "s"; viewers := ["v0"] |})
      as (_ & _ & room' & Hget & _ & Hone).
    + reflexivity.
    + apply NoDup_singleton.
    + exists room'. split; [exact Hget | exact Hone].
Defined.

(** *** The table invariant *)

Lemma wf_init : wf init.
Proof. split; [apply NoDup_nil_2 | done | done]. Qed.

Lemma wf_connection sid st : wf st → wf (connection sid st).
Proof.
  intros [Hk Hv Hc]. split; [done | done |].
  intros r room v Hget Hin. apply members_join_mono. by eapply Hc.
Qed.

Lemma wf_create_room dev rnd sid st : wf st → wf (create_room dev rnd sid st).1.
Proof.
  intros [Hk Hv Hc]. unfold create_room. simpl.
  set (roomId := if dev then DEV_ROOM_ID else rnd).
  split; simpl.
  - by apply JsMap_NoDup_set.
  - intros r room. destruct (decide (roomId = r)) as [<-|Hne].
    + rewrite JsMap_get_set_eq. intros [= <-]. apply NoDup_nil_2.
    + rewrite JsMap_get_set_ne by done. apply Hv.
  - intros r room v. destruct (decide (roomId = r)) as [<-|Hne].
    + rewrite JsMap_get_set_eq. by intros [= <-] ?%elem_of_nil.
    + rewrite JsMap_get_set_ne by done. intros Hget Hin.
      apply members_join_mono. rewrite members_set_rooms. by eapply Hc.
Qed.

Lemma wf_join_room roomId sid st : wf st → wf (join_room roomId sid st).1.
Proof.
  intros [Hk Hv Hc]. unfold join_room.
  destruct (JsMap.get roomId (rooms st)) as [room|] eqn:Hget; [|done].
  destruct (JsSet.has sid (viewers room)) eqn:Hhas; [done|].
  split; simpl.
  - by apply JsMap_NoDup_set.
  - intros r room'. destruct (decide (roomId = r)) as [<-|Hne].
    + rewrite JsMap_get_set_eq. intros [= <-]. simpl.
      apply JsSet_NoDup_add. by eapply Hv.
    + rewrite JsMap_get_set_ne by done. apply Hv.
  - intros r room' v. destruct (decide (roomId = r)) as [<-|Hne].
    + rewrite JsMap_get_set_eq. intros [= <-]. simpl.
      intros [->|Hin]%JsSet_elem_of_add; rewrite members_join, decide_True by done.
      * set_solver.
      * apply elem_of_union_r. rewrite members_set_rooms. by eapply Hc.
    + rewrite JsMap_get_set_ne by done. intros Hget' Hin.
      apply members_join_mono. rewrite members_set_rooms. by eapply Hc.
Qed.

Lemma survives_get sid (l : list (string * Room)) r room' :
  NoDup (JsMap.keys l) →
  JsMap.get r (omap (survives sid) l) = Some room' →
  ∃ room, JsMap.get r l = Some room ∧ survives sid (r, room) = Some (r, room').
Proof.
  unfold JsMap.keys. induction l as [|[k x] l IH]; [done|].
  rewrite fmap_cons. intros [Hk Hl]%NoDup_cons. cbn [omap list_omap JsMap.get fst].
  assert (Hfst : ∀ y, survives sid (k, x) = Some y → y.1 = k).
  { intros y. unfold survives. simpl. repeat case_match; by intros [= <-]. }
  destruct (survives sid (k, x)) as [[k' x']|] eqn:Hsv.
  - specialize (Hfst _ eq_refl). simpl in Hfst. subst k'. cbn [JsMap.get].
    destruct (decide (k = r)) as [->|Hne].
    + intros [= ->]. by exists x.
    + by apply IH.
  - destruct (decide (k = r)) as [->|Hne]; [|by apply IH].
    intros Hget. destruct (IH Hl Hget) as (room & Hroom & _).
    apply JsMap_get_Some_elem in Hroom. destruct Hk.
    apply list_elem_of_fmap. by exists (r, room).
Qed.

Lemma wf_disconnect sid st : wf st → wf (disconnect sid st).1.
Proof.
  intros [Hk Hv Hc]. unfold disconnect.
  destruct (disconnect_loop_spec sid (rooms (socket_leave_all sid st)) []
              (socket_leave_all sid st)) as (Hr & Hch & _); [done | done |].
  simpl in Hr. set (st' := (disconnect_loop _ _ _).1) in *.
  assert (Hsv : ∀ r room', JsMap.get r (rooms st') = Some room' →
            ∃ room, JsMap.get r (rooms st) = Some room
                    ∧ survives sid (r, room) = Some (r, room')).
  { intros r room'. rewrite Hr. by apply survives_get. }
  assert (Hmem : ∀ ch, members ch st' = members ch st ∖ {[sid]}).
  { intros ch. rewrite <- members_leave_all. unfold members. by rewrite Hch. }
  split.
  - rewrite Hr. unfold JsMap.keys in *. clear -Hk.
    induction (rooms st) as [|[k x] l IH]; [done|].
    rewrite fmap_cons in Hk. apply NoDup_cons in Hk as [Hk Hl].
    cbn [omap list_omap]. unfold survives at 1. cbn [fst snd].
    assert (Hsub : ∀ y, y ∈ (omap (survives sid) l).*1 → y ∈ l.*1).
    { intros y ([k' x'] & -> & Hin)%list_elem_of_fmap.
      apply list_elem_of_omap in Hin as ([k0 x0] & Hin & Hs).
      apply list_elem_of_fmap. exists (k0, x0). split; [|done].
      revert Hs. unfold survives. simpl. repeat case_match; by intros [= <- _]. }
    simpl in Hk. destruct (decide (streamer x = sid)); [by apply IH|].
    destruct (JsSet.has sid (viewers x)); rewrite fmap_cons; simpl;
      (apply NoDup_cons; split; [by intros ?%Hsub | by apply IH]).
  - intros r room' (room & Hget & Hs)%Hsv. revert Hs. unfold survives. simpl.
    repeat case_match; intros [= <-]; simpl; [apply JsSet_NoDup_delete|]; by eapply Hv.
  - intros r room' v (room & Hget & Hs)%Hsv. rewrite Hmem. revert Hs.
    unfold survives. simpl. destruct (decide _); [done|].
    destruct (JsSet.has sid (viewers room)) eqn:Hhas; intros [= <-]; simpl.
    + intros [Hne Hin]%JsSet_elem_of_delete.
      apply elem_of_difference. split; [by eapply Hc | set_solver].
    + intros Hin. apply JsSet_has_false in Hhas.
      apply elem_of_difference. split; [by eapply Hc|].
      intros ->%elem_of_singleton. done.
Qed.

Lemma wf_handle sid rq st : wf st → wf (handle sid rq st).1.
Proof.
  intros Hwf. destruct rq; cbn [handle];
    first [ exact Hwf | by apply wf_connection | by apply wf_create_room
          | by apply wf_join_room | by apply wf_disconnect ].
Qed.

(** Every state the server can reach from its start satisfies the invariant. *)
Lemma wf_run reqs : ∀ st, wf st → wf (run reqs st).1.
Proof.
  induction reqs as [|[sid rq] reqs IH]; intros st Hwf; [done|]. simpl.
  pose proof (wf_handle sid rq st Hwf) as H1.
  destruct (handle sid rq st) as [st1 tr1]. simpl in H1.
  pose proof (IH st1 H1) as H2. by destruct (run reqs st1).
Qed.

(** *** A streamer leaves *)

Lemma farewell_elsewhere sid st0 r v (l : list (string * Room)) a :
  r ∉ JsMap.keys l →
  a ∈ flat_map (farewell sid st0) l →
  is_removed r a = false ∧ delivers_via r v StreamerLeft a = false.
Proof.
  unfold JsMap.keys. intros Hr Ha.
  apply list_elem_of_In, in_flat_map in Ha as ([k x] & Hin%list_elem_of_In & Ha%list_elem_of_In).
  assert (k ≠ r) as Hne.
  { intros ->. apply Hr, list_elem_of_fmap. by exists (r, x). }
  revert Ha. unfold farewell. cbn [fst snd].
  destruct (decide (streamer x = sid)); [|destruct (JsSet.has sid (viewers x))];
    intros Ha; repeat (apply elem_of_cons in Ha as [->|Ha]);
    try (by apply elem_of_nil in Ha); simpl;
    rewrite ?bool_decide_eq_false_2 by done; rewrite ?andb_false_r; done.
Qed.

Lemma farewell_not_streamer sid st0 v (l : list (string * Room)) a :
  (∀ k x, (k, x) ∈ l → streamer x ≠ sid) →
  a ∈ flat_map (farewell sid st0) l →
  delivers v StreamerLeft a = false.
Proof.
  intros Hl Ha.
  apply list_elem_of_In, in_flat_map in Ha as ([k x] & Hin%list_elem_of_In & Ha%list_elem_of_In).
  revert Ha. unfold farewell. cbn [fst snd].
  rewrite decide_False by by eapply Hl.
  destruct (JsSet.has sid (viewers x)); intros Ha;
    repeat (apply elem_of_cons in Ha as [->|Ha]);
    try (by apply elem_of_nil in Ha); done.
Qed.

(** What a socket is sent when another leaves: one [streamer-left] for each
    room of the leaving streamer whose Socket.IO room it is in. *)
Lemma farewell_received sid st v (l : list (string * Room)) :
  v ≠ sid →
  count (delivers v StreamerLeft)
    (flat_map (farewell sid (socket_leave_all sid st)) l)
  = length (filter (λ e, streamer e.2 = sid ∧ v ∈ members e.1 st) l).
Proof.
  intros Hne. induction l as [|[k x] l IH]; [done|].
  cbn [flat_map]. rewrite count_app, IH, filter_cons. clear IH.
  unfold farewell. cbn [fst snd].
  destruct (decide (streamer x = sid)) as [Hs|Hs].
  - rewrite !count_cons. cbn [delivers event_eqb andb].
    unfold count at 1. cbn [filter list_filter length].
    unfold emit_to. rewrite members_leave_all.
    assert (Hiff : v ∈ members k st ∖ {[sid]} ∖ {[sid]} ↔ v ∈ members k st)
      by (rewrite !elem_of_difference, elem_of_singleton; tauto).
    destruct (decide (v ∈ members k st)) as [Hin|Hout];
      cbn [delivers event_eqb andb].
    + rewrite bool_decide_eq_true_2 by by apply Hiff.
      rewrite decide_True by done. done.
    + rewrite bool_decide_eq_false_2 by by rewrite Hiff.
      rewrite decide_False by tauto. done.
  - rewrite decide_False by tauto.
    destruct (JsSet.has sid (viewers x)); [|done].
    rewrite count_cons. done.
Qed.

(** C7 as stated fails: the socket ["s"] is the streamer of the rooms ["i"]
    and ["9"], the viewer ["v0"] has joined both; when ["s"] disconnects,
    ["v0"] is sent [streamer-left] twice, once for each room. *)
Lemma streamer_of_two_rooms_notifies_twice :
  rooms two_rooms
  = [("i", {| streamer := "s"; viewers := ["v0"] |});
     ("9", {| streamer := "s"; viewers := ["v0"] |})]
  ∧ (disconnect "s" two_rooms).2
    = [Emit "i" StreamerLeft {[ "v0" ]}; Removed "i";
       Emit "9" StreamerLeft {[ "v0" ]}; Removed "9"]
  ∧ received "v0" StreamerLeft (disconnect "s" two_rooms).2 = 2.
Proof. vm_compute. done. Qed.

(** C7, amended.  When the streamer of a room disconnects, the room leaves
    the table, by a single [rooms.delete]; the [streamer-left] broadcast to
    that room comes immediately before it in the handler's trace; and every
    viewer of the room other than the leaving socket is sent that broadcast
    exactly once.  Over the whole of the handler a socket is sent one
    [streamer-left] for each room of the leaving streamer whose Socket.IO
    room it is in: exactly one, for a viewer of the room, if the leaving
    socket streams in no other room. *)
Theorem streamer_disconnect_closes_room st sid r room :
  wf st →
  JsMap.get r (rooms st) = Some room →
  streamer room = sid →
  let st' := (disconnect sid st).1 in
  let tr := (disconnect sid st).2 in
  JsMap.get r (rooms st') = None
  ∧ removals r tr = 1
  ∧ (∃ pre rcpts post,
       tr = pre ++ Emit r StreamerLeft rcpts :: Removed r :: post
       ∧ removals r pre = 0
       ∧ ∀ v, v ∈ viewers room → v ≠ sid → v ∈ rcpts)
  ∧ (∀ v, v ∈ viewers room → v ≠ sid → received_via r v StreamerLeft tr = 1)
  ∧ ((∀ r' room', JsMap.get r' (rooms st) = Some room' →
                  streamer room' = sid → r' = r) →
     ∀ v, v ∈ viewers room → v ≠ sid → received v StreamerLeft tr = 1)
  ∧ (∀ v, v ≠ sid →
       received v StreamerLeft tr = length (streamed_with sid v st)).
Proof.
  intros [Hk Hv Hc] Hget Hs st' tr.
  set (st0 := socket_leave_all sid st).
  destruct (disconnect_loop_spec sid (rooms st0) [] st0) as (Hr & _ & Htr);
    [done | done |].
  change (rooms st' = omap (survives sid) (rooms st)) in Hr.
  change (tr = flat_map (farewell sid st0) (rooms st)) in Htr.
  pose proof (JsMap_get_Some_elem _ _ _ Hget) as Hin.
  apply list_elem_of_split in Hin as (l1 & l2 & Hsplit).
  assert (Hfresh : (r ∉ JsMap.keys l1) ∧ (r ∉ JsMap.keys l2)).
  { revert Hk. rewrite Hsplit. unfold JsMap.keys. rewrite fmap_app, fmap_cons.
    intros (_ & Hdis & [Hr2 _]%NoDup_cons)%NoDup_app. split; [|done].
    intros H1. eapply Hdis; [done | left]. }
  destruct Hfresh as [Hr1 Hr2].
  set (rcpts := members r st0 ∖ {[sid]}).
  assert (Htr' : tr = flat_map (farewell sid st0) l1
                      ++ Emit r StreamerLeft rcpts :: Removed r
                      :: flat_map (farewell sid st0) l2).
  { rewrite Htr, Hsplit, flat_map_app. f_equal. cbn [flat_map].
    unfold farewell at 1. cbn [fst snd]. by rewrite decide_True. }
  assert (Hrc : ∀ v, v ∈ viewers room → v ≠ sid → v ∈ rcpts).
  { intros v Hvin Hne. unfold rcpts, st0. rewrite members_leave_all.
    pose proof (Hc r room v Hget Hvin). set_solver. }
  assert (Hpre : ∀ p, (∀ a, a ∈ flat_map (farewell sid st0) l1 → p a = false) →
                 (∀ a, a ∈ flat_map (farewell sid st0) l2 → p a = false) →
                 count p tr
                 = (if p (Emit r StreamerLeft rcpts) then 1 else 0)
                   + (if p (Removed r) then 1 else 0)).
  { intros p H1 H2. rewrite Htr', count_app, !count_cons.
    rewrite (count_none p _ H1), (count_none p _ H2). lia. }
  split_and!.
  - destruct (JsMap.get r (rooms st')) as [room'|] eqn:E; [|done].
    rewrite Hr in E. apply survives_get in E as (room0 & Hget0 & Hsv); [|done].
    rewrite Hget in Hget0. injection Hget0 as <-.
    revert Hsv. unfold survives. simpl. by rewrite decide_True.
  - unfold removals. rewrite Hpre.
    + simpl. by rewrite bool_decide_eq_true_2.
    + intros a Ha. by eapply (farewell_elsewhere sid st0 r sid l1).
    + intros a Ha. by eapply (farewell_elsewhere sid st0 r sid l2).
  - exists (flat_map (farewell sid st0) l1), rcpts, (flat_map (farewell sid st0) l2).
    split_and!; [done | | done].
    apply count_none. intros a Ha. by eapply (farewell_elsewhere sid st0 r sid l1).
  - intros v Hvin Hne. unfold received_via. rewrite Hpre.
    + simpl. rewrite !bool_decide_eq_true_2 by auto. done.
    + intros a Ha. by eapply (farewell_elsewhere sid st0 r v l1).
    + intros a Ha. by eapply (farewell_elsewhere sid st0 r v l2).
  - intros Huniq v Hvin Hne. unfold received.
    assert (Hother : ∀ l, (∀ e, e ∈ l → e ∈ rooms st) → r ∉ JsMap.keys l →
              ∀ k x, (k, x) ∈ l → streamer x ≠ sid).
    { intros l Hsub Hrl k x Hkx Hsx.
      assert (k = r) as ->.
      { eapply Huniq; [|done]. apply JsMap_elem_get; [done | by apply Hsub]. }
      apply Hrl. unfold JsMap.keys. apply list_elem_of_fmap. by exists (r, x). }
    rewrite Hpre.
    + simpl. rewrite bool_decide_eq_true_2 by auto. done.
    + intros a Ha. eapply farewell_not_streamer; [|done].
      apply Hother; [|done]. intros e He. rewrite Hsplit. apply elem_of_app. by left.
    + intros a Ha. eapply farewell_not_streamer; [|done].
      apply Hother; [|done]. intros e He. rewrite Hsplit.
      apply elem_of_app. right. by right.
  - intros v Hne. unfold received, streamed_with. rewrite Htr, length_fmap.
    by apply farewell_received.
Qed.

Lemma streamer_disconnect_closes_room_witness :
  JsMap.get "dev-room-001" (rooms (disconnect "s" one_room).1) = None
  ∧ removals "dev-room-001" (disconnect "s" one_room).2 = 1
  ∧ received_via "dev-room-001" "v0" StreamerLeft (disconnect "s" one_room).2 = 1
  ∧ received "v0" StreamerLeft (disconnect "s" one_room).2 = 1.
Proof.
  destruct (streamer_disconnect_closes_room one_room "s" "dev-room-001"
              {| streamer := "s"; viewers := ["v0"] |})
    as (Hgone & Hone & _ & Hvia & Hall & _).
  - apply (wf_run _ init wf_init).
  - reflexivity.
  - reflexivity.
  - split_and!; [exact Hgone | exact Hone | apply Hvia | apply Hall].
    + apply list_elem_of_singleton. reflexivity.
    + discriminate.
    + intros r' room' Hget _.
      change (rooms one_room)
        with [("dev-room-001", {| streamer := "s"; viewers := ["v0"] |})] in Hget.
      cbn [JsMap.get] in Hget.
      destruct (decide ("dev-room-001" = r')) as [<-|]; [reflexivity | discriminate].
    + apply list_elem_of_singleton. reflexivity.
    + discriminate.
Defined.

Example disconnect_one_room :
  disconnect "s" one_room
  = ({| rooms := [];
        channels := {[ "s" := ∅; "v0" := {[ "v0" ]};
                       "dev-room-001" := {[ "v0" ]} ]} |},
     [Emit "dev-room-001" StreamerLeft {[ "v0" ]}; Removed "dev-room-001"]).
Proof. vm_compute. reflexivity. Qed.

End server.

(** ** The hook *)

Section hook.
Import Hook.
Implicit Types (st : state) (k : Cont) (o : Outcome).

Example two_sessions_states :
  sessionStates two_sessions = [RTC.Disconnected; RTC.Connected]
  ∧ connectionState two_sessions = RTC.Connected
  ∧ JsMap.keys (peerConnections two_sessions) = ["v1"; "v2"].
Proof. vm_compute. done. Qed.

(** *** The aggregate connection state *)

Lemma hasConnectedViewer_spec (l : list RTC.t) :
  existsb (λ conn, bool_decide (RTC.connectionState conn = RTC.Connected)) l
  = bool_decide (RTC.Connected ∈ RTC.connectionState <$> l).
Proof.
  induction l as [|conn l IH]; [done|]. rewrite fmap_cons. cbn [existsb].
  rewrite IH. destruct (decide (RTC.connectionState conn = RTC.Connected)) as [E|E].
  - rewrite (bool_decide_eq_true_2 _ E). rewrite E.
    symmetry. apply bool_decide_eq_true_2. left.
  - rewrite (bool_decide_eq_false_2 _ E). cbn [orb].
    apply bool_decide_ext. rewrite elem_of_cons.
    split; [by right | by intros [?|?]].
Qed.

Lemma nonempty_spec {A B} (f : A → B) (l : list A) :
  bool_decide (0 < length l) = bool_decide (f <$> l ≠ []).
Proof. by destruct l. Qed.

(** The handler installed by [createPeerConnectionForViewer] computes the
    aggregate of the specification over the sessions of the table. *)
Lemma onconnectionstatechange_viewer_aggregate pc st :
  isStreamer st = true →
  let st' := onconnectionstatechange_viewer pc st in
  connectionState st' = aggregate (sessionStates st)
  ∧ isConnected st' = bool_decide (aggregate (sessionStates st) = RTC.Connected)
  ∧ peerConnections st' = peerConnections st
  ∧ pcs st' = pcs st.
Proof.
  intros Hs. unfold onconnectionstatechange_viewer, aggregate, sessionStates.
  rewrite Hs, hasConnectedViewer_spec.
  rewrite (nonempty_spec RTC.connectionState).
  destruct (bool_decide (RTC.Connected ∈ _)); [done|].
  destruct (bool_decide (_ ≠ [])); [|done].
  destruct (bool_decide (RTC.Connecting ∈ _)); done.
Qed.

(** The same, for a state change reported by the browser on a session that
    is in the table. *)
Lemma connectionstatechange_aggregate pc c conn viewerId st :
  isStreamer st = true →
  pcs st !! pc = Some conn →
  RTC.onconnectionstatechange conn = Some (RTC.OfViewerConnection viewerId) →
  let st' := connectionstatechange pc c st in
  connectionState st' = aggregate (sessionStates st')
  ∧ isConnected st' = bool_decide (aggregate (sessionStates st') = RTC.Connected).
Proof.
  intros Hs Hpc Hh. unfold connectionstatechange.
  set (st1 := pc_update (RTC.set_connectionState c) pc st).
  assert (pcs st1 !! pc = Some (RTC.set_connectionState c conn)) as ->.
  { unfold st1, pc_update. simpl. by rewrite lookup_alter_eq, Hpc. }
  simpl. rewrite Hh.
  destruct (onconnectionstatechange_viewer_aggregate pc st1 Hs) as (H1 & H2 & H3 & H4).
  assert (sessionStates (onconnectionstatechange_viewer pc st1) = sessionStates st1) as ->.
  { unfold sessionStates, allConnections. by rewrite H3, H4. }
  done.
Qed.

(** What [cleanupViewerConnection] reports instead: [connecting] for every
    table that is not empty and has no connected session. *)
Lemma cleanupViewerConnection_state viewerId pc st :
  isStreamer st = true →
  JsMap.get viewerId (peerConnections st) = Some pc →
  let st' := cleanupViewerConnection viewerId st in
  connectionState st'
  = if bool_decide (RTC.Connected ∈ sessionStates st') then RTC.Connected
    else if bool_decide (sessionStates st' ≠ []) then RTC.Connecting
    else RTC.New.
Proof.
  intros Hs Hget st'. unfold st', cleanupViewerConnection. rewrite Hget.
  set (st2 := set_peerConnections _ _).
  change (isStreamer st2) with (isStreamer st). rewrite Hs.
  rewrite hasConnectedViewer_spec, (nonempty_spec RTC.connectionState).
  fold (sessionStates st2).
  assert (Hst : ∀ a b, sessionStates (setIsConnected a (setConnectionState b st2))
                       = sessionStates st2) by done.
  destruct (bool_decide (RTC.Connected ∈ sessionStates st2)) eqn:E1;
    [by rewrite Hst, E1|].
  destruct (bool_decide (sessionStates st2 ≠ [])) eqn:E2; by rewrite Hst, E1, E2.
Qed.

(** C1 (the code departs from it): with sessions
    [{v1: disconnected, v2: connected}], [cleanupViewerConnection("v2")]
    leaves the single session [v1: disconnected] and reports [connecting],
    where the aggregate of the specification, and the handler of lines 40-70
    on the same table, give [disconnected]. *)
Theorem cleanupViewerConnection_reports_connecting :
  let st' := cleanupViewerConnection "v2" two_sessions in
  sessionStates two_sessions = [RTC.Disconnected; RTC.Connected]
  ∧ sessionStates st' = [RTC.Disconnected]
  ∧ connectionState st' = RTC.Connecting
  ∧ aggregate (sessionStates st') = RTC.Disconnected
  ∧ connectionState (onconnectionstatechange_viewer 0 st') = RTC.Disconnected.
Proof. vm_compute. done. Qed.

(** *** The guard of [createAnswer] *)

Lemma createAnswer_catch_finally_exit streamerId r st' :
  createAnswer_catch_finally streamerId r = (st', None) →
  streamerId ∉ processingOffers st'.
Proof.
  destruct r as [st [|m|k]]; simpl; intros [= <-]; simpl;
    rewrite elem_of_difference, elem_of_singleton; tauto.
Qed.

Lemma createAnswer_catch_finally_await streamerId r st' k :
  createAnswer_catch_finally streamerId r = (st', Some k) →
  r = (st', Await k).
Proof. destruct r as [st [|m|k0]]; simpl; by intros [= <- <-]. Qed.

(** Resuming [createAnswer] either leaves the function, the guard entry
    removed, or leaves it waiting at a later point of the same call. *)
Lemma resume_answering k o env st' (next : option Cont) s :
  answering k = Some s →
  resume k o env = (st', next) →
  match next with
  | None => s ∉ processingOffers st'
  | Some k2 => answering k2 = Some s ∧ awaits_left k2 < awaits_left k
  end.
Proof.
  destruct k; try done; intros [= ->]; simpl; intros Hr; destruct next as [k2|];
    try (by eapply createAnswer_catch_finally_exit);
    apply createAnswer_catch_finally_await in Hr;
    destruct o; try done; repeat case_match; simplify_eq; simpl; auto with lia.
Qed.

(** Every resumption of every [async] function of the hook brings it closer
    to its end, so a call whose awaited operations settle does end. *)
Lemma resume_awaits_left k o env st' k' :
  resume k o env = (st', Some k') → awaits_left k' < awaits_left k.
Proof.
  destruct k, o; simpl; repeat case_match; simpl; intros; simplify_eq; simpl; lia.
Qed.

Lemma finishes_answering (at_ : option Cont) st final s :
  finishes at_ st final →
  match at_ with
  | None => s ∉ processingOffers st
  | Some k0 => answering k0 = Some s
  end →
  s ∉ processingOffers final.
Proof.
  induction 1 as [st|k o st env st' k' final Hres _ IH]; [done|].
  intros Hk. apply IH. pose proof (resume_answering _ _ _ _ _ _ Hk Hres) as H.
  destruct k'; [by destruct H | done].
Qed.

Lemma createAnswer_waits offer streamerId st st' k :
  createAnswer offer streamerId st = (st', Some k) →
  ∃ pc, k = AnswerSettingRemote streamerId pc
        ∧ peerConnection st' = Some pc
        ∧ pc_signalingState pc st' = Some RTC.Stable
        ∧ streamerId ∈ processingOffers st'
        ∧ calls st' = calls (dropTerminal st)
                      ++ [(pc, RTC.CallSetRemoteDescription offer)].
Proof.
  unfold createAnswer. case_bool_decide; [done|].
  intros Hr%createAnswer_catch_finally_await. revert Hr.
  unfold createAnswer_try.
  set (st2 := ensurePeerConnection streamerId (dropTerminal st)).
  set (st3 := set_processingOffers _ st2).
  destruct (peerConnection st3) as [pc|] eqn:Hpc; [|done].
  case_bool_decide as Hsig; [done|].
  intros [= <- <-]. exists pc. split_and!; try done.
  - simpl. set_solver.
  - simpl. f_equal. unfold st2, ensurePeerConnection.
    by destruct (peerConnection (dropTerminal st)).
Qed.

Lemma resumes_ended (choices : list (Outcome * state)) st :
  resumes choices (st, None) = (st, None).
Proof. by destruct choices as [|[o env] rest]. Qed.

(** A call that is resumed as often as it can wait has ended. *)
Lemma resumes_ends (choices : list (Outcome * state)) : ∀ k st,
  (awaits_left k ≤ length choices)%nat →
  (resumes choices (st, Some k)).2 = None.
Proof.
  induction choices as [|[o env] rest IH]; intros k st Hlen.
  - destruct k; simpl in Hlen; lia.
  - cbn [resumes]. destruct (resume k o env) as [st' [k2|]] eqn:E.
    + apply IH. apply resume_awaits_left in E. simpl in Hlen. lia.
    + by rewrite resumes_ended.
Qed.

Lemma resumes_answering (choices : list (Outcome * state)) s : ∀ k st,
  answering k = Some s →
  (resumes choices (st, Some k)).2 = None →
  s ∉ processingOffers (resumes choices (st, Some k)).1.
Proof.
  induction choices as [|[o env] rest IH]; intros k st Hk; [done|].
  cbn [resumes]. destruct (resume k o env) as [st' next] eqn:E.
  pose proof (resume_answering _ _ _ _ _ _ Hk E) as H.
  destruct next as [k2|].
  - destruct H as [Hk2 _]. by apply IH.
  - by rewrite resumes_ended.
Qed.

(** C2: a call of [createAnswer] for a streamer that is in the guard set
    changes nothing (no [setRemoteDescription], no answer); a call for a
    streamer that is not in it leaves the streamer out of the guard set when
    it ends, by whatever path and whatever ran while it was waiting; it ends
    once three awaited operations have settled; and while it waits for the
    first time, a further offer of the same streamer is dropped. *)
Theorem createAnswer_guard offer streamerId st :
  (streamerId ∈ processingOffers st →
     createAnswer offer streamerId st = (st, None))
  ∧ (streamerId ∉ processingOffers st →
     ∀ final,
       finishes (createAnswer offer streamerId st).2
                (createAnswer offer streamerId st).1 final →
       streamerId ∉ processingOffers final)
  ∧ (streamerId ∉ processingOffers st →
     ∀ choices : list (Outcome * state),
       (3 ≤ length choices)%nat →
       (resumes choices (createAnswer offer streamerId st)).2 = None
       ∧ streamerId
         ∉ processingOffers (resumes choices (createAnswer offer streamerId st)).1)
  ∧ (∀ k, (createAnswer offer streamerId st).2 = Some k →
       ∀ offer',
         createAnswer offer' streamerId (createAnswer offer streamerId st).1
         = ((createAnswer offer streamerId st).1, None)).
Proof.
  split_and!.
  - intros Hin. unfold createAnswer. by rewrite bool_decide_eq_true_2.
  - intros Hnotin final Hfin. eapply finishes_answering; [done|].
    destruct (createAnswer offer streamerId st) as [st' [k|]] eqn:E; simpl.
    + by destruct (createAnswer_waits _ _ _ _ _ E) as (pc & -> & _).
    + revert E. unfold createAnswer. rewrite bool_decide_eq_false_2 by done.
      apply createAnswer_catch_finally_exit.
  - intros Hnotin choices Hlen.
    destruct (createAnswer offer streamerId st) as [st' [k|]] eqn:E.
    + destruct (createAnswer_waits _ _ _ _ _ E) as (pc & -> & _).
      assert (Hend : (resumes choices (st', Some (AnswerSettingRemote streamerId pc))).2
                     = None) by by apply resumes_ends.
      split; [done|]. by apply resumes_answering.
    + rewrite resumes_ended. split; [done|]. simpl.
      revert E. unfold createAnswer. rewrite bool_decide_eq_false_2 by done.
      apply createAnswer_catch_finally_exit.
  - intros k Hk. destruct (createAnswer offer streamerId st) as [st' k'] eqn:E.
    simpl in *. subst k'.
    destruct (createAnswer_waits _ _ _ _ _ E) as (pc & -> & _ & _ & Hin & _).
    intros offer'. unfold createAnswer. by rewrite bool_decide_eq_true_2.
Qed.

Lemma createAnswer_guard_witness :
  createAnswer "offer" "s" viewer_busy = (viewer_busy, None)
  ∧ (∀ final,
       finishes (createAnswer "offer" "s" (init true false)).2
                (createAnswer "offer" "s" (init true false)).1 final →
       "s" ∉ processingOffers final)
  ∧ createAnswer "offer-2" "s" (createAnswer "offer" "s" (init true false)).1
    = ((createAnswer "offer" "s" (init true false)).1, None).
Proof.
  split_and!.
  - apply (proj1 (createAnswer_guard "offer" "s" viewer_busy)).
    vm_compute. reflexivity.
  - apply (proj1 (proj2 (createAnswer_guard "offer" "s" (init true false)))).
    apply not_elem_of_empty.
  - apply (proj2 (proj2 (proj2 (createAnswer_guard "offer" "s" (init true false))))
             (AnswerSettingRemote "s" 0)).
    reflexivity.
Defined.

(** An answer made and sent, and an answer failing at [createAnswer]: in both
    runs the guard set is empty at the end. *)
Example createAnswer_runs :
  let started := createAnswer "offer" "s" (init true false) in
  let sent :=
    resumes [(Fulfilled "", started.1); (Fulfilled "answer", started.1);
             (Fulfilled "", started.1)] started in
  let failed :=
    resumes [(Fulfilled "", started.1); (Rejected (Some "no answer"), started.1)]
      started in
  processingOffers started.1 = {[ "s" ]}
  ∧ sent.2 = None ∧ processingOffers sent.1 = ∅
  ∧ emitted sent.1 = [EmitAnswer "answer" "s"]
  ∧ failed.2 = None ∧ processingOffers failed.1 = ∅
  ∧ emitted failed.1 = [] ∧ error failed.1 = Some "no answer".
Proof. vm_compute. done. Qed.

(** *** Offers are taken in the stable state only *)

Lemma set_processingOffers_same st :
  set_processingOffers (processingOffers st) st = st.
Proof. by destruct st. Qed.

Lemma set_processingOffers_twice a b st :
  set_processingOffers a (set_processingOffers b st) = set_processingOffers a st.
Proof. done. Qed.

Lemma dropTerminal_calls st :
  remoteDescriptions (calls (dropTerminal st)) = remoteDescriptions (calls st).
Proof.
  unfold dropTerminal. destruct (peerConnection st) as [pc|]; [|done].
  destruct (isTerminal _); [|done]. simpl.
  unfold remoteDescriptions. rewrite omap_app. simpl. by rewrite app_nil_r.
Qed.

Lemma ensurePeerConnection_new streamerId st :
  peerConnection st = None →
  peerConnection (ensurePeerConnection streamerId st) = Some (nextPc st)
  ∧ pc_signalingState (nextPc st) (ensurePeerConnection streamerId st)
    = Some RTC.Stable.
Proof.
  intros Hpc. unfold ensurePeerConnection, pc_signalingState. rewrite Hpc.
  unfold newPeerConnection, pc_update. simpl.
  by rewrite !lookup_alter_eq, lookup_insert_eq.
Qed.

(** The session [createAnswer] tests is the one it found, unless it made a
    new one, and a new one is stable. *)
Lemma session_not_stable_kept streamerId st pc :
  let st2 := ensurePeerConnection streamerId (dropTerminal st) in
  peerConnection st2 = Some pc →
  pc_signalingState pc st2 ≠ Some RTC.Stable →
  st2 = st.
Proof.
  intros st2 Hpc Hsig.
  destruct (peerConnection (dropTerminal st)) as [p|] eqn:Hd.
  - assert (st2 = dropTerminal st) as Heq.
    { unfold st2, ensurePeerConnection. by rewrite Hd. }
    rewrite Heq. revert Hd. unfold dropTerminal.
    destruct (peerConnection st) as [p0|]; [|done].
    by destruct (isTerminal _).
  - destruct (ensurePeerConnection_new streamerId _ Hd) as [H1 H2].
    fold st2 in H1, H2. rewrite Hpc in H1. injection H1 as ->. done.
Qed.

Lemma resume_remoteDescriptions k o env s :
  answering k = Some s →
  remoteDescriptions (calls (resume k o env).1) = remoteDescriptions (calls env).
Proof.
  unfold remoteDescriptions.
  destruct k; try done; intros _; destruct o; simpl; try done;
    repeat case_match; simpl; rewrite ?omap_app; simpl; by rewrite ?app_nil_r.
Qed.

(** C3: a call of [createAnswer] calls [setRemoteDescription] only in its
    first part, with the offer, on the session, and only while the signaling
    state of the session is [stable]; and when the signaling state of the
    session is not [stable], the body of the [try] block returns without
    throwing and the call leaves the whole state as it was: no
    [setRemoteDescription], no answer, no error recorded. *)
Theorem createAnswer_only_when_stable offer streamerId st :
  (∀ st' next pc sdp,
     createAnswer offer streamerId st = (st', next) →
     (pc, sdp) ∈ remoteDescriptions (calls st') →
     (pc, sdp) ∉ remoteDescriptions (calls st) →
     sdp = offer
     ∧ peerConnection st' = Some pc
     ∧ pc_signalingState pc st' = Some RTC.Stable)
  ∧ (∀ k o env,
       answering k = Some streamerId →
       remoteDescriptions (calls (resume k o env).1)
       = remoteDescriptions (calls env))
  ∧ (∀ pc,
       peerConnection (ensurePeerConnection streamerId (dropTerminal st)) = Some pc →
       pc_signalingState pc (ensurePeerConnection streamerId (dropTerminal st))
         ≠ Some RTC.Stable →
       (createAnswer_try offer streamerId
          (ensurePeerConnection streamerId (dropTerminal st))).2 = Return
       ∧ createAnswer offer streamerId st = (st, None)).
Proof.
  split_and!.
  - intros st' next pc sdp Hr Hin Hnew.
    destruct next as [k|].
    + destruct (createAnswer_waits _ _ _ _ _ Hr) as (pc' & -> & Hpc & Hsig & _ & Hcalls).
      rewrite Hcalls in Hin. unfold remoteDescriptions in Hin.
      rewrite omap_app in Hin. fold (remoteDescriptions (calls (dropTerminal st))) in Hin.
      rewrite dropTerminal_calls in Hin. simpl in Hin.
      apply elem_of_app in Hin as [Hin|Hin]; [done|].
      apply list_elem_of_singleton in Hin as [= -> ->]. done.
    + destruct Hnew. revert Hr Hin. unfold createAnswer.
      case_bool_decide; [by intros [= <-]|].
      unfold createAnswer_try.
      set (st2 := ensurePeerConnection streamerId (dropTerminal st)).
      assert (Hc : remoteDescriptions (calls st2) = remoteDescriptions (calls st)).
      { rewrite <- (dropTerminal_calls st). unfold st2, ensurePeerConnection.
        by destruct (peerConnection (dropTerminal st)). }
      set (st3 := set_processingOffers _ st2).
      destruct (peerConnection st3); [case_bool_decide|]; simpl;
        intros [= <-]; simpl; by rewrite Hc.
  - intros k o env. apply resume_remoteDescriptions.
  - intros pc Hpc Hsig.
    pose proof (session_not_stable_kept streamerId st pc Hpc Hsig) as Hkept.
    cbn zeta in Hkept. rewrite Hkept in Hpc, Hsig |- *.
    unfold createAnswer, createAnswer_try. simpl. rewrite Hpc.
    change (pc_signalingState pc (set_processingOffers _ st))
      with (pc_signalingState pc st).
    rewrite (bool_decide_eq_true_2 (_ ≠ _)) by done. simpl. split; [done|].
    case_bool_decide as Hguard; [done|]. rewrite Hkept. simpl. rewrite Hpc.
    change (pc_signalingState pc (set_processingOffers _ st))
      with (pc_signalingState pc st).
    rewrite (bool_decide_eq_true_2 (_ ≠ _)) by done. simpl.
    f_equal. rewrite set_processingOffers_twice.
    rewrite <- (set_processingOffers_same st) at 3. f_equal.
    apply set_eq. intros x. rewrite elem_of_difference, elem_of_union, elem_of_singleton.
    split; [intros [[->|?] ?]; done | intros ?; split; [by right | by intros ->]].
Qed.

Lemma createAnswer_only_when_stable_witness :
  createAnswer "offer" "s" viewer_mid_negotiation = (viewer_mid_negotiation, None).
Proof.
  apply (proj2 (proj2 (createAnswer_only_when_stable "offer" "s"
                         viewer_mid_negotiation)) 0).
  - reflexivity.
  - vm_compute. discriminate.
Defined.

(** *** [createOffer] without local media *)

(** C8 as stated fails: on a streamer-side hook that has no socket,
    [createOffer] returns at line 154, before the check of the local stream,
    and no error is recorded. *)
Lemma createOffer_without_socket_no_error :
  isStreamer streamer_without_socket = true
  ∧ localStream streamer_without_socket = None
  ∧ error (createOffer "v1" streamer_without_socket).1 = None.
Proof. vm_compute. done. Qed.

(** C8, amended: on a streamer-side hook with a socket and without a local
    stream, [createOffer] records the error ["Local stream not ready"] and
    does nothing else: no session is created, nothing is called on a
    connection and nothing is emitted, and the call does not wait. *)
Theorem createOffer_local_stream_not_ready viewerId st :
  socket st = true →
  isStreamer st = true →
  localStream st = None →
  createOffer viewerId st = (setError (Some "Local stream not ready") st, None)
  ∧ peerConnections (createOffer viewerId st).1 = peerConnections st
  ∧ pcs (createOffer viewerId st).1 = pcs st
  ∧ calls (createOffer viewerId st).1 = calls st
  ∧ emitted (createOffer viewerId st).1 = emitted st.
Proof.
  intros Hsock Hs Hl. unfold createOffer. by rewrite Hsock, Hs, Hl.
Qed.

Lemma createOffer_local_stream_not_ready_witness :
  createOffer "v1" streamer_without_media
  = (setError (Some "Local stream not ready") streamer_without_media, None).
Proof.
  apply (createOffer_local_stream_not_ready "v1" streamer_without_media);
    reflexivity.
Defined.

(** Without a socket, or on the viewer side, the call does nothing at all. *)
Lemma createOffer_no_socket viewerId st :
  socket st = false ∨ isStreamer st = false →
  createOffer viewerId st = (st, None).
Proof. unfold createOffer. by intros [-> | ->]; rewrite ?orb_true_r. Qed.

(** *** [cleanup] *)

Lemma cleanup_one_frame st pc :
  let st' := cleanup_one st pc in
  socket st' = socket st ∧ isStreamer st' = isStreamer st
  ∧ isConnected st' = isConnected st ∧ error st' = error st
  ∧ connectionState st' = connectionState st
  ∧ remoteStream st' = remoteStream st
  ∧ peerConnection st' = peerConnection st
  ∧ localStream st' = localStream st
  ∧ peerConnections st' = peerConnections st
  ∧ processingOffers st' = processingOffers st
  ∧ stoppedTracks st' = stoppedTracks st
  ∧ emitted st' = emitted st.
Proof. done. Qed.

Lemma cleanup_one_tornDown st pc h :
  (∃ conn, pcs st !! h = Some conn ∧ tornDown conn) →
  ∃ conn, pcs (cleanup_one st pc) !! h = Some conn ∧ tornDown conn.
Proof.
  intros (conn & Hh & Ht). unfold cleanup_one, pc_close, pc_call, pc_update. simpl.
  destruct (decide (pc = h)) as [->|Hne].
  - rewrite !lookup_alter_eq, Hh. simpl. eexists. split; [done|].
    by destruct Ht as (? & ? & ? & ?).
  - rewrite !lookup_alter_ne by done. eauto.
Qed.

Lemma cleanup_fold_frame (hs : list nat) : ∀ st,
  let st' := foldl cleanup_one st hs in
  isConnected st' = isConnected st ∧ error st' = error st
  ∧ connectionState st' = connectionState st
  ∧ remoteStream st' = remoteStream st
  ∧ peerConnection st' = peerConnection st
  ∧ localStream st' = localStream st
  ∧ processingOffers st' = processingOffers st
  ∧ stoppedTracks st' = stoppedTracks st
  ∧ emitted st' = emitted st.
Proof.
  induction hs as [|h hs IH]; intros st; [done|]. simpl.
  destruct (IH (cleanup_one st h)) as (?&?&?&?&?&?&?&?&?).
  destruct (cleanup_one_frame st h) as (?&?&?&?&?&?&?&?&?&?&?&?).
  split_and!; congruence.
Qed.

Lemma cleanup_fold_tornDown (hs : list nat) h : ∀ st,
  (∃ conn, pcs st !! h = Some conn ∧ tornDown conn) →
  ∃ conn, pcs (foldl cleanup_one st hs) !! h = Some conn ∧ tornDown conn.
Proof.
  induction hs as [|h0 hs IH]; intros st Hh; [done|]. simpl.
  by apply IH, cleanup_one_tornDown.
Qed.

Lemma cleanup_clean st : clean st → cleanup st = st.
Proof.
  destruct st. unfold clean, cleanup. simpl.
  intros (-> & -> & -> & -> & -> & -> & -> & ->). done.
Qed.

(** C10: after [cleanup], from any state of the hook, the local stream is
    null and all its tracks are stopped; the viewer-side connection is null,
    and the connection it was is closed with its three callbacks
    unregistered; the connection table and the guard set are empty; the
    remote stream is null, [isConnected] is false, [connectionState] is
    [new] and [error] is null.  Running [cleanup] again changes nothing. *)
Theorem cleanup_postcondition st :
  let st' := cleanup st in
  clean st'
  ∧ (∀ stream t,
       localStream st = Some stream → t ∈ getTracks stream → t ∈ stoppedTracks st')
  ∧ (∀ pc,
       peerConnection st = Some pc → is_Some (pcs st !! pc) →
       ∃ conn, pcs st' !! pc = Some conn ∧ tornDown conn)
  ∧ cleanup st' = st'.
Proof.
  intros st'. unfold st', cleanup.
  set (st1 := match localStream st with
              | Some stream => set_localStream None (stopTracks stream st)
              | None => st
              end).
  set (st2 := match peerConnection st1 with Some _ => _ | None => st1 end).
  set (st3 := foldl cleanup_one st2 (JsMap.values (peerConnections st2))).
  assert (H1 : localStream st1 = None).
  { unfold st1. by destruct (localStream st) eqn:E. }
  assert (H2 : localStream st2 = None ∧ peerConnection st2 = None
               ∧ stoppedTracks st2 = stoppedTracks st1).
  { unfold st2. by destruct (peerConnection st1) eqn:E. }
  destruct H2 as (H2l & H2p & H2s).
  destruct (cleanup_fold_frame (JsMap.values (peerConnections st2)) st2)
    as (_ & _ & _ & _ & H3p & H3l & _ & H3s & _).
  fold st3 in H3p, H3l, H3s.
  assert (Hclean : clean (setError None (setConnectionState RTC.New
            (setIsConnected false (setRemoteStream None
              (set_processingOffers ∅ (set_peerConnections [] st3))))))).
  { unfold clean. simpl. rewrite H3l, H3p, H2l, H2p. by split_and!. }
  split_and!; [done | | | by apply cleanup_clean].
  - intros stream t Hl Ht. simpl. rewrite H3s, H2s. unfold st1. rewrite Hl. simpl.
    apply elem_of_union_r, elem_of_list_to_set, Ht.
  - intros pc Hpc [conn Hconn]. simpl. apply cleanup_fold_tornDown.
    assert (Hpc1 : peerConnection st1 = Some pc ∧ pcs st1 !! pc = Some conn).
    { unfold st1. by destruct (localStream st). }
    destruct Hpc1 as [Hp1 Hconn1]. unfold st2. rewrite Hp1.
    unfold pc_close, pc_call, pc_update. simpl.
    rewrite !lookup_alter_eq, Hconn1. simpl. eexists. split; [done|].
    by unfold tornDown.
Qed.

Lemma cleanup_postcondition_witness :
  clean (cleanup viewer_connected)
  ∧ (∃ conn, pcs (cleanup viewer_connected) !! 0 = Some conn ∧ tornDown conn)
  ∧ cleanup (cleanup viewer_connected) = cleanup viewer_connected.
Proof.
  destruct (cleanup_postcondition viewer_connected) as (Hc & _ & Hpc & Hi).
  split_and!; [exact Hc | | exact Hi].
  apply Hpc; [reflexivity | vm_compute; eauto].
Defined.

Example viewer_connected_state :
  peerConnection viewer_connected = Some 0
  ∧ connectionState viewer_connected = RTC.Connected
  ∧ isConnected viewer_connected = true
  ∧ remoteStream viewer_connected = Some 7
  ∧ processingOffers viewer_connected = {[ "s" ]}.
Proof. vm_compute. done. Qed.

End hook.

(** ** Pause and resume *)

Section streamer.
Import Hook.
Implicit Types (h : Hook.state) (V : list string).

Lemma close_close conn : RTC.close (RTC.close conn) = RTC.close conn.
Proof. done. Qed.

(** [addTracks] only touches the connection it is given, and the log. *)
Lemma addTracks_frame pc ex (tracks : list nat) : ∀ h,
  let h' := addTracks pc ex tracks h in
  socket h' = socket h ∧ isStreamer h' = isStreamer h
  ∧ localStream h' = localStream h ∧ emitted h' = emitted h
  ∧ peerConnections h' = peerConnections h ∧ nextPc h' = nextPc h
  ∧ (∀ x, x ≠ pc → pcs h' !! x = pcs h !! x)
  ∧ (∀ x, is_Some (pcs h' !! x) ↔ is_Some (pcs h !! x)).
Proof.
  unfold addTracks. induction tracks as [|t tracks IH]; intros h; [done|].
  cbn [foldl]. case_bool_decide; [apply IH|].
  destruct (IH (pc_addTrack pc t h)) as (?&?&?&?&?&?&Hne&Hsome).
  split_and!; try done.
  - intros x Hx. rewrite (Hne x Hx). unfold pc_addTrack, pc_call, pc_update. simpl.
    by rewrite lookup_alter_ne.
  - intros x. rewrite Hsome. unfold pc_addTrack, pc_call, pc_update. simpl.
    rewrite lookup_alter. case_decide; [subst; by rewrite fmap_is_Some | done].
Qed.

(** [createPeerConnectionForViewer]: the session of the viewer, if any, is
    closed and dropped, and a new connection takes its place in the table. *)
Lemma createPeerConnectionForViewer_spec viewerId h :
  let r := createPeerConnectionForViewer viewerId h in
  r.1 = nextPc h
  ∧ socket r.2 = socket h ∧ isStreamer r.2 = isStreamer h
  ∧ localStream r.2 = localStream h ∧ emitted r.2 = emitted h
  ∧ nextPc r.2 = S (nextPc h)
  ∧ JsMap.get viewerId (peerConnections r.2) = Some (nextPc h)
  ∧ (∀ w, w ≠ viewerId →
       JsMap.get w (peerConnections r.2) = JsMap.get w (peerConnections h))
  ∧ (∀ x, x ≠ nextPc h →
       pcs r.2 !! x
       = if decide (JsMap.get viewerId (peerConnections h) = Some x)
         then RTC.close <$> pcs h !! x else pcs h !! x)
  ∧ is_Some (pcs r.2 !! nextPc h).
Proof.
  unfold createPeerConnectionForViewer.
  set (h1 := match JsMap.get viewerId (peerConnections h) with
             | Some oldPc => _ | None => h end).
  assert (H1 : socket h1 = socket h ∧ isStreamer h1 = isStreamer h
               ∧ localStream h1 = localStream h ∧ emitted h1 = emitted h
               ∧ nextPc h1 = nextPc h).
  { unfold h1. by destruct (JsMap.get viewerId (peerConnections h)). }
  destruct H1 as (H1a & H1b & H1c & H1d & H1e).
  assert (H1t : ∀ w, w ≠ viewerId →
            JsMap.get w (peerConnections h1) = JsMap.get w (peerConnections h)).
  { intros w Hw. unfold h1. destruct (JsMap.get viewerId (peerConnections h)); [|done].
    simpl. by rewrite JsMap_get_delete_ne. }
  assert (H1p : ∀ x, pcs h1 !! x
            = if decide (JsMap.get viewerId (peerConnections h) = Some x)
              then RTC.close <$> pcs h !! x else pcs h !! x).
  { intros x. unfold h1.
    destruct (JsMap.get viewerId (peerConnections h)) as [old|] eqn:E.
    - unfold pc_close, pc_call, pc_update. simpl. rewrite lookup_alter.
      destruct (decide (old = x)) as [->|Hne].
      + by rewrite decide_True.
      + rewrite decide_False; [done | congruence].
    - by rewrite decide_False. }
  unfold newPeerConnection, pc_update. simpl. rewrite H1e.
  split_and!; try done.
  - apply JsMap_get_set_eq.
  - intros w Hw. rewrite JsMap_get_set_ne by done. by apply H1t.
  - intros x Hx. rewrite !lookup_alter_ne, lookup_insert_ne by done. apply H1p.
  - rewrite !lookup_alter_is_Some, lookup_insert_eq. eauto.
Qed.

(** One offer started: what [createOffer] does when the stream is held. *)
Lemma createOffer_started viewerId stream h :
  wf h → socket h = true → isStreamer h = true → localStream h = Some stream →
  (createOffer viewerId h).2 = Some (OfferCreating viewerId (nextPc h))
  ∧ socket (createOffer viewerId h).1 = true
  ∧ isStreamer (createOffer viewerId h).1 = true
  ∧ localStream (createOffer viewerId h).1 = Some stream
  ∧ emitted (createOffer viewerId h).1 = emitted h
  ∧ reoffered [viewerId] h (createOffer viewerId h).1.
Proof.
  intros Hwf Hsock Hs Hl. unfold createOffer. rewrite Hsock, Hs, Hl. cbn [negb orb].
  pose proof (createPeerConnectionForViewer_spec viewerId h) as Hspec.
  destruct (createPeerConnectionForViewer viewerId h) as [pc h5].
  cbn [fst snd] in Hspec. cbn zeta in Hspec.
  destruct Hspec as (-> & S1 & S2 & S3 & S4 & S5 & S6 & S7 & S8 & S9).
  set (pc := nextPc h) in *.
  match goal with |- context [addTracks pc ?ex ?tr h5] =>
    destruct (addTracks_frame pc ex tr h5) as (F1&F2&F3&F4&F5&F6&F7&F8);
    set (h6 := addTracks pc ex tr h5) in *
  end.
  cbn [createOffer_catch fst snd].
  change (socket (pc_call pc RTC.CallCreateOffer h6)) with (socket h6).
  change (isStreamer (pc_call pc RTC.CallCreateOffer h6)) with (isStreamer h6).
  change (localStream (pc_call pc RTC.CallCreateOffer h6)) with (localStream h6).
  change (emitted (pc_call pc RTC.CallCreateOffer h6)) with (emitted h6).
  assert (Hlt : ∀ x, is_Some (pcs h !! x) → x ≠ pc).
  { intros x Hx%Hwf. unfold pc. lia. }
  split_and!; try congruence.
  split.
  - intros x. change (is_Some (pcs h6 !! x) → x < nextPc h6).
    rewrite F8, F6, S5. destruct (decide (x = pc)) as [->|Hne]; [unfold pc; lia|].
    rewrite S8 by done. intros Hx. enough (x < nextPc h) by lia. apply Hwf.
    case_decide; [by apply fmap_is_Some in Hx | done].
  - change (nextPc h6 = nextPc h + 1). rewrite F6, S5. lia.
  - intros i v Hi. destruct i; [|done]. injection Hi as <-.
    change (JsMap.get viewerId (peerConnections h6) = Some (nextPc h + 0)).
    rewrite F5, S6. f_equal. unfold pc. lia.
  - intros w Hw. assert (w ≠ viewerId) by (intros ->; apply Hw; left).
    change (JsMap.get w (peerConnections h6) = JsMap.get w (peerConnections h)).
    rewrite F5. by apply S7.
  - intros x conn Hx.
    change (pcs (pc_call pc RTC.CallCreateOffer h6)) with (pcs h6).
    rewrite F7, S8, Hx by (apply Hlt; eauto). case_decide; eauto.
  - intros v x conn ->%list_elem_of_singleton Hget Hx.
    change (pcs h6 !! x = Some (RTC.close conn)).
    rewrite F7, S8, Hx by (apply Hlt; eauto). by rewrite decide_True.
Qed.

Lemma reoffered_nil h : wf h → reoffered [] h h.
Proof.
  intros Hwf. split; try done.
  - eauto.
  - by intros v x conn ?%elem_of_nil.
Qed.

Lemma reoffered_cons v V h h1 h' :
  v ∉ V → reoffered [v] h h1 → reoffered V h1 h' → reoffered (v :: V) h h'.
Proof.
  intros Hv [_ A2 A3 A4 A5 A6] [B1 B2 B3 B4 B5 B6]. split.
  - done.
  - rewrite B2, A2. simpl. lia.
  - intros [|i] w Hi; simpl in Hi.
    + injection Hi as <-. rewrite (B4 v Hv). by apply A3.
    + rewrite (B3 i w Hi), A2. f_equal. simpl. lia.
  - intros w [Hw1 Hw2]%not_elem_of_cons. rewrite (B4 w Hw2). apply A4.
    by intros ->%list_elem_of_singleton.
  - intros x conn Hx. destruct (A5 x conn Hx) as (c1 & Hc1 & Hor1).
    destruct (B5 x c1 Hc1) as (c2 & Hc2 & Hor2). exists c2. split; [done|].
    destruct Hor1 as [->| ->], Hor2 as [->| ->]; auto.
  - intros u x conn [->|Hu]%elem_of_cons Hget Hx.
    + pose proof (A6 v x conn (list_elem_of_here _ _) Hget Hx) as H1.
      destruct (B5 x _ H1) as (c2 & Hc2 & [->| ->]); done.
    + assert (u ≠ v) as Hne by (by intros ->).
      destruct (A5 x conn Hx) as (c1 & Hc1 & Hor1).
      rewrite (B6 u x c1 Hu); [by destruct Hor1 as [->| ->]| |done].
      rewrite A4; [done | by intros ->%list_elem_of_singleton].
Qed.

Lemma offersStarted_cons n v V :
  Streamer.offersStarted n (v :: V)
  = OfferCreating v n :: Streamer.offersStarted (S n) V.
Proof.
  unfold Streamer.offersStarted. rewrite imap_cons. f_equal; [f_equal; lia|].
  apply imap_ext. intros i w _. simpl. f_equal. lia.
Qed.

(** [viewersRef.current.forEach(viewerId => createOffer(viewerId))] *)
Lemma reoffer_all V : ∀ (st : Streamer.state) stream,
  NoDup V →
  wf (Streamer.hook st) → socket (Streamer.hook st) = true →
  isStreamer (Streamer.hook st) = true →
  localStream (Streamer.hook st) = Some stream →
  let st' := foldl (λ st v, Streamer.createOffer v st) st V in
  Streamer.pending st'
  = Streamer.pending st ++ Streamer.offersStarted (nextPc (Streamer.hook st)) V
  ∧ emitted (Streamer.hook st') = emitted (Streamer.hook st)
  ∧ reoffered V (Streamer.hook st) (Streamer.hook st').
Proof.
  induction V as [|v V IH]; intros st stream Hnd Hwf Hsock Hs Hl.
  - simpl. rewrite app_nil_r. split_and!; [done | done | by apply reoffered_nil].
  - apply NoDup_cons in Hnd as [Hv Hnd]. cbn [foldl].
    destruct (createOffer_started v stream (Streamer.hook st) Hwf Hsock Hs Hl)
      as (Hk & Hsock1 & Hs1 & Hl1 & He1 & Hro1).
    set (st1 := Streamer.createOffer v st).
    assert (Hh1 : Streamer.hook st1 = (createOffer v (Streamer.hook st)).1
                  ∧ Streamer.pending st1
                    = Streamer.pending st ++ [OfferCreating v (nextPc (Streamer.hook st))]).
    { unfold st1, Streamer.createOffer.
      destruct (createOffer v (Streamer.hook st)) as [h1 k1]. simpl in *.
      by rewrite Hk. }
    destruct Hh1 as [Hh1 Hp1].
    destruct (IH st1 stream Hnd) as (Hp & He & Hro); rewrite ?Hh1; try done.
    { apply Hro1. }
    split_and!.
    + rewrite Hp, Hp1, offersStarted_cons, <- app_assoc. simpl.
      rewrite Hh1. rewrite (ro_next _ _ _ Hro1). simpl.
      by replace (nextPc (Streamer.hook st) + 1) with (S (nextPc (Streamer.hook st))) by lia.
    + rewrite He, Hh1. done.
    + eapply reoffered_cons; [done | done |]. by rewrite <- Hh1.
Qed.

Lemma offersTo_snoc l offer v :
  offersTo (l ++ [EmitOffer offer v]) = offersTo l ++ [v].
Proof. unfold offersTo. by rewrite omap_app. Qed.

(** An offer under way, whatever else has run meanwhile: when [createOffer]
    and [setLocalDescription] are fulfilled, one offer is emitted to the
    viewer; when one of them is rejected, none is. *)
Lemma offer_under_way viewerId pc offer x m env :
  resume (OfferCreating viewerId pc) (Fulfilled offer) env
  = (pc_call pc (RTC.CallSetLocalDescription offer) env,
     Some (OfferSettingLocal viewerId pc offer))
  ∧ (resume (OfferSettingLocal viewerId pc offer) (Fulfilled x) env).2 = None
  ∧ emitted (resume (OfferSettingLocal viewerId pc offer) (Fulfilled x) env).1
    = emitted env ++ [EmitOffer offer viewerId]
  ∧ (resume (OfferCreating viewerId pc) (Rejected m) env).2 = None
  ∧ emitted (resume (OfferCreating viewerId pc) (Rejected m) env).1 = emitted env
  ∧ (resume (OfferSettingLocal viewerId pc offer) (Rejected m) env).2 = None
  ∧ emitted (resume (OfferSettingLocal viewerId pc offer) (Rejected m) env).1
    = emitted env.
Proof. done. Qed.

Lemma complete_offers_emitted sdp V : ∀ n h,
  offersTo (emitted (complete_offers sdp (Streamer.offersStarted n V) h))
  = offersTo (emitted h) ++ V.
Proof.
  induction V as [|v V IH]; intros n h; [by rewrite app_nil_r|].
  rewrite offersStarted_cons. cbn [complete_offers resume createOffer_catch fst].
  rewrite IH. cbn [emit emitted set_emitted pc_update set_pcs pc_call set_calls].
  by rewrite offersTo_snoc, <- app_assoc.
Qed.

(** *** The states the streamer page reaches *)

Ltac store_bound H :=
  unfold wf in *; cbn -[lookup alter insert] in *; intros x Hx;
  repeat (first [ rewrite lookup_alter_is_Some in Hx
                | apply lookup_insert_is_Some' in Hx as [->|Hx] ]);
  try lia; try (apply H in Hx; lia).

Ltac streaming_kept H :=
  repeat case_match; simplify_eq; (split_and!; [store_bound H | done | done]).

Lemma streaming_createOffer v h : streaming h → streaming (createOffer v h).1.
Proof.
  intros (H & Hs & Hi). destruct (localStream h) as [stream|] eqn:Hl.
  - destruct (createOffer_started v stream h H Hs Hi Hl)
      as (_ & ? & ? & _ & _ & [? _ _ _ _ _]).
    done.
  - unfold createOffer. by rewrite Hs, Hi, Hl.
Qed.

Lemma streaming_createAnswer o s h : streaming h → streaming (createAnswer o s h).1.
Proof.
  intros (H & Hs & Hi).
  unfold createAnswer, createAnswer_catch_finally, createAnswer_try,
    ensurePeerConnection, dropTerminal, newPeerConnection, pc_close, pc_call,
    pc_update.
  streaming_kept H.
Qed.

Lemma streaming_resume k o h : streaming h → streaming (resume k o h).1.
Proof.
  intros (H & Hs & Hi).
  unfold resume, createOffer_catch, createAnswer_catch_finally, handle_catch,
    pc_call, pc_update, emit.
  streaming_kept H.
Qed.

Lemma streaming_cleanupViewerConnection v h :
  streaming h → streaming (cleanupViewerConnection v h).
Proof.
  intros (H & Hs & Hi). unfold cleanupViewerConnection, pc_close, pc_call, pc_update.
  streaming_kept H.
Qed.

Lemma streaming_handleAnswer a v h : streaming h → streaming (handleAnswer a v h).1.
Proof.
  intros (H & Hs & Hi). unfold handleAnswer, handle_catch, pc_call.
  streaming_kept H.
Qed.

Lemma streaming_handleIceCandidate c v h :
  streaming h → streaming (handleIceCandidate c v h).1.
Proof.
  intros (H & Hs & Hi). unfold handleIceCandidate, handle_catch, pc_call.
  streaming_kept H.
Qed.

Lemma streaming_startLocalStream supported media h :
  streaming h → streaming (startLocalStream supported media h).1.
Proof.
  intros (H & Hs & Hi). unfold startLocalStream, startLocalStream_catch.
  streaming_kept H.
Qed.

Lemma streaming_stopLocalStream h : streaming h → streaming (stopLocalStream h).
Proof.
  intros (H & Hs & Hi). unfold stopLocalStream, stopTracks. streaming_kept H.
Qed.

Lemma ok_createOffer v (st : Streamer.state) :
  Streamer.ok st → Streamer.ok (Streamer.createOffer v st).
Proof.
  intros (Hh & Hv & Hvid). unfold Streamer.createOffer.
  pose proof (streaming_createOffer v _ Hh) as H.
  by destruct (createOffer v (Streamer.hook st)).
Qed.

Lemma ok_spawn r (st : Streamer.state) :
  streaming r.1 → Streamer.ok st → Streamer.ok (Streamer.spawn r st).
Proof. by intros Hr (_ & Hv & Hvid). Qed.

Lemma ok_step ev (st : Streamer.state) : Streamer.ok st → Streamer.ok (Streamer.step ev st).
Proof.
  intros (Hh & Hv & Hvid). pose proof Hh as (H & Hs & Hi).
  destruct ev as [|supported media|stream loaded|connected|response| |
                  |supported media|stream loaded|sev|i o]; cbn [Streamer.step].
  - unfold Streamer.initializeStream. by destruct (_ || _).
  - unfold Streamer.initializeStream_acquired.
    pose proof (streaming_startLocalStream supported media _ Hh) as H1.
    destruct (startLocalStream _ _ _) as [h [stream| |m]]; by split_and!.
  - unfold Streamer.initializeStream_attached.
    destruct (Streamer.videoRef st); [destruct loaded|]; by split_and!.
  - unfold Streamer.initializeStream_connected. destruct connected; by split_and!.
  - unfold Streamer.initializeStream_created. destruct response; by split_and!.
  - unfold Streamer.stopStream. cbn zeta.
    pose proof (streaming_stopLocalStream _ Hh) as H1.
    cbn [Streamer.videoRef Streamer.set_hook].
    destruct (Streamer.videoRef st), (Streamer.truthy _); by split_and!.
  - unfold Streamer.restartStream. destruct (Streamer.truthy _); by split_and!.
  - unfold Streamer.restartStream_acquired.
    pose proof (streaming_startLocalStream supported media _ Hh) as H1.
    destruct (startLocalStream _ _ _) as [h [stream'| |m]]; by split_and!.
  - unfold Streamer.restartStream_attached.
    destruct (Streamer.videoRef st); [destruct loaded|]; try by split_and!.
    cbn [Streamer.restartStream_catch_finally].
    set (st3 := Streamer.setStatus _ _).
    assert (Hok : Streamer.ok st3) by by split_and!.
    change (Streamer.viewersRef st3) with (Streamer.viewersRef st).
    clearbody st3. generalize (Streamer.viewersRef st). intros V.
    revert st3 Hok. induction V as [|v V IH]; intros st3 Hok; [done|].
    cbn [foldl]. apply IH. by apply ok_createOffer.
  - (* an event of the server *)
    destruct sev; cbn [Streamer.receive]; try by split_and!.
    + unfold Streamer.onViewerJoined. apply ok_createOffer.
      split_and!; [done | by apply JsSet_NoDup_add | done].
    + unfold Streamer.onViewerLeft. split_and!; [|by apply JsSet_NoDup_delete|done].
      by apply streaming_cleanupViewerConnection.
    + apply ok_spawn; [by apply streaming_createAnswer | by split_and!].
    + apply ok_spawn; [by apply streaming_handleAnswer | by split_and!].
    + apply ok_spawn; [by apply streaming_handleIceCandidate | by split_and!].
  - unfold Streamer.settle. destruct (Streamer.pending st !! i) as [k|]; [|by split_and!].
    pose proof (streaming_resume k o _ Hh) as H1.
    destruct (resume k o (Streamer.hook st)); by split_and!.
Qed.

Lemma ok_init : Streamer.ok Streamer.init.
Proof.
  split_and!; [|apply NoDup_nil_2|by eexists]. split_and!; try done.
  intros x [conn Hx]. simpl in Hx. by rewrite lookup_empty in Hx.
Qed.

(** Every state the page reaches from its mount has a hook with a socket on
    the streamer side, a store below the next handle, and a set of viewers. *)
Lemma ok_run evs : ∀ st : Streamer.state, Streamer.ok st → Streamer.ok (Streamer.run evs st).
Proof.
  induction evs as [|ev evs IH]; intros st Hok; [done|].
  apply IH. by apply ok_step.
Qed.

(** *** The sessions over a pause and a resume *)

Lemma reoffered_from V h0 h h' :
  nextPc h0 = nextPc h → peerConnections h0 = peerConnections h → pcs h0 = pcs h →
  reoffered V h0 h' → reoffered V h h'.
Proof.
  intros E1 E2 E3 [A1 A2 A3 A4 A5 A6]. rewrite E1 in A2, A3.
  rewrite E2 in A4, A6. rewrite E3 in A5, A6. by split.
Qed.

(** C6 as stated fails in its last part: when the paused streamer resumes,
    the session of the viewer ["v1"] is closed and replaced in the table by a
    new one, and this before any new offer is emitted. *)
Lemma restartStream_replaces_sessions :
  JsMap.get "v1" (peerConnections (Streamer.hook Streamer.paused)) = Some 0
  ∧ pc_connectionState 0 (Streamer.hook Streamer.paused) = Some RTC.New
  ∧ JsMap.get "v1" (peerConnections (Streamer.hook Streamer.resumed)) = Some 1
  ∧ pc_connectionState 0 (Streamer.hook Streamer.resumed) = Some RTC.Closed
  ∧ calls (Streamer.hook Streamer.resumed)
    = calls (Streamer.hook Streamer.paused)
      ++ [(0, RTC.CallClose); (1, RTC.CallAddTrack 2); (1, RTC.CallAddTrack 3);
          (1, RTC.CallCreateOffer)]
  ∧ offersTo (emitted (Streamer.hook Streamer.resumed))
    = offersTo (emitted (Streamer.hook Streamer.paused)).
Proof. vm_compute. done. Qed.

(** C6, amended.  [stopStream] leaves the connection table, the
    connections and the viewer set as they are: it stops the tracks of the
    local stream, drops the stream and emits [stream-paused] for the room.
    [restartStream], the camera giving a stream and the video element
    loading it, emits [stream-resumed] and starts one [createOffer] per known
    viewer, in the order of the set; each of them first closes the session the
    viewer had and puts a new connection in its place, the sessions of other
    identities staying in the table; and when the offers under way are
    carried to their end one offer is emitted per known viewer, addressed at
    that viewer. *)
Theorem pause_keeps_sessions_resume_reoffers (st : Streamer.state) :
  (let st' := Streamer.stopStream st in
   peerConnections (Streamer.hook st') = peerConnections (Streamer.hook st)
   ∧ pcs (Streamer.hook st') = pcs (Streamer.hook st)
   ∧ calls (Streamer.hook st') = calls (Streamer.hook st)
   ∧ Streamer.viewersRef st' = Streamer.viewersRef st
   ∧ Streamer.roomId st' = Streamer.roomId st
   ∧ localStream (Streamer.hook st') = None
   ∧ (∀ stream t, localStream (Streamer.hook st) = Some stream →
        t ∈ getTracks stream → t ∈ stoppedTracks (Streamer.hook st'))
   ∧ emitted (Streamer.hook st')
     = emitted (Streamer.hook st)
       ++ match Streamer.truthy (Streamer.roomId st) with
          | Some r => [EmitStreamPaused r]
          | None => []
          end)
  ∧ (∀ r stream sdp,
       Streamer.ok st →
       Streamer.truthy (Streamer.roomId st) = Some r →
       getVideoTracks stream ≠ [] →
       let st' := Streamer.restartStream_run true (GotStream stream) true st in
       let started :=
         Streamer.offersStarted (nextPc (Streamer.hook st)) (Streamer.viewersRef st) in
       emitted (Streamer.hook st')
       = emitted (Streamer.hook st) ++ [EmitStreamResumed r]
       ∧ Streamer.pending st' = Streamer.pending st ++ started
       ∧ reoffered (Streamer.viewersRef st) (Streamer.hook st) (Streamer.hook st')
       ∧ offersTo (emitted (complete_offers sdp started (Streamer.hook st')))
         = offersTo (emitted (Streamer.hook st)) ++ Streamer.viewersRef st).
Proof.
  split.
  - unfold Streamer.stopStream, stopLocalStream. cbn zeta.
    destruct st as [rid vc stt strm ini vref vs h pend]. cbn [Streamer.hook Streamer.set_hook
      Streamer.videoRef Streamer.roomId Streamer.viewersRef].
    destruct (localStream h) as [stream|] eqn:Hl, vref as [src|],
      (Streamer.truthy rid) as [r|] eqn:Ht; simpl; rewrite ?Ht; simpl;
      rewrite ?app_nil_r; split_and!; try done;
      try (intros stream' t [= <-] Hin; apply elem_of_union_r, elem_of_list_to_set, Hin).
  - intros r stream sdp ((Hwf & Hsock & Hs) & Hnd & [src Hv]) Ht Hvid st' started.
    unfold st', Streamer.restartStream_run, Streamer.restartStream. rewrite Ht.
    set (st1 := Streamer.emit _ _).
    unfold Streamer.restartStream_acquired, startLocalStream.
    change (isStreamer (Streamer.hook st1)) with (isStreamer (Streamer.hook st)).
    rewrite Hs. cbn [negb]. rewrite bool_decide_eq_false_2
      by (by destruct (getVideoTracks stream)).
    set (st2 := Streamer.set_hook _ st1).
    unfold Streamer.restartStream_attached.
    change (Streamer.videoRef st2) with (Streamer.videoRef st). rewrite Hv.
    set (st3 := Streamer.setStatus _ _).
    destruct (reoffer_all (Streamer.viewersRef st) st3 stream) as (Hp & He & Hro);
      try done.
    cbn [Streamer.restartStream_catch_finally].
    change (Streamer.viewersRef st3) with (Streamer.viewersRef st).
    set (st4 := foldl _ st3 _) in *.
    change (Streamer.hook (Streamer.setIsInitializing false st4))
      with (Streamer.hook st4).
    change (Streamer.pending (Streamer.setIsInitializing false st4))
      with (Streamer.pending st4).
    assert (Hro' : reoffered (Streamer.viewersRef st) (Streamer.hook st) (Streamer.hook st4)).
    { by apply (reoffered_from _ (Streamer.hook st3)). }
    split_and!; [by rewrite He | by rewrite Hp | done |].
    unfold started. rewrite complete_offers_emitted, He. simpl.
    unfold offersTo. rewrite omap_app. simpl. by rewrite app_nil_r.
Qed.

Lemma pause_keeps_sessions_resume_reoffers_witness :
  peerConnections (Streamer.hook (Streamer.stopStream Streamer.live_with_viewer))
    = peerConnections (Streamer.hook Streamer.live_with_viewer)
  ∧ Streamer.pending
      (Streamer.restartStream_run true (GotStream Streamer.camera) true
         Streamer.paused)
    = Streamer.pending Streamer.paused
      ++ Streamer.offersStarted (nextPc (Streamer.hook Streamer.paused))
           (Streamer.viewersRef Streamer.paused)
  ∧ offersTo
      (emitted
         (complete_offers (λ _, "offer-2")
            (Streamer.offersStarted (nextPc (Streamer.hook Streamer.paused))
               (Streamer.viewersRef Streamer.paused))
            (Streamer.hook
               (Streamer.restartStream_run true (GotStream Streamer.camera) true
                  Streamer.paused))))
    = offersTo (emitted (Streamer.hook Streamer.paused))
      ++ Streamer.viewersRef Streamer.paused.
Proof.
  destruct (pause_keeps_sessions_resume_reoffers Streamer.live_with_viewer)
    as [(Hp & _) _].
  destruct (proj2 (pause_keeps_sessions_resume_reoffers Streamer.paused)
              "dev-room-001" Streamer.camera (λ _, "offer-2"))
    as (_ & Hpend & _ & Hoffers).
  - apply ok_step, ok_run, ok_run, ok_init.
  - reflexivity.
  - discriminate.
  - split_and!; [exact Hp | exact Hpend | exact Hoffers].
Defined.

Example resumed_offers :
  Streamer.pending Streamer.resumed = [OfferCreating "v1" 1]
  ∧ emitted (complete_offers (λ _, "offer-2") (Streamer.pending Streamer.resumed)
               (Streamer.hook Streamer.resumed))
    = [EmitCreateRoom; EmitOffer "offer-1" "v1"; EmitStreamPaused "dev-room-001";
       EmitStreamResumed "dev-room-001"; EmitOffer "offer-2" "v1"].
Proof. vm_compute. done. Qed.

End streamer.

(** ** A repeated join *)

Section repeated_join.
Import Server.

(** C9: a [join-room] request from a socket that is already among the
    viewers of the room is acknowledged with [{success: true}] and has no
    other effect: the server state is unchanged and nothing is sent to any
    socket, so the streamer page, which starts an offer only on
    [viewer-joined], is left as it was. *)
Theorem duplicate_join_is_silent (st : state) roomId sid room
    (page : Streamer.state) :
  JsMap.get roomId (rooms st) = Some room →
  sid ∈ viewers room →
  join_room roomId sid st = (st, [Ack JoinSuccess])
  ∧ (∀ socket, inbox socket (join_room roomId sid st).2 = [])
  ∧ Streamer.receive_all (inbox (streamer room) (join_room roomId sid st).2) page
    = page.
Proof.
  intros Hget Hin. rewrite (join_room_duplicate st roomId sid room Hget Hin).
  by split_and!.
Qed.

Lemma duplicate_join_is_silent_witness :
  join_room "dev-room-001" "v0" one_room = (one_room, [Ack JoinSuccess])
  ∧ Streamer.receive_all
      (inbox "s" (join_room "dev-room-001" "v0" one_room).2) Streamer.live
    = Streamer.live.
Proof.
  destruct (duplicate_join_is_silent one_room "dev-room-001" "v0"
              {| streamer := "s"; viewers := ["v0"] |} Streamer.live)
    as (Hsame & _ & Hpage).
  - reflexivity.
  - apply list_elem_of_singleton. reflexivity.
  - split; [exact Hsame | exact Hpage].
Defined.

(** A first join, for comparison: the streamer is sent [viewer-joined] and
    its page starts an offer for the viewer. *)
Example first_join_is_announced :
  inbox "s" (join_room "dev-room-001" "v1" one_room).2 = [ViewerJoined "v1"]
  ∧ Streamer.pending
      (Streamer.receive_all
         (inbox "s" (join_room "dev-room-001" "v1" one_room).2) Streamer.live)
    = [Hook.OfferCreating "v1" 0].
Proof. vm_compute. done. Qed.

End repeated_join.

(** ** Reconnection *)

Section viewer.
Import Viewer.
Implicit Types (st : state) (ev : Event).
Local Open Scope Z_scope.

Lemma inv_init roomId : inv (init roomId).
Proof.
  split; [done|]. intros t d Ht. simpl in Ht. by rewrite lookup_empty in Ht.
Qed.

(** A state with the invariant and without the timer its ref holds has no
    timer at all. *)
Lemma inv_no_timer st :
  inv st → retryCleanup st = true → timers (autoRetry_cleanup st) = ∅.
Proof.
  intros [_ Ht] _. unfold autoRetry_cleanup. apply map_empty. intros t.
  destruct (retryTimeoutRef st) as [t0|] eqn:E; simpl.
  - destruct (decide (t0 = t)) as [->|Hne]; [apply lookup_delete_eq|].
    rewrite lookup_delete_ne by done.
    destruct (timers st !! t) as [d|] eqn:Hd; [|done].
    destruct (Ht t d Hd) as ([= ->] & _). done.
  - destruct (timers st !! t) as [d|] eqn:Hd; [|done].
    by destruct (Ht t d Hd) as (? & _).
Qed.

Lemma inv_before_effect st :
  inv st →
  let st0 := if retryCleanup st then autoRetry_cleanup st else st in
  timers st0 = ∅
  ∧ retryCountRef st0 = retryCountRef st
  ∧ hook st0 = hook st ∧ status st0 = status st
  ∧ nextTimer st0 = nextTimer st.
Proof.
  intros Hinv. destruct (retryCleanup st) eqn:Hc; cbn zeta.
  - split; [by apply inv_no_timer|].
    unfold autoRetry_cleanup. by destruct (retryTimeoutRef st).
  - split; [|done]. apply map_empty. intros t.
    destruct (timers st !! t) as [d|] eqn:Hd; [|done].
    destruct (inv_timers st Hinv t d Hd) as (_ & ? & _). congruence.
Qed.

(** What a run of the effect does in a state without timers. *)
Lemma autoRetry_spec st :
  timers st = ∅ →
  let c := Hook.connectionState (hook st) in
  let st' := autoRetry st in
  hook st' = hook st
  ∧ if bool_decide (c = RTC.Failed ∨ c = RTC.Disconnected) then
      retryCountRef st' = retryCountRef st + 1
      ∧ if bool_decide (retryCountRef st' > 5) then
          status st' = "WebRTC failed after multiple retries"
          ∧ timers st' = ∅ ∧ retryCleanup st' = false
        else
          retryTimeoutRef st' = Some (nextTimer st)
          ∧ timers st' = {[ nextTimer st := 2000 * retryCountRef st' ]}
          ∧ retryCleanup st' = true
    else
      retryCountRef st' = retryCountRef st ∧ timers st' = ∅
      ∧ retryCleanup st' = false ∧ status st' = status st.
Proof.
  intros Hidle c st'. unfold st', autoRetry. fold c.
  assert (Hb : bool_decide (c = RTC.Failed) || bool_decide (c = RTC.Disconnected)
               = bool_decide (c = RTC.Failed ∨ c = RTC.Disconnected)).
  { destruct (decide (c = RTC.Failed)) as [Hf|Hf];
      [|destruct (decide (c = RTC.Disconnected)) as [Hd|Hd]].
    - rewrite (bool_decide_eq_true_2 _ Hf). symmetry. apply bool_decide_eq_true_2. tauto.
    - rewrite (bool_decide_eq_true_2 _ Hd), orb_true_r. symmetry.
      apply bool_decide_eq_true_2. tauto.
    - rewrite (bool_decide_eq_false_2 _ Hf), (bool_decide_eq_false_2 _ Hd).
      symmetry. apply bool_decide_eq_false_2. tauto. }
  rewrite Hb. clear Hb. generalize (bool_decide (c = RTC.Failed ∨ c = RTC.Disconnected)).
  clear c st'. intros retrying. destruct st as [rid stt hj ij ipo nui isp ivp cnt ref cl tm nt h pend].
  simpl in Hidle. subst tm. destruct retrying; simpl; [|done].
  remember (cnt + 1) as n eqn:Hn.
  destruct (bool_decide (n > 5)) eqn:E; simpl; rewrite ?E; [done|].
  destruct ref; simpl; rewrite ?E, ?delete_empty, insert_empty; done.
Qed.

Lemma inv_autoRetry st :
  timers st = ∅ → (0 ≤ retryCountRef st) → inv (autoRetry st).
Proof.
  intros Hidle Hc. pose proof (autoRetry_spec st Hidle) as [_ H]. cbn zeta in H.
  case_bool_decide.
  - destruct H as [Hn H]. case_bool_decide.
    + destruct H as (_ & Ht & _). split; [lia|]. intros t d. by rewrite Ht, lookup_empty.
    + destruct H as (Hr & Ht & Hcl). split; [lia|]. intros t d. rewrite Ht.
      intros [<- <-]%lookup_singleton_Some. split_and!; [done | done |].
      exists (retryCountRef (autoRetry st)). split; [lia | done].
  - destruct H as (Hn & Ht & _). split; [lia|]. intros t d. by rewrite Ht, lookup_empty.
Qed.

Lemma inv_render before st : inv st → inv (render before st).
Proof.
  intros Hinv. unfold render. case_bool_decide; [done|].
  destruct (inv_before_effect st Hinv) as (Hidle & Hc & _).
  apply inv_autoRetry; [done|]. rewrite Hc. apply Hinv.
Qed.

(** A handler that leaves the timers alone and the count at least zero
    keeps the invariant. *)
Lemma inv_frame st st' :
  inv st →
  timers st' = timers st → retryTimeoutRef st' = retryTimeoutRef st →
  retryCleanup st' = retryCleanup st →
  (retryCountRef st' = retryCountRef st ∨ retryCountRef st' = 0) →
  inv st'.
Proof.
  intros [Hc Ht] E1 E2 E3 E4. split.
  - destruct E4 as [-> | ->]; [done | lia].
  - rewrite E1, E2, E3. apply Ht.
Qed.

Lemma joinRoom_frame a b st :
  timers (joinRoom a b st) = timers st
  ∧ retryTimeoutRef (joinRoom a b st) = retryTimeoutRef st
  ∧ retryCleanup (joinRoom a b st) = retryCleanup st
  ∧ retryCountRef (joinRoom a b st) = retryCountRef st.
Proof. unfold joinRoom. by repeat case_match. Qed.

Lemma inv_handleReconnect st : inv st → inv (handleReconnect st).
Proof.
  intros Hinv. unfold handleReconnect.
  set (st1 := match retryTimeoutRef st with Some _ => _ | None => st end).
  assert (H1 : ∀ t, timers st1 !! t = None).
  { intros t. destruct (timers st1 !! t) as [d|] eqn:Hd; [|done]. exfalso.
    revert Hd. unfold st1. destruct (retryTimeoutRef st) as [t0|] eqn:E; simpl.
    - destruct (decide (t0 = t)) as [->|Hne]; [by rewrite lookup_delete_eq|].
      rewrite lookup_delete_ne by done. intros Hd.
      destruct (inv_timers st Hinv t d Hd) as (? & _). congruence.
    - intros Hd. destruct (inv_timers st Hinv t d Hd) as (? & _). congruence. }
  match goal with |- inv (joinRoom ?a ?b ?s) =>
    destruct (joinRoom_frame a b s) as (J1 & J2 & J3 & J4) end.
  split.
  - rewrite J4. simpl. lia.
  - intros t d. rewrite J1. simpl. by rewrite H1.
Qed.

Lemma inv_handler ev st : inv st → inv (handler ev st).
Proof.
  intros Hinv. destruct ev; cbn [handler];
    try (by eapply inv_frame; [exact Hinv | | | |]; try done; auto).
  - (* the retry timer *)
    unfold retryTimeout. destruct (timers st !! t) as [d|] eqn:Hd; [|done].
    assert (Hinv1 : inv (set_timers (delete t (timers st)) st)).
    { split; [apply Hinv|]. simpl. intros t' d' Hd'.
      apply lookup_delete_Some in Hd' as [Hne Hd'].
      destruct (inv_timers st Hinv t d Hd) as (? & _).
      destruct (inv_timers st Hinv t' d' Hd') as (? & _). congruence. }
    destruct (_ && _); [by apply inv_handleReconnect | done].
  - by apply inv_handleReconnect.
  - (* join on load *)
    unfold joinOnLoad. destruct (_ && _); [|done].
    destruct (joinRoom_frame (isJoining st) (hasJoinedRoom st) st) as (?&?&?&?).
    eapply inv_frame; [exact Hinv | | | |]; auto.
  - (* the acknowledgement *)
    unfold joinRoom_callback. destruct (responseError response);
      (eapply inv_frame; [exact Hinv | | | |]; try done; auto).
  - (* an offer *)
    unfold onOffer. destruct (shouldProcessOffer _);
      (eapply inv_frame; [exact Hinv | | | |]; try done; auto).
Qed.

Lemma inv_step ev st : inv st → inv (step ev st).
Proof. intros Hinv. by apply inv_render, inv_handler. Qed.

Lemma inv_run evs : ∀ st, inv st → inv (run evs st).
Proof.
  induction evs as [|ev evs IH]; intros st Hinv; [done|].
  apply IH. by apply inv_step.
Qed.

Lemma render_hook before st : inv st → hook (render before st) = hook st.
Proof.
  intros Hinv. unfold render. case_bool_decide; [done|].
  destruct (inv_before_effect st Hinv) as (Hidle & _ & Hh & _).
  destruct (autoRetry_spec _ Hidle) as [-> _]. done.
Qed.

(** The effect runs when the connection state the page sees has changed. *)
Lemma render_entering before st :
  inv st →
  Hook.connectionState (hook before) ≠ Hook.connectionState (hook st) →
  let c := Hook.connectionState (hook st) in
  let st' := render before st in
  if bool_decide (c = RTC.Failed ∨ c = RTC.Disconnected) then
    retryCountRef st' = retryCountRef st + 1
    ∧ if bool_decide (retryCountRef st' > 5) then
        status st' = "WebRTC failed after multiple retries" ∧ timers st' = ∅
      else
        ∃ t, retryTimeoutRef st' = Some t
             ∧ timers st' = {[ t := 2000 * retryCountRef st' ]}
  else retryCountRef st' = retryCountRef st ∧ timers st' = ∅.
Proof.
  intros Hinv Hne c st'. unfold st', render.
  assert (Hdeps : autoRetry_deps before ≠ autoRetry_deps st).
  { unfold autoRetry_deps. intros Heq. apply Hne. congruence. }
  rewrite (bool_decide_eq_false_2 _ Hdeps).
  destruct (inv_before_effect st Hinv) as (Hidle & Hc & Hh & _).
  pose proof (autoRetry_spec _ Hidle) as [_ H]. cbn zeta in H.
  rewrite Hh, Hc in H. fold c in H. destruct (bool_decide (c = _ ∨ c = _)).
  - destruct H as [Hn H]. split; [done|].
    destruct (bool_decide (_ > 5)); [by destruct H as (? & ? & _)|].
    destruct H as (? & ? & _). eauto.
  - by destruct H as (? & ? & _).
Qed.

(** C5: a change of the connection state to [failed] or [disconnected]
    adds one to the retry count; if the count is then above 5 no timer is
    scheduled and the status reports the failure, otherwise the one timer
    scheduled has the delay [2000 * count]; [handleReconnect] (the manual
    reconnect) and the callback of a successful join set the count to zero;
    and over every sequence of events a scheduled timer has a delay of
    [2000 * n] for an [n] from 1 to 5. *)
Theorem retry_schedule :
  (∀ st pc c' c,
     inv st →
     c = RTC.Failed ∨ c = RTC.Disconnected →
     Hook.connectionState (hook st) ≠ c →
     Hook.connectionState (hook (step (ConnectionStateChanged pc c') st)) = c →
     let st' := step (ConnectionStateChanged pc c') st in
     retryCountRef st' = retryCountRef st + 1
     ∧ if bool_decide (retryCountRef st' > 5) then
         status st' = "WebRTC failed after multiple retries" ∧ timers st' = ∅
       else
         ∃ t, retryTimeoutRef st' = Some t
              ∧ timers st' = {[ t := 2000 * retryCountRef st' ]})
  ∧ (∀ st, retryCountRef (handleReconnect st) = 0
           ∧ (inv st → retryCountRef (step Reconnect st) = 0))
  ∧ (∀ st response,
       responseError response = None →
       retryCountRef (joinRoom_callback response st) = 0)
  ∧ (∀ roomId evs t d,
       timers (run evs (init roomId)) !! t = Some d →
       ∃ n, 1 ≤ n ≤ 5 ∧ d = 2000 * n).
Proof.
  split_and!.
  - intros st pc c' c Hinv Hc Hne Hin st'.
    set (s1 := handler (ConnectionStateChanged pc c') st).
    assert (Hinv1 : inv s1) by by apply inv_handler.
    assert (Hh : Hook.connectionState (hook s1) = c).
    { rewrite <- Hin. unfold step. fold s1. by rewrite render_hook. }
    pose proof (render_entering st s1 Hinv1) as H. cbn zeta in H.
    rewrite Hh in H. rewrite bool_decide_eq_true_2 in H by done.
    apply H. congruence.
  - intros st. assert (H0 : retryCountRef (handleReconnect st) = 0).
    { unfold handleReconnect.
      match goal with |- retryCountRef (joinRoom ?a ?b ?s) = 0 =>
        destruct (joinRoom_frame a b s) as (_ & _ & _ & ->) end. done. }
    split; [done|]. intros Hinv. unfold step. cbn [handler].
    pose proof (inv_handleReconnect st Hinv) as Hinv1.
    unfold render. case_bool_decide; [done|].
    destruct (inv_before_effect _ Hinv1) as (Hidle & Hc & Hh & _).
    pose proof (autoRetry_spec _ Hidle) as [_ Hspec]. cbn zeta in Hspec.
    rewrite Hh, Hc, H0 in Hspec.
    assert (Hnew : Hook.connectionState (hook (handleReconnect st)) = RTC.New).
    { unfold handleReconnect, joinRoom. by repeat case_match. }
    rewrite Hnew in Hspec. rewrite bool_decide_eq_false_2 in Hspec
      by (by intros [?|?]).
    by destruct Hspec as [-> _].
  - intros st response Hr. unfold joinRoom_callback. by rewrite Hr.
  - intros roomId evs t d Ht.
    pose proof (inv_run evs (init roomId) (inv_init roomId)) as Hinv.
    by destruct (inv_timers _ Hinv t d Ht) as (_ & _ & ?).
Qed.

Lemma retry_schedule_witness :
  retryCountRef (step (ConnectionStateChanged 0 RTC.Disconnected) watching)
    = retryCountRef watching + 1
  ∧ retryCountRef (joinRoom_callback Server.JoinSuccess watching) = 0.
Proof.
  destruct retry_schedule as (Henter & _ & Hjoin & _).
  split.
  - destruct (Henter watching 0%nat RTC.Disconnected RTC.Disconnected) as [Hn _].
    + apply inv_run, inv_init.
    + right. reflexivity.
    + vm_compute. discriminate.
    + vm_compute. reflexivity.
    + exact Hn.
  - apply Hjoin. reflexivity.
Defined.

(** The scenario of the specification, on the code: the connection is lost,
    a reconnect is scheduled after 2000 ms and fires; [handleReconnect] has
    set the count to zero, so when the next connection fails as well the
    next attempt is again scheduled after 2000 ms. *)
Example retry_twice :
  let lost := step (ConnectionStateChanged 0 RTC.Disconnected) watching in
  let again :=
    run [RetryTimeout 0; JoinOnLoad; JoinConnected; JoinAck Server.JoinSuccess;
         HookChanged (Hook.ensurePeerConnection "s" (hook (step (RetryTimeout 0) lost)));
         ConnectionStateChanged 1 RTC.Failed] lost in
  timers lost = {[ 0%nat := 2000 ]}
  ∧ retryCountRef lost = 1
  ∧ retryCountRef (step (RetryTimeout 0) lost) = 0
  ∧ timers again = {[ 1%nat := 2000 ]}
  ∧ retryCountRef again = 1.
Proof. vm_compute. done. Qed.

(** Six changes between [disconnected] and [failed] without a reconnect in
    between: the delays grow to 10000 ms and the sixth change schedules
    nothing. *)
Example retry_exhausted :
  let flap n :=
    run (take n [ConnectionStateChanged 0 RTC.Disconnected;
                 ConnectionStateChanged 0 RTC.Failed;
                 ConnectionStateChanged 0 RTC.Disconnected;
                 ConnectionStateChanged 0 RTC.Failed;
                 ConnectionStateChanged 0 RTC.Disconnected;
                 ConnectionStateChanged 0 RTC.Failed]) watching in
  (map_to_list (timers (flap 1%nat))).*2 = [2000]
  ∧ (map_to_list (timers (flap 2%nat))).*2 = [4000]
  ∧ (map_to_list (timers (flap 5%nat))).*2 = [10000]
  ∧ timers (flap 6%nat) = ∅
  ∧ retryCountRef (flap 6%nat) = 6
  ∧ status (flap 6%nat) = "WebRTC failed after multiple retries".
Proof. vm_compute. done. Qed.

End viewer.

(** ** The signaling server: rooms over their life *)

Section server_lifecycle.
Import Server.
Implicit Types (st : state) (tr : list Action) (sid r v : string) (room : Room).

(** The disconnect handler as a whole: table, Socket.IO rooms and trace. *)
Lemma disconnect_spec sid st :
  wf st →
  rooms (disconnect sid st).1 = omap (survives sid) (rooms st)
  ∧ (∀ ch, members ch (disconnect sid st).1 = members ch st ∖ {[sid]})
  ∧ (disconnect sid st).2
      = flat_map (farewell sid (socket_leave_all sid st)) (rooms st).
Proof.
  intros Hwf. unfold disconnect.
  destruct (disconnect_loop_spec sid (rooms (socket_leave_all sid st)) []
              (socket_leave_all sid st)) as (Hr & Hc & Ht).
  - reflexivity.
  - apply Hwf.
  - split_and!; [exact Hr | | exact Ht].
    intros ch. unfold members at 1. rewrite Hc.
    apply (members_leave_all ch sid st).
Qed.

Lemma survives_Some sid (e e' : string * Room) :
  survives sid e = Some e' →
  e'.1 = e.1 ∧ streamer e'.2 = streamer e.2 ∧ streamer e.2 ≠ sid
  ∧ viewers e'.2 = JsSet.delete sid (viewers e.2).
Proof.
  unfold survives. destruct (decide (streamer e.2 = sid)); [done|].
  destruct (JsSet.has sid (viewers e.2)) eqn:Hhas; intros [= <-].
  - done.
  - split_and!; try done. unfold JsSet.delete.
    apply JsSet_has_false in Hhas. symmetry.
    induction (viewers e.2) as [|y l IH]; [done|].
    apply not_elem_of_cons in Hhas as [? ?].
    rewrite filter_cons, decide_True by done. f_equal. auto.
Qed.

Lemma get_survives sid (l : list (string * Room)) r room :
  JsMap.get r l = Some room →
  streamer room ≠ sid →
  JsMap.get r (omap (survives sid) l)
    = Some {| streamer := streamer room;
              viewers := JsSet.delete sid (viewers room) |}.
Proof.
  intros Hget Hs. induction l as [|[k x] l IH]; [done|].
  cbn [JsMap.get] in Hget. cbn [omap list_omap].
  destruct (decide (k = r)) as [->|Hk].
  - injection Hget as ->.
    destruct (survives sid (r, room)) as [e'|] eqn:He.
    + apply survives_Some in He as (H1 & H2 & _ & H3). cbn in H1, H2, H3.
      destruct e' as [k' [s' v']]. cbn in *. subst.
      by rewrite decide_True.
    + unfold survives in He. cbn in He.
      rewrite decide_False in He by done.
      by destruct (JsSet.has sid (viewers room)).
  - destruct (survives sid (k, x)) as [e'|] eqn:He; [|by apply IH].
    apply survives_Some in He as (H1 & _). cbn in H1.
    destruct e' as [k' x']. cbn in *. subst.
    rewrite decide_False by done. by apply IH.
Qed.

Lemma farewell_removed sid st0 r (l : list (string * Room)) a :
  a ∈ flat_map (farewell sid st0) l →
  is_removed r a = true →
  ∃ room, (r, room) ∈ l ∧ streamer room = sid.
Proof.
  intros Ha Hrem. apply list_elem_of_In, in_flat_map in Ha as ([k x] & Hin & Ha).
  apply list_elem_of_In in Hin, Ha. unfold farewell in Ha. cbn in Ha.
  destruct (decide (streamer x = sid)) as [Hs|].
  - apply elem_of_cons in Ha as [->|Ha]; [done|].
    apply list_elem_of_singleton in Ha as ->. cbn in Hrem.
    apply bool_decide_eq_true in Hrem as ->. by exists x.
  - destruct (JsSet.has sid (viewers x)).
    + apply list_elem_of_singleton in Ha as ->. done.
    + by apply elem_of_nil in Ha.
Qed.

Lemma count_pos p a tr : a ∈ tr → p a = true → (1 ≤ count p tr)%nat.
Proof.
  intros Ha Hp. apply list_elem_of_split in Ha as (l1 & l2 & ->).
  rewrite count_app, count_cons, Hp. lia.
Qed.

(** X1: once the disconnect handler has run for a socket, the socket is the
    streamer of no room and a viewer of no room, and it is in no Socket.IO
    room. *)
Theorem disconnect_forgets_socket st sid :
  wf st →
  let st' := (disconnect sid st).1 in
  (∀ r room, JsMap.get r (rooms st') = Some room →
     streamer room ≠ sid ∧ sid ∉ viewers room)
  ∧ (∀ ch, sid ∉ members ch st').
Proof.
  intros Hwf st'. destruct (disconnect_spec sid st Hwf) as (Hr & Hc & _).
  split.
  - intros r room Hget. subst st'. rewrite Hr in Hget.
    apply survives_get in Hget as (room0 & _ & Hs); [|apply Hwf].
    apply survives_Some in Hs as (_ & Hst & Hne & Hv). cbn in Hst, Hne, Hv.
    split; [congruence|]. rewrite Hv. intros Hin.
    apply JsSet_elem_of_delete in Hin as [? _]. done.
  - intros ch. subst st'. rewrite Hc. intros [_ Hne]%elem_of_difference.
    apply Hne. by apply elem_of_singleton.
Qed.

Lemma disconnect_forgets_socket_witness :
  (∀ r room, JsMap.get r (rooms (disconnect "v0" one_room).1) = Some room →
     streamer room ≠ "v0" ∧ "v0" ∉ viewers room)
  ∧ (∀ ch, "v0" ∉ members ch (disconnect "v0" one_room).1).
Proof.
  apply (disconnect_forgets_socket one_room "v0").
  apply (wf_run _ init wf_init).
Defined.

(** X2: when a viewer of a room disconnects, the room stays in the table
    with the same streamer and without that viewer, no room is closed on its
    account, and [viewer-left] with the viewer's id is sent to the room's
    streamer. *)
Theorem viewer_disconnect_notifies_streamer st sid r room :
  wf st →
  JsMap.get r (rooms st) = Some room →
  streamer room ≠ sid →
  sid ∈ viewers room →
  let st' := (disconnect sid st).1 in
  let tr := (disconnect sid st).2 in
  JsMap.get r (rooms st')
    = Some {| streamer := streamer room;
              viewers := JsSet.delete sid (viewers room) |}
  ∧ removals r tr = 0%nat
  ∧ Emit (streamer room) (ViewerLeft sid)
      (members (streamer room) st ∖ {[sid]}) ∈ tr
  ∧ (streamer room ∈ members (streamer room) st →
     (1 ≤ received (streamer room) (ViewerLeft sid) tr)%nat).
Proof.
  intros Hwf Hget Hs Hv st' tr.
  destruct (disconnect_spec sid st Hwf) as (Hr & Hc & Ht).
  assert (Hin : Emit (streamer room) (ViewerLeft sid)
                  (members (streamer room) st ∖ {[sid]}) ∈ tr).
  { subst tr. rewrite Ht. apply list_elem_of_In, in_flat_map.
    exists (r, room). split.
    - apply list_elem_of_In. by apply JsMap_get_Some_elem.
    - unfold farewell. cbn. rewrite decide_False by done.
      apply JsSet_has_true in Hv. rewrite Hv. left.
      unfold emit_to. f_equal. rewrite members_leave_all.
      apply set_eq. intros y. rewrite !elem_of_difference. tauto. }
  split_and!.
  - subst st'. rewrite Hr. by apply get_survives.
  - subst tr. rewrite Ht. apply count_none. intros a Ha.
    destruct (is_removed r a) eqn:Hrem; [|done].
    destruct (farewell_removed _ _ _ _ _ Ha Hrem) as (room' & Hin' & Hs').
    apply JsMap_elem_get in Hin'; [|apply Hwf]. congruence.
  - exact Hin.
  - intros Hconn. eapply count_pos; [exact Hin|]. cbn.
    rewrite bool_decide_eq_true_2 by done. cbn.
    apply bool_decide_eq_true. apply elem_of_difference. split; [done|].
    intros ?%elem_of_singleton. done.
Qed.

Lemma viewer_disconnect_notifies_streamer_witness :
  JsMap.get "dev-room-001" (rooms (disconnect "v0" one_room).1)
    = Some {| streamer := "s"; viewers := JsSet.delete "v0" ["v0"] |}
  ∧ removals "dev-room-001" (disconnect "v0" one_room).2 = 0%nat
  ∧ (1 ≤ received "s" (ViewerLeft "v0") (disconnect "v0" one_room).2)%nat.
Proof.
  destruct (viewer_disconnect_notifies_streamer one_room "v0" "dev-room-001"
              {| streamer := "s"; viewers := ["v0"] |})
    as (Hget & Hrem & _ & Hrecv).
  - apply (wf_run _ init wf_init).
  - reflexivity.
  - discriminate.
  - apply list_elem_of_singleton. reflexivity.
  - split_and!; [exact Hget | exact Hrem | apply Hrecv].
    vm_compute. reflexivity.
Defined.

Lemma stranger_entry sid st0 (e : string * Room) :
  streamer e.2 ≠ sid → sid ∉ viewers e.2 →
  survives sid e = Some e ∧ farewell sid st0 e = [].
Proof.
  intros Hs Hv. unfold survives, farewell.
  rewrite !decide_False by done.
  apply JsSet_has_false in Hv. by rewrite Hv.
Qed.

Lemma stranger_table sid st0 (l : list (string * Room)) :
  (∀ k x, (k, x) ∈ l → streamer x ≠ sid ∧ sid ∉ viewers x) →
  omap (survives sid) l = l ∧ flat_map (farewell sid st0) l = [].
Proof.
  induction l as [|[k x] l IH]; intros Hl; [done|].
  destruct (Hl k x ltac:(left)) as [Hs Hv].
  destruct (stranger_entry sid st0 (k, x) Hs Hv) as [H1 H2].
  destruct IH as [IH1 IH2]; [intros k' x' ?; apply (Hl k' x'); by right|].
  cbn [omap list_omap flat_map]. by rewrite H1, H2, IH1, IH2.
Qed.

Lemma JsSet_delete_add sid (s : list string) :
  sid ∉ s → JsSet.delete sid (JsSet.add sid s) = s.
Proof.
  intros Hs. unfold JsSet.add.
  pose proof (proj2 (JsSet_has_false sid s) Hs) as ->.
  unfold JsSet.delete. rewrite filter_app, filter_cons, decide_False, filter_nil
    by (intros H; by apply H).
  rewrite app_nil_r. induction s as [|y s IH]; [done|].
  apply not_elem_of_cons in Hs as [? ?].
  rewrite filter_cons, decide_True by done. f_equal. auto.
Qed.

(** The table after a first join, walked by the disconnect loop for the
    socket that joined. *)
Lemma joined_then_left sid st0 r room (l : list (string * Room)) :
  JsMap.get r l = Some room →
  (∀ k x, (k, x) ∈ l → streamer x ≠ sid ∧ sid ∉ viewers x) →
  let l' := JsMap.set r {| streamer := streamer room;
                           viewers := JsSet.add sid (viewers room) |} l in
  omap (survives sid) l' = l
  ∧ flat_map (farewell sid st0) l'
      = [emit_to sid (streamer room) (ViewerLeft sid) st0].
Proof.
  intros Hget Hl l'. subst l'.
  induction l as [|[k x] l IH]; [done|].
  cbn [JsMap.get] in Hget. cbn [JsMap.set].
  destruct (Hl k x ltac:(left)) as [Hs Hv].
  destruct (decide (k = r)) as [->|Hk].
  - injection Hget as ->.
    destruct (stranger_table sid st0 l) as [H1 H2];
      [intros k' x' ?; apply (Hl k' x'); by right|].
    cbn [omap list_omap flat_map]. rewrite H1, H2.
    unfold survives, farewell. cbn [fst snd streamer viewers].
    rewrite !decide_False by done.
    assert (Hhas : JsSet.has sid (JsSet.add sid (viewers room)) = true).
    { apply JsSet_has_true, JsSet_elem_of_add. by left. }
    rewrite Hhas, JsSet_delete_add by done. by destruct room.
  - destruct (stranger_entry sid st0 (k, x) Hs Hv) as [H1 H2].
    destruct IH as [IH1 IH2]; [done | intros k' x' ?; apply (Hl k' x'); by right|].
    cbn [omap list_omap flat_map]. by rewrite H1, H2, IH1, IH2.
Qed.

(** X3: a socket that is in no room joins a room as a viewer and then
    disconnects: the room table is what it was before the join, and the
    room's streamer, if connected, has been sent [viewer-joined] and then
    [viewer-left] for that socket and nothing else. *)
Theorem join_then_disconnect_restores_table st sid r room :
  wf st →
  JsMap.get r (rooms st) = Some room →
  (∀ r' room', JsMap.get r' (rooms st) = Some room' →
     streamer room' ≠ sid ∧ sid ∉ viewers room') →
  let joined := join_room r sid st in
  let left := disconnect sid joined.1 in
  rooms left.1 = rooms st
  ∧ acks (joined.2 ++ left.2) = [JoinSuccess]
  ∧ (streamer room ∈ members (streamer room) st →
     inbox (streamer room) (joined.2 ++ left.2)
       = [ViewerJoined sid; ViewerLeft sid]).
Proof.
  intros Hwf Hget Hfresh joined left.
  destruct (Hfresh r room Hget) as [Hs Hv].
  assert (Hl : ∀ k x, (k, x) ∈ rooms st → streamer x ≠ sid ∧ sid ∉ viewers x).
  { intros k x Hin. apply (Hfresh k x). apply JsMap_elem_get; [apply Hwf | done]. }
  assert (Hwf' : wf joined.1) by (by apply wf_join_room).
  destruct (disconnect_spec sid joined.1 Hwf') as (Hr & _ & Ht).
  fold left in Hr, Ht.
  assert (Hj : joined
    = (socket_join sid r
         (set_rooms (JsMap.set r {| streamer := streamer room;
                                    viewers := JsSet.add sid (viewers room) |}
                       (rooms st)) st),
       [emit_to sid (streamer room) (ViewerJoined sid)
          (socket_join sid r
             (set_rooms (JsMap.set r {| streamer := streamer room;
                                        viewers := JsSet.add sid (viewers room) |}
                           (rooms st)) st));
        Ack JoinSuccess])).
  { subst joined. unfold join_room. rewrite Hget.
    apply JsSet_has_false in Hv. by rewrite Hv. }
  destruct (joined_then_left sid (socket_leave_all sid joined.1) r room
              (rooms st) Hget Hl) as [H1 H2].
  rewrite Hj in Hr, Ht. cbn [fst snd rooms socket_join set_rooms] in Hr, Ht.
  rewrite H1 in Hr.
  rewrite Hj in H2. cbn [fst] in H2. rewrite H2 in Ht.
  split_and!.
  - exact Hr.
  - rewrite Ht, Hj. reflexivity.
  - intros Hconn. rewrite Ht, Hj. cbn [snd app inbox omap list_omap emit_to].
    rewrite !bool_decide_eq_true_2; [reflexivity | |].
    + rewrite members_leave_all.
      apply elem_of_difference. split; [|set_solver].
      apply elem_of_difference. split; [|set_solver].
      by apply members_join_mono.
    + apply elem_of_difference. split; [|set_solver].
      by apply members_join_mono.
Qed.

Lemma join_then_disconnect_restores_table_witness :
  rooms (disconnect "v1" (join_room "dev-room-001" "v1" one_room).1).1
    = rooms one_room
  ∧ inbox "s" ((join_room "dev-room-001" "v1" one_room).2
               ++ (disconnect "v1" (join_room "dev-room-001" "v1" one_room).1).2)
      = [ViewerJoined "v1"; ViewerLeft "v1"].
Proof.
  destruct (join_then_disconnect_restores_table one_room "v1" "dev-room-001"
              {| streamer := "s"; viewers := ["v0"] |})
    as (Hrooms & _ & Hinbox).
  - apply (wf_run _ init wf_init).
  - reflexivity.
  - intros r' room' Hget.
    change (rooms one_room)
      with [("dev-room-001", {| streamer := "s"; viewers := ["v0"] |})] in Hget.
    cbn [JsMap.get] in Hget.
    destruct (decide ("dev-room-001" = r')); [|discriminate].
    injection Hget as <-. split; [discriminate|].
    intros Hin. apply list_elem_of_singleton in Hin. discriminate.
  - split; [exact Hrooms | apply Hinbox]. vm_compute. reflexivity.
Defined.

Lemma disconnect_keeps_room st sid r room :
  wf st →
  JsMap.get r (rooms st) = Some room →
  streamer room ≠ sid →
  JsMap.get r (rooms (disconnect sid st).1)
    = Some {| streamer := streamer room;
              viewers := JsSet.delete sid (viewers room) |}
  ∧ removals r (disconnect sid st).2 = 0%nat.
Proof.
  intros Hwf Hget Hs.
  destruct (disconnect_spec sid st Hwf) as (Hr & _ & Ht). split.
  - rewrite Hr. by apply get_survives.
  - rewrite Ht. apply count_none. intros a Ha.
    destruct (is_removed r a) eqn:Hrem; [|done].
    destruct (farewell_removed _ _ _ _ _ Ha Hrem) as (room' & Hin' & Hs').
    apply JsMap_elem_get in Hin'; [|apply Hwf]. congruence.
Qed.

(** X4: [create-room] puts the caller in the table as the streamer of the
    room id it answers, with an empty viewer set, whatever the table held
    under that id ([dev-room-001] in development mode, always); the other
    rooms are as before.  A socket that streamed in that room before is no
    longer its streamer: when it disconnects, the room stays and is not
    closed. *)
Theorem create_room_takes_over st (dev : bool) (rnd s1 s2 : string) :
  wf st →
  s1 ≠ s2 →
  let roomId := if dev then DEV_ROOM_ID else rnd in
  let created := create_room dev rnd s2 st in
  let gone := disconnect s1 created.1 in
  created.2 = [Ack (RoomCreated roomId)]
  ∧ JsMap.get roomId (rooms created.1)
      = Some {| streamer := s2; viewers := [] |}
  ∧ (∀ r, r ≠ roomId →
       JsMap.get r (rooms created.1) = JsMap.get r (rooms st))
  ∧ JsMap.get roomId (rooms gone.1)
      = Some {| streamer := s2; viewers := [] |}
  ∧ removals roomId gone.2 = 0%nat.
Proof.
  intros Hwf Hne roomId created gone.
  assert (Hget : JsMap.get roomId (rooms created.1)
                 = Some {| streamer := s2; viewers := [] |}).
  { subst created. unfold create_room. cbn [fst rooms socket_join set_rooms].
    apply JsMap_get_set_eq. }
  split_and!.
  - reflexivity.
  - exact Hget.
  - intros r Hr. subst created. unfold create_room.
    cbn [fst rooms socket_join set_rooms]. by apply JsMap_get_set_ne.
  - subst gone.
    apply (disconnect_keeps_room created.1 s1 roomId _
             (wf_create_room dev rnd s2 st Hwf) Hget). cbn. congruence.
  - subst gone.
    apply (disconnect_keeps_room created.1 s1 roomId _
             (wf_create_room dev rnd s2 st Hwf) Hget). cbn. congruence.
Qed.

Lemma create_room_takes_over_witness :
  JsMap.get "dev-room-001" (rooms (create_room true "" "s2" one_room).1)
    = Some {| streamer := "s2"; viewers := [] |}
  ∧ JsMap.get "dev-room-001"
      (rooms (disconnect "s" (create_room true "" "s2" one_room).1).1)
      = Some {| streamer := "s2"; viewers := [] |}
  ∧ removals "dev-room-001"
      (disconnect "s" (create_room true "" "s2" one_room).1).2 = 0%nat.
Proof.
  destruct (create_room_takes_over one_room true "" "s" "s2")
    as (_ & Hnew & _ & Hkept & Hopen).
  - apply (wf_run _ init wf_init).
  - discriminate.
  - split_and!; [exact Hnew | exact Hkept | exact Hopen].
Defined.

(** *** What the relay delivers *)

Lemma run_app reqs1 reqs2 st :
  (run (reqs1 ++ reqs2) st).1 = (run reqs2 (run reqs1 st).1).1.
Proof.
  revert st. induction reqs1 as [|[sid rq] reqs1 IH]; intros st; [done|].
  cbn [app run]. destruct (handle sid rq st) as [st1 tr1] eqn:Hh.
  specialize (IH st1).
  destruct (run (reqs1 ++ reqs2) st1) as [st2 tr2].
  destruct (run reqs1 st1) as [st3 tr3]. cbn [fst] in *. exact IH.
Qed.

(** A socket stays in the Socket.IO room of its own id until it
    disconnects. *)
Lemma connected_handle t sid rq st :
  wf st →
  t ∈ members t st →
  (sid, rq) ≠ (t, Disconnect) →
  t ∈ members t (handle sid rq st).1.
Proof.
  intros Hwf Ht Hne. destruct rq; cbn [handle fst]; try done.
  - by apply members_join_mono.
  - unfold create_room. cbn [fst]. apply members_join_mono.
    by rewrite members_set_rooms.
  - unfold join_room. destruct (JsMap.get roomId (rooms st)); [|done].
    destruct (JsSet.has sid _); [done|]. cbn [fst].
    apply members_join_mono. by rewrite members_set_rooms.
  - destruct (disconnect_spec sid st Hwf) as (_ & Hc & _). rewrite Hc.
    apply elem_of_difference. split; [done|].
    intros ->%elem_of_singleton. done.
Qed.

Lemma connected_run t reqs : ∀ st,
  wf st →
  t ∈ members t st →
  (∀ e, e ∈ reqs → e ≠ (t, Disconnect)) →
  t ∈ members t (run reqs st).1.
Proof.
  induction reqs as [|[sid rq] reqs IH]; intros st Hwf Ht Hne; [done|].
  cbn [run].
  pose proof (connected_handle t sid rq st Hwf Ht (Hne _ ltac:(left))) as Ht1.
  pose proof (wf_handle sid rq st Hwf) as Hwf1.
  destruct (handle sid rq st) as [st1 tr1]. cbn [fst] in *.
  specialize (IH st1 Hwf1 Ht1 (λ e He, Hne e ltac:(by right))).
  destruct (run reqs st1) as [st2 tr2]. exact IH.
Qed.

(** X5: the three negotiation relays ([offer], [answer], [ice-candidate])
    do not change the server's state, and a message addressed to a socket
    that has connected and not disconnected since is delivered to it, tagged
    with the id of the sending socket; the sender is not sent its own
    message. *)
Theorem relay_reaches_connected_target reqs1 reqs2 t s p :
  (∀ e, e ∈ reqs2 → e ≠ (t, Disconnect)) →
  s ≠ t →
  let st := (run (reqs1 ++ (t, Connect) :: reqs2) init).1 in
  (offer t p s st).1 = st
  ∧ (answer t p s st).1 = st
  ∧ (ice_candidate t p s st).1 = st
  ∧ inbox t (offer t p s st).2 = [OfferFrom p s]
  ∧ inbox t (answer t p s st).2 = [AnswerFrom p s]
  ∧ inbox t (ice_candidate t p s st).2 = [IceCandidateFrom p s]
  ∧ inbox s (offer t p s st).2 = []
  ∧ inbox s (answer t p s st).2 = []
  ∧ inbox s (ice_candidate t p s st).2 = [].
Proof.
  intros Hne Hst st.
  assert (Ht : t ∈ members t st).
  { subst st. rewrite run_app. cbn [run handle].
    set (st0 := (run reqs1 init).1).
    assert (Hwf0 : wf st0) by apply (wf_run _ init wf_init).
    pose proof (connected_run t reqs2 (connection t st0)
                  (wf_connection t st0 Hwf0)) as H.
    destruct (run reqs2 (connection t st0)) as [st2 tr2]. cbn [fst] in *.
    apply H; [|exact Hne].
    unfold connection. rewrite members_join, decide_True by done.
    apply elem_of_union_l, elem_of_singleton. reflexivity. }
  assert (Hin : t ∈ members t st ∖ {[s]}).
  { apply elem_of_difference. split; [done|].
    intros ->%elem_of_singleton. done. }
  assert (Hout : s ∉ members t st ∖ {[s]}).
  { intros [_ H]%elem_of_difference. apply H, elem_of_singleton. reflexivity. }
  unfold offer, answer, ice_candidate, emit_to.
  cbn [fst snd inbox omap list_omap].
  rewrite (bool_decide_eq_true_2 _ Hin), (bool_decide_eq_false_2 _ Hout).
  split_and!; reflexivity.
Qed.

Lemma relay_reaches_connected_target_witness :
  inbox "v0"
    (offer "v0" "sdp" "s"
       (run ([("s", Connect); ("s", CreateRoom true "")]
             ++ ("v0", Connect) :: [("v0", JoinRoom "dev-room-001")]) init).1).2
    = [OfferFrom "sdp" "s"]
  ∧ inbox "s"
      (offer "v0" "sdp" "s"
         (run ([("s", Connect); ("s", CreateRoom true "")]
               ++ ("v0", Connect) :: [("v0", JoinRoom "dev-room-001")]) init).1).2
      = [].
Proof.
  destruct (relay_reaches_connected_target
              [("s", Connect); ("s", CreateRoom true "")]
              [("v0", JoinRoom "dev-room-001")] "v0" "s" "sdp")
    as (_ & _ & _ & Hto & _ & _ & Hback & _).
  - intros e He. apply list_elem_of_singleton in He as ->. discriminate.
  - discriminate.
  - split; [exact Hto | exact Hback].
Defined.

(** X6: in every state the server reaches, [stream-paused] and
    [stream-resumed] sent for a room are delivered to every viewer of that
    room other than the sending socket, whoever the sender is (the handlers
    do not look the room up); the sender is not sent the event and the
    server's state is unchanged. *)
Theorem pause_resume_reach_every_viewer reqs r room v sid :
  let st := (run reqs init).1 in
  JsMap.get r (rooms st) = Some room →
  v ∈ viewers room →
  v ≠ sid →
  (stream_paused r sid st).1 = st
  ∧ (stream_resumed r sid st).1 = st
  ∧ inbox v (stream_paused r sid st).2 = [StreamPaused]
  ∧ inbox v (stream_resumed r sid st).2 = [StreamResumed]
  ∧ inbox sid (stream_paused r sid st).2 = []
  ∧ inbox sid (stream_resumed r sid st).2 = [].
Proof.
  intros st Hget Hv Hne.
  assert (Hwf : wf st) by apply (wf_run _ init wf_init).
  assert (Hin : v ∈ members r st ∖ {[sid]}).
  { apply elem_of_difference. split; [by eapply wf_channel|].
    intros ->%elem_of_singleton. done. }
  assert (Hout : sid ∉ members r st ∖ {[sid]}).
  { intros [_ H]%elem_of_difference. apply H, elem_of_singleton. reflexivity. }
  unfold stream_paused, stream_resumed, emit_to.
  cbn [fst snd inbox omap list_omap].
  rewrite (bool_decide_eq_true_2 _ Hin), (bool_decide_eq_false_2 _ Hout).
  split_and!; reflexivity.
Qed.

Lemma pause_resume_reach_every_viewer_witness :
  inbox "v0"
    (stream_paused "dev-room-001" "s"
       (run [("s", Connect); ("s", CreateRoom true "");
             ("v0", Connect); ("v0", JoinRoom "dev-room-001")] init).1).2
    = [StreamPaused]
  ∧ inbox "v0"
      (stream_resumed "dev-room-001" "s"
         (run [("s", Connect); ("s", CreateRoom true "");
               ("v0", Connect); ("v0", JoinRoom "dev-room-001")] init).1).2
      = [StreamResumed].
Proof.
  destruct (pause_resume_reach_every_viewer
              [("s", Connect); ("s", CreateRoom true "");
               ("v0", Connect); ("v0", JoinRoom "dev-room-001")]
              "dev-room-001" {| streamer := "s"; viewers := ["v0"] |} "v0" "s")
    as (_ & _ & Hp & Hr & _).
  - reflexivity.
  - apply list_elem_of_singleton. reflexivity.
  - discriminate.
  - split; [exact Hp | exact Hr].
Defined.

End server_lifecycle.

(** ** The hook over its life *)

Section session.
Import Hook Session.
Implicit Types (st : state) (k : Cont) (o : Outcome).

Lemma addTracks_status pc ex (tracks : list nat) : ∀ st,
  isConnected (addTracks pc ex tracks st) = isConnected st
  ∧ connectionState (addTracks pc ex tracks st) = connectionState st
  ∧ error (addTracks pc ex tracks st) = error st
  ∧ peerConnection (addTracks pc ex tracks st) = peerConnection st
  ∧ (∀ c, c ∈ calls st → c ∈ calls (addTracks pc ex tracks st)).
Proof.
  unfold addTracks. induction tracks as [|t tracks IH]; intros st; [done|].
  cbn [foldl]. destruct (bool_decide (t ∈ ex)); [apply IH|].
  destruct (IH (pc_addTrack pc t st)) as (H1 & H2 & H3 & H4 & H5).
  rewrite H1, H2, H3, H4. split_and!; try done.
  intros c Hc. apply H5. cbn. apply elem_of_app. by left.
Qed.

Lemma cleanup_fold_calls (hs : list nat) : ∀ st,
  (∀ c, c ∈ calls st → c ∈ calls (foldl cleanup_one st hs))
  ∧ (∀ h, h ∈ hs → (h, RTC.CallClose) ∈ calls (foldl cleanup_one st hs))
  ∧ (∀ h, is_Some (pcs (foldl cleanup_one st hs) !! h) ↔ is_Some (pcs st !! h)).
Proof.
  induction hs as [|x hs IH]; intros st.
  - split_and!; [done | by intros h ?%elem_of_nil | done].
  - cbn [foldl]. destruct (IH (cleanup_one st x)) as (H1 & H2 & H3).
    split_and!.
    + intros c Hc. apply H1. cbn. apply elem_of_app. by left.
    + intros h [->|Hh]%elem_of_cons; [|by apply H2].
      apply H1. cbn. apply elem_of_app. right. by apply list_elem_of_singleton.
    + intros h. rewrite H3. cbn. by rewrite !lookup_alter_is_Some.
Qed.

Lemma createPeerConnectionForViewer_status viewerId st :
  isConnected (createPeerConnectionForViewer viewerId st).2 = isConnected st
  ∧ connectionState (createPeerConnectionForViewer viewerId st).2
    = connectionState st.
Proof.
  unfold createPeerConnectionForViewer, newPeerConnection.
  by destruct (JsMap.get viewerId (peerConnections st)).
Qed.

(** X7: the two values the hook reports agree: in every state the hook
    reaches, [isConnected] is true exactly when [connectionState] is
    ["connected"]. *)
Theorem isConnected_iff_connected ops socket isStreamer :
  let st := run ops (init socket isStreamer) in
  isConnected st = bool_decide (connectionState st = RTC.Connected).
Proof.
  cbn zeta. unfold run.
  assert (H0 : isConnected (init socket isStreamer)
               = bool_decide (connectionState (init socket isStreamer)
                              = RTC.Connected)) by done.
  revert H0. generalize (init socket isStreamer).
  induction ops as [|op ops IH]; intros st Hst; [done|].
  cbn [foldl]. apply IH. clear IH.
  assert (Hframe : ∀ st', isConnected st' = isConnected st →
            connectionState st' = connectionState st →
            isConnected st' = bool_decide (connectionState st' = RTC.Connected)).
  { intros st' -> ->. done. }
  destruct op; cbn [apply].
  - unfold createOffer. destruct (negb (Hook.socket st) || _); [exact Hst|].
    destruct (localStream st); [|by apply Hframe].
    destruct (createPeerConnectionForViewer_status viewerId st) as [G1 G2].
    destruct (createPeerConnectionForViewer viewerId st) as [pc st1].
    cbn [snd] in G1, G2. cbn [createOffer_catch fst].
    destruct (addTracks_status pc (default [] (RTC.senders <$> pcs st1 !! pc))
                (getTracks m) st1) as (H1 & H2 & _).
    apply Hframe.
    + change (isConnected (pc_call pc RTC.CallCreateOffer ?h))
        with (isConnected h). by rewrite H1.
    + change (connectionState (pc_call pc RTC.CallCreateOffer ?h))
        with (connectionState h). by rewrite H2.
  - apply Hframe; unfold createAnswer, createAnswer_try, ensurePeerConnection,
      dropTerminal, newPeerConnection; repeat case_match; simplify_eq; done.
  - apply Hframe; unfold handleAnswer; repeat case_match; simplify_eq; done.
  - apply Hframe; unfold handleIceCandidate; repeat case_match; simplify_eq; done.
  - apply Hframe; destruct k, o; cbn; repeat case_match; simplify_eq; done.
  - unfold connectionstatechange.
    set (st1 := pc_update (RTC.set_connectionState c) pc st).
    assert (Hst1 : isConnected st1
                   = bool_decide (connectionState st1 = RTC.Connected)) by done.
    clearbody st1. clear Hst Hframe.
    unfold onconnectionstatechange_viewer, onconnectionstatechange_streamer.
    repeat case_match; simplify_eq; cbn; done.
  - apply Hframe; unfold track; repeat case_match; done.
  - apply Hframe; unfold icecandidate; repeat case_match; done.
  - apply Hframe; unfold startLocalStream, startLocalStream_catch;
      repeat case_match; done.
  - apply Hframe; unfold stopLocalStream; by case_match.
  - done.
  - unfold cleanupViewerConnection.
    destruct (JsMap.get viewerId (peerConnections st)); [|exact Hst].
    cbv zeta. destruct (Hook.isStreamer _); [|by apply Hframe].
    repeat case_match; done.
  - exact Hst.
Qed.

(** *** No connection is lost *)

Lemma framed_leakfree st st' : framed st st' → leakfree st → leakfree st'.
Proof.
  intros (Hp & Ht & Hs & Hc) Hst h Hh.
  destruct (Hst h (Hs h Hh)) as [Hheld|Hrel].
  - left. unfold held. by rewrite Hp, Ht.
  - right. by apply Hc.
Qed.

Lemma framed_trans st1 st2 st3 : framed st1 st2 → framed st2 st3 → framed st1 st3.
Proof.
  intros (Hp & Ht & Hs & Hc) (Hp' & Ht' & Hs' & Hc').
  split_and!; [congruence | congruence | auto | auto].
Qed.

Ltac solve_framed :=
  unfold framed; cbn -[lookup alter insert]; split_and!;
  [ reflexivity | reflexivity
  | let Hh := fresh "Hh" in
    intros ? Hh; repeat (rewrite lookup_alter_is_Some in Hh); exact Hh
  | intros ? ?; rewrite ?elem_of_app; tauto ].

Lemma framed_addTracks pc ex (tracks : list nat) st :
  framed st (addTracks pc ex tracks st).
Proof.
  destruct (addTracks_status pc ex tracks st) as (_ & _ & _ & H4 & H5).
  destruct (addTracks_frame pc ex tracks st) as (_ & _ & _ & _ & H6 & _ & _ & H8).
  split_and!; [done | done | by intros h ?%H8 | done].
Qed.

Lemma framed_resume k o st : framed st (resume k o st).1.
Proof.
  destruct k, o; cbn -[lookup alter insert];
    repeat case_match; simplify_eq; solve_framed.
Qed.

Lemma leakfree_createPeerConnectionForViewer viewerId st :
  leakfree st → leakfree (createPeerConnectionForViewer viewerId st).2.
Proof.
  intros Hst h. unfold createPeerConnectionForViewer, newPeerConnection.
  destruct (JsMap.get viewerId (peerConnections st)) as [old|] eqn:Hold;
    cbn -[lookup alter insert JsMap.get JsMap.set JsMap.delete];
    rewrite !lookup_alter_is_Some;
    intros [->|Hh]%lookup_insert_is_Some'.
  - left. right. exists viewerId. apply JsMap_get_set_eq.
  - rewrite lookup_alter_is_Some in Hh.
    destruct (Hst h Hh) as [[Hp|[w Hw]]|Hrel].
    + left. by left.
    + destruct (decide (w = viewerId)) as [->|Hne].
      * right. unfold released. cbn. apply elem_of_app. right.
        apply list_elem_of_singleton. congruence.
      * left. right. exists w. cbn -[JsMap.get JsMap.set JsMap.delete].
        rewrite JsMap_get_set_ne, JsMap_get_delete_ne by done. exact Hw.
    + right. unfold released. cbn. apply elem_of_app. by left.
  - left. right. exists viewerId. apply JsMap_get_set_eq.
  - destruct (Hst h Hh) as [[Hp|[w Hw]]|Hrel].
    + left. by left.
    + left. right. exists w. cbn -[JsMap.get JsMap.set JsMap.delete].
      rewrite JsMap_get_set_ne; [done|]. intros <-. congruence.
    + by right.
Qed.

Lemma leakfree_createOffer viewerId st :
  leakfree st → leakfree (createOffer viewerId st).1.
Proof.
  intros Hst. unfold createOffer.
  destruct (negb (socket st) || negb (isStreamer st)); [done|].
  destruct (localStream st) as [stream|];
    [|eapply framed_leakfree; [solve_framed | done]].
  pose proof (leakfree_createPeerConnectionForViewer viewerId st Hst) as H1.
  destruct (createPeerConnectionForViewer viewerId st) as [pc st1].
  cbn [snd] in H1. cbn [createOffer_catch fst].
  eapply framed_leakfree; [|exact H1].
  eapply framed_trans; [apply framed_addTracks | solve_framed].
Qed.

Lemma leakfree_createAnswer offer streamerId st :
  leakfree st → leakfree (createAnswer offer streamerId st).1.
Proof.
  intros Hst. unfold createAnswer.
  destruct (bool_decide (streamerId ∈ processingOffers st)); [done|].
  assert (H1 : leakfree (dropTerminal st)).
  { unfold dropTerminal. destruct (peerConnection st) as [pc|] eqn:Hpc; [|done].
    destruct (isTerminal _); [|done].
    intros h Hh. cbn -[lookup alter] in Hh. rewrite lookup_alter_is_Some in Hh.
    destruct (Hst h Hh) as [[Hp|[w Hw]]|Hrel].
    - right. unfold released. cbn. apply elem_of_app. right.
      apply list_elem_of_singleton. congruence.
    - left. right. by exists w.
    - right. unfold released. cbn. apply elem_of_app. by left. }
  generalize dependent (dropTerminal st). clear st Hst. intros st Hst.
  assert (H2 : leakfree (ensurePeerConnection streamerId st)).
  { unfold ensurePeerConnection, newPeerConnection.
    destruct (peerConnection st) as [pc|] eqn:Hpc; [done|].
    intros h. cbn -[lookup alter insert]. rewrite !lookup_alter_is_Some.
    intros [->|Hh]%lookup_insert_is_Some'; [left; by left|].
    destruct (Hst h Hh) as [[Hp|[w Hw]]|Hrel].
    - congruence.
    - left. right. by exists w.
    - by right. }
  generalize dependent (ensurePeerConnection streamerId st). clear st Hst.
  intros st Hst.
  eapply framed_leakfree; [|exact Hst].
  unfold createAnswer_try. repeat case_match; simplify_eq; solve_framed.
Qed.

Lemma leakfree_cleanup st : leakfree st → leakfree (cleanup st).
Proof.
  intros Hst h Hh. right. unfold cleanup in *.
  set (st1 := match localStream st with
              | Some stream => set_localStream None (stopTracks stream st)
              | None => st
              end) in *.
  assert (F1 : framed st st1)
    by (unfold st1; destruct (localStream st); solve_framed).
  set (st2 := match peerConnection st1 with
              | Some pc => _
              | None => st1
              end) in *.
  assert (F2 : peerConnections st2 = peerConnections st
               ∧ (∀ h, is_Some (pcs st2 !! h) → is_Some (pcs st !! h))
               ∧ (∀ c, c ∈ calls st → c ∈ calls st2)
               ∧ (∀ pc, peerConnection st = Some pc →
                        (pc, RTC.CallClose) ∈ calls st2)).
  { destruct F1 as (Hp & Ht & Hs & Hc). subst st2.
    destruct (peerConnection st1) as [pc|] eqn:Hpc.
    - cbn -[lookup alter]. split_and!; [done | | |].
      + intros x Hx. rewrite !lookup_alter_is_Some in Hx. auto.
      + intros c Hc'. apply elem_of_app. left. auto.
      + intros pc' Hpc'. apply elem_of_app. right.
        apply list_elem_of_singleton. congruence.
    - split_and!; [done | done | done |]. congruence. }
  destruct F2 as (Ht & Hs & Hc & Hv).
  destruct (cleanup_fold_calls (JsMap.values (peerConnections st2)) st2)
    as (G1 & G2 & G3).
  cbn -[lookup] in Hh. apply G3, Hs in Hh.
  unfold released. cbn.
  destruct (Hst h Hh) as [[Hp|[w Hw]]|Hrel].
  - apply G1, Hv, Hp.
  - apply G2. rewrite Ht. apply JsMap_get_Some_elem in Hw.
    unfold JsMap.values. apply list_elem_of_fmap. by exists (w, h).
  - apply G1, Hc, Hrel.
Qed.

Lemma leakfree_cleanupViewerConnection viewerId st :
  leakfree st → leakfree (cleanupViewerConnection viewerId st).
Proof.
  intros Hst. unfold cleanupViewerConnection.
  destruct (JsMap.get viewerId (peerConnections st)) as [pc|] eqn:Hpc; [|done].
  cbv zeta.
  set (st2 := set_peerConnections _ (pc_close pc st)).
  assert (H2 : leakfree st2).
  { intros h Hh. subst st2.
    cbn -[lookup alter JsMap.get JsMap.set JsMap.delete] in Hh.
    rewrite lookup_alter_is_Some in Hh.
    destruct (Hst h Hh) as [[Hp|[w Hw]]|Hrel].
    - left. by left.
    - destruct (decide (w = viewerId)) as [->|Hne].
      + right. unfold released. cbn. apply elem_of_app. right.
        apply list_elem_of_singleton. congruence.
      + left. right. exists w. cbn -[JsMap.get JsMap.set JsMap.delete].
        rewrite JsMap_get_delete_ne by done. exact Hw.
    - right. unfold released. cbn. apply elem_of_app. by left. }
  clearbody st2.
  eapply framed_leakfree; [|exact H2].
  repeat case_match; solve_framed.
Qed.

Lemma leakfree_apply op st : leakfree st → leakfree (apply op st).
Proof.
  intros Hst. destruct op; cbn [apply].
  - by apply leakfree_createOffer.
  - by apply leakfree_createAnswer.
  - eapply framed_leakfree; [|exact Hst].
    unfold handleAnswer. repeat case_match; simplify_eq; solve_framed.
  - eapply framed_leakfree; [|exact Hst].
    unfold handleIceCandidate. repeat case_match; simplify_eq; solve_framed.
  - eapply framed_leakfree; [apply framed_resume | exact Hst].
  - eapply framed_leakfree; [|exact Hst].
    unfold connectionstatechange, onconnectionstatechange_viewer,
      onconnectionstatechange_streamer.
    repeat case_match; simplify_eq; solve_framed.
  - eapply framed_leakfree; [|exact Hst].
    unfold track. repeat case_match; solve_framed.
  - eapply framed_leakfree; [|exact Hst].
    unfold icecandidate. repeat case_match; solve_framed.
  - eapply framed_leakfree; [|exact Hst].
    unfold startLocalStream, startLocalStream_catch.
    repeat case_match; solve_framed.
  - eapply framed_leakfree; [|exact Hst].
    unfold stopLocalStream. case_match; solve_framed.
  - by apply leakfree_cleanup.
  - by apply leakfree_cleanupViewerConnection.
  - eapply framed_leakfree; [solve_framed | exact Hst].
Qed.

(** X8: no connection is lost.  In every state the hook reaches, each
    [RTCPeerConnection] it has created is still reachable through a ref
    ([peerConnection.current] or the [peerConnections] table), or [close()]
    has been called on it. *)
Theorem no_connection_is_lost ops socket isStreamer h :
  let st := run ops (init socket isStreamer) in
  is_Some (pcs st !! h) →
  peerConnection st = Some h
  ∨ (∃ viewerId, JsMap.get viewerId (peerConnections st) = Some h)
  ∨ (h, RTC.CallClose) ∈ calls st.
Proof.
  intros st Hh.
  assert (Hall : leakfree st).
  { subst st. clear Hh. unfold run.
    assert (H0 : leakfree (init socket isStreamer)).
    { intros x Hx. cbn in Hx. rewrite lookup_empty in Hx. by destruct Hx. }
    revert H0. generalize (init socket isStreamer).
    induction ops as [|op ops IH]; intros s Hs; [done|].
    cbn [foldl]. apply IH. exact (leakfree_apply op s Hs). }
  destruct (Hall h Hh) as [[?|?]|?]; auto.
Qed.

Lemma no_connection_is_lost_witness :
  peerConnection (run [CreateAnswer "offer" "s"; Cleanup] (init true false))
    = Some 0
  ∨ (∃ viewerId,
       JsMap.get viewerId
         (peerConnections
            (run [CreateAnswer "offer" "s"; Cleanup] (init true false)))
       = Some 0)
  ∨ (0, RTC.CallClose)
      ∈ calls (run [CreateAnswer "offer" "s"; Cleanup] (init true false)).
Proof.
  apply (no_connection_is_lost [CreateAnswer "offer" "s"; Cleanup] true false 0).
  vm_compute. eexists. reflexivity.
Defined.

(** *** An offer, from the call to the answer *)

Lemma foldl_addTrack (tracks : list nat) : ∀ conn,
  foldl (λ c t, RTC.addTrack t c) conn tracks
  = {| RTC.connectionState := RTC.connectionState conn;
       RTC.signalingState := RTC.signalingState conn;
       RTC.onconnectionstatechange := RTC.onconnectionstatechange conn;
       RTC.onicecandidate := RTC.onicecandidate conn;
       RTC.onicecandidateerror := RTC.onicecandidateerror conn;
       RTC.ontrack := RTC.ontrack conn;
       RTC.senders := RTC.senders conn ++ tracks |}.
Proof.
  induction tracks as [|t tracks IH]; intros conn.
  - cbn. rewrite app_nil_r. by destruct conn.
  - cbn [foldl]. rewrite IH. cbn. by rewrite <- app_assoc.
Qed.

Lemma addTracks_fresh pc (tracks : list nat) : ∀ st conn,
  pcs st !! pc = Some conn →
  let st' := addTracks pc [] tracks st in
  pcs st' !! pc = Some (foldl (λ c t, RTC.addTrack t c) conn tracks)
  ∧ calls st' = calls st ++ ((λ t, (pc, RTC.CallAddTrack t)) <$> tracks)
  ∧ emitted st' = emitted st ∧ error st' = error st
  ∧ socket st' = socket st ∧ isStreamer st' = isStreamer st
  ∧ peerConnections st' = peerConnections st.
Proof.
  unfold addTracks. induction tracks as [|t tracks IH]; intros st conn Hpc.
  - cbn. rewrite app_nil_r. done.
  - cbn [foldl]. rewrite bool_decide_eq_false_2 by apply not_elem_of_nil.
    destruct (IH (pc_addTrack pc t st) (RTC.addTrack t conn))
      as (H1 & H2 & H3 & H4 & H5 & H6 & H7).
    { cbn -[lookup alter]. by rewrite lookup_alter_eq, Hpc. }
    cbn zeta. rewrite H1, H2, H3, H4, H5, H6, H7. split_and!; try done.
    cbn. by rewrite <- app_assoc.
Qed.

(** What [createOffer] has done when it reaches its first [await]. *)
Lemma createOffer_state viewerId stream st :
  socket st = true → isStreamer st = true → localStream st = Some stream →
  ∃ st',
    createOffer viewerId st = (st', Some (OfferCreating viewerId (nextPc st)))
    ∧ socket st' = true ∧ isStreamer st' = true
    ∧ emitted st' = emitted st ∧ error st' = error st
    ∧ JsMap.get viewerId (peerConnections st') = Some (nextPc st)
    ∧ pcs st' !! nextPc st
      = Some {| RTC.connectionState := RTC.New;
                RTC.signalingState := RTC.Stable;
                RTC.onconnectionstatechange :=
                  Some (RTC.OfViewerConnection viewerId);
                RTC.onicecandidate := Some viewerId;
                RTC.onicecandidateerror := Some viewerId;
                RTC.ontrack := false;
                RTC.senders := getTracks stream |}.
Proof.
  intros Hsock Hstr Hls. unfold createOffer. rewrite Hsock, Hstr, Hls.
  cbn [negb orb].
  destruct (createPeerConnectionForViewer viewerId st) as [pc st1] eqn:Hc.
  assert (Hst1 : pc = nextPc st
    ∧ socket st1 = true ∧ isStreamer st1 = true
    ∧ emitted st1 = emitted st ∧ error st1 = error st
    ∧ JsMap.get viewerId (peerConnections st1) = Some (nextPc st)
    ∧ pcs st1 !! nextPc st
      = Some {| RTC.connectionState := RTC.New;
                RTC.signalingState := RTC.Stable;
                RTC.onconnectionstatechange :=
                  Some (RTC.OfViewerConnection viewerId);
                RTC.onicecandidate := Some viewerId;
                RTC.onicecandidateerror := Some viewerId;
                RTC.ontrack := false;
                RTC.senders := [] |}).
  { unfold createPeerConnectionForViewer, newPeerConnection in Hc.
    destruct (JsMap.get viewerId (peerConnections st));
      injection Hc as <- <-;
      cbn -[lookup alter insert JsMap.get JsMap.set JsMap.delete];
      rewrite !lookup_alter_eq, lookup_insert_eq, JsMap_get_set_eq; done. }
  destruct Hst1 as (-> & H1 & H2 & H3 & H4 & H5 & H6).
  rewrite H6. cbn [fmap option_fmap option_map default RTC.senders].
  destruct (addTracks_fresh (nextPc st) (getTracks stream) st1 _ H6)
    as (G1 & G2 & G3 & G4 & G5 & G6 & G7).
  rewrite foldl_addTrack in G1. cbn in G1.
  eexists. split; [reflexivity|].
  cbn -[lookup]. rewrite G1, G3, G4, G5, G6, G7. done.
Qed.

(** X9: on a streamer-side hook with a socket and a local stream,
    [createOffer(viewerId)] leaves in the table, for that viewer, a new
    connection that carries every track of the local stream, in order and
    once, and whose ICE candidates are sent to that viewer (the null
    candidate that ends gathering is not sent).  If [createOffer()] is then
    rejected, the message is recorded as the error and no offer is sent;
    the connection stays in the table and is not closed. *)
Theorem createOffer_builds_session viewerId stream st :
  socket st = true →
  isStreamer st = true →
  localStream st = Some stream →
  let started := createOffer viewerId st in
  let pc := nextPc st in
  started.2 = Some (OfferCreating viewerId pc)
  ∧ JsMap.get viewerId (peerConnections started.1) = Some pc
  ∧ RTC.senders <$> pcs started.1 !! pc = Some (getTracks stream)
  ∧ pc_connectionState pc started.1 = Some RTC.New
  ∧ (∀ c, emitted (icecandidate pc (Some c) started.1)
          = emitted st ++ [EmitIceCandidate c viewerId])
  ∧ emitted (icecandidate pc None started.1) = emitted st
  ∧ (∀ m, let failed := resume (OfferCreating viewerId pc) (Rejected m) started.1 in
       failed.2 = None
       ∧ error failed.1 = Some (messageOr "Failed to create Offer" m)
       ∧ emitted failed.1 = emitted st
       ∧ JsMap.get viewerId (peerConnections failed.1) = Some pc
       ∧ pc_connectionState pc failed.1 = Some RTC.New
       ∧ calls failed.1 = calls started.1).
Proof.
  intros Hsock Hstr Hls started pc.
  destruct (createOffer_state viewerId stream st Hsock Hstr Hls)
    as (st' & Hco & H1 & H2 & H3 & H4 & H5 & H6).
  subst started pc. rewrite Hco. cbn [fst snd].
  unfold pc_connectionState, icecandidate. rewrite H6. cbn [RTC.onicecandidate].
  rewrite H1. cbn. rewrite H3, H5. unfold pc_connectionState. rewrite H6.
  split_and!; done.
Qed.

Lemma createOffer_builds_session_witness :
  (createOffer "v1"
     (set_localStream (Some {| getTracks := [0; 1]; getVideoTracks := [0] |})
        (init true true))).2
    = Some (OfferCreating "v1" 0)
  ∧ RTC.senders
      <$> pcs (createOffer "v1"
                 (set_localStream
                    (Some {| getTracks := [0; 1]; getVideoTracks := [0] |})
                    (init true true))).1 !! 0
    = Some [0; 1].
Proof.
  destruct (createOffer_builds_session "v1"
              {| getTracks := [0; 1]; getVideoTracks := [0] |}
              (set_localStream
                 (Some {| getTracks := [0; 1]; getVideoTracks := [0] |})
                 (init true true)))
    as (Hk & _ & Hsenders & _); [reflexivity | reflexivity | reflexivity |].
  split; [exact Hk | exact Hsenders].
Defined.

(** X10: the negotiation on the streamer's side, every awaited operation
    succeeding and nothing else running meanwhile: [createOffer] sends one
    offer, to the viewer, and leaves the viewer's connection in
    [have-local-offer]; [handleAnswer] for the same viewer then sets the
    answer on that connection and brings it back to [stable]; no error is
    recorded and nothing else is sent. *)
Theorem offer_answer_round_trip viewerId stream offer answer x y st :
  socket st = true →
  isStreamer st = true →
  localStream st = Some stream →
  let offered := settle_all [Fulfilled offer; Fulfilled x] (createOffer viewerId st) in
  let answered := settle_all [Fulfilled y] (handleAnswer answer viewerId offered.1) in
  offered.2 = None
  ∧ emitted offered.1 = emitted st ++ [EmitOffer offer viewerId]
  ∧ pc_signalingState (nextPc st) offered.1 = Some RTC.HaveLocalOffer
  ∧ answered.2 = None
  ∧ pc_signalingState (nextPc st) answered.1 = Some RTC.Stable
  ∧ remoteDescriptions (calls answered.1)
    = remoteDescriptions (calls st) ++ [(nextPc st, answer)]
  ∧ emitted answered.1 = emitted offered.1
  ∧ error answered.1 = error st.
Proof.
  intros Hsock Hstr Hls offered answered.
  destruct (createOffer_state viewerId stream st Hsock Hstr Hls)
    as (st' & Hco & H1 & H2 & H3 & H4 & H5 & H6).
  assert (Hcalls : remoteDescriptions (calls st') = remoteDescriptions (calls st)).
  { pose proof Hco as Hco'. unfold createOffer in Hco'.
    rewrite Hsock, Hstr, Hls in Hco'. cbn [negb orb] in Hco'.
    destruct (createPeerConnectionForViewer viewerId st) as [pc st1] eqn:Hc.
    injection Hco' as <- ->.
    assert (Hsnd : RTC.senders <$> pcs st1 !! nextPc st = Some []).
    { unfold createPeerConnectionForViewer, newPeerConnection in Hc.
      destruct (JsMap.get viewerId (peerConnections st));
        injection Hc as <-;
        cbn -[lookup alter insert JsMap.get JsMap.set JsMap.delete];
        by rewrite !lookup_alter_eq, lookup_insert_eq. }
    destruct (pcs st1 !! nextPc st) as [conn|] eqn:Hconn; [|done].
    injection Hsnd as Hsnd. cbn [fmap option_fmap option_map default].
    rewrite Hsnd.
    destruct (addTracks_fresh (nextPc st) (getTracks stream) st1 conn Hconn)
      as (_ & G2 & _).
    cbn. rewrite G2. unfold remoteDescriptions. rewrite !omap_app.
    assert (Hnone : ∀ l : list nat,
              omap (λ c : nat * RTC.Call,
                      match c with
                      | (pc, RTC.CallSetRemoteDescription sdp) => Some (pc, sdp)
                      | _ => None
                      end) ((λ t, (nextPc st, RTC.CallAddTrack t)) <$> l) = []).
    { induction l; [done|]. cbn. done. }
    rewrite Hnone. cbn. rewrite !app_nil_r.
    unfold createPeerConnectionForViewer, newPeerConnection in Hc.
    destruct (JsMap.get viewerId (peerConnections st));
      injection Hc as <-; cbn; [|done].
    rewrite omap_app. cbn. by rewrite app_nil_r. }
  subst offered answered. rewrite Hco.
  cbn [settle_all resume createOffer_catch fst snd].
  set (st1 := emit _ _).
  assert (Hst1 : isStreamer st1 = true
    ∧ JsMap.get viewerId (peerConnections st1) = Some (nextPc st)
    ∧ pc_signalingState (nextPc st) st1 = Some RTC.HaveLocalOffer
    ∧ emitted st1 = emitted st ++ [EmitOffer offer viewerId]
    ∧ error st1 = error st
    ∧ remoteDescriptions (calls st1) = remoteDescriptions (calls st)).
  { subst st1. unfold pc_signalingState. cbn -[lookup alter].
    rewrite lookup_alter_eq, H6, H2, H3, H4, H5. split_and!; try done.
    unfold remoteDescriptions in *. rewrite omap_app, Hcalls. cbn.
    by rewrite app_nil_r. }
  clearbody st1. destruct Hst1 as (G1 & G2 & G3 & G4 & G5 & G6).
  unfold handleAnswer. rewrite G1, G2. cbn [negb handle_catch settle_all resume fst snd].
  unfold pc_signalingState in *. cbn -[lookup alter].
  rewrite lookup_alter_eq.
  destruct (pcs st1 !! nextPc st) as [conn|]; [|done].
  split_and!; try done.
  unfold remoteDescriptions in *. rewrite omap_app, G6. done.
Qed.

Lemma offer_answer_round_trip_witness :
  emitted
    (settle_all [Fulfilled "offer"; Fulfilled ""]
       (createOffer "v1"
          (set_localStream (Some {| getTracks := [0; 1]; getVideoTracks := [0] |})
             (init true true)))).1
    = emitted
        (set_localStream (Some {| getTracks := [0; 1]; getVideoTracks := [0] |})
           (init true true))
      ++ [EmitOffer "offer" "v1"]
  ∧ pc_signalingState
      (nextPc
         (set_localStream (Some {| getTracks := [0; 1]; getVideoTracks := [0] |})
            (init true true)))
      (settle_all [Fulfilled ""]
         (handleAnswer "answer" "v1"
            (settle_all [Fulfilled "offer"; Fulfilled ""]
               (createOffer "v1"
                  (set_localStream
                     (Some {| getTracks := [0; 1]; getVideoTracks := [0] |})
                     (init true true)))).1)).1
    = Some RTC.Stable.
Proof.
  destruct (offer_answer_round_trip "v1"
              {| getTracks := [0; 1]; getVideoTracks := [0] |}
              "offer" "answer" "" ""
              (set_localStream
                 (Some {| getTracks := [0; 1]; getVideoTracks := [0] |})
                 (init true true)))
    as (_ & Hoffer & _ & _ & Hstable & _);
    [reflexivity | reflexivity | reflexivity |].
  split; [exact Hoffer | exact Hstable].
Defined.

(** *** An answer, from the offer to the reply *)

Lemma session_frame streamerId st :
  let st2 := ensurePeerConnection streamerId (dropTerminal st) in
  socket st2 = socket st ∧ emitted st2 = emitted st ∧ error st2 = error st
  ∧ processingOffers st2 = processingOffers st
  ∧ is_Some (peerConnection st2).
Proof.
  unfold ensurePeerConnection, dropTerminal, newPeerConnection.
  repeat case_match; simplify_eq; cbn in *; split_and!; done.
Qed.

Lemma createAnswer_begins offer streamerId pc st :
  streamerId ∉ processingOffers st →
  let session := ensurePeerConnection streamerId (dropTerminal st) in
  peerConnection session = Some pc →
  pc_signalingState pc session = Some RTC.Stable →
  createAnswer offer streamerId st
  = (pc_call pc (RTC.CallSetRemoteDescription offer)
       (set_processingOffers ({[streamerId]} ∪ processingOffers session) session),
     Some (AnswerSettingRemote streamerId pc)).
Proof.
  intros Hguard session Hpc Hsig. unfold createAnswer.
  rewrite bool_decide_eq_false_2 by done. fold session. clearbody session.
  unfold createAnswer_try.
  change (peerConnection (set_processingOffers _ session))
    with (peerConnection session).
  rewrite Hpc.
  change (pc_signalingState pc (set_processingOffers _ session))
    with (pc_signalingState pc session).
  rewrite Hsig, bool_decide_eq_false_2 by (intros H; by apply H).
  reflexivity.
Qed.

Lemma resume_AnswerSettingRemote streamerId pc x st :
  peerConnection st = Some pc →
  resume (AnswerSettingRemote streamerId pc) (Fulfilled x) st
  = (pc_call pc RTC.CallCreateAnswer
       (pc_update (RTC.set_signalingState RTC.HaveRemoteOffer) pc st),
     Some (AnswerCreating streamerId pc)).
Proof.
  intros Hpc. unfold resume.
  change (peerConnection (pc_update _ pc st)) with (peerConnection st).
  rewrite Hpc. reflexivity.
Qed.

Lemma resume_AnswerCreating streamerId pc answer st :
  peerConnection st = Some pc →
  resume (AnswerCreating streamerId pc) (Fulfilled answer) st
  = (pc_call pc (RTC.CallSetLocalDescription answer) st,
     Some (AnswerSettingLocal streamerId pc answer)).
Proof. intros Hpc. unfold resume. rewrite Hpc. reflexivity. Qed.

Lemma resume_AnswerSettingLocal streamerId pc answer y st :
  socket st = true →
  resume (AnswerSettingLocal streamerId pc answer) (Fulfilled y) st
  = (set_processingOffers (processingOffers st ∖ {[streamerId]})
       (emit (EmitAnswer answer streamerId)
          (pc_update (RTC.set_signalingState RTC.Stable) pc st)),
     None).
Proof.
  intros Hsock. unfold resume.
  change (socket (pc_update _ pc st)) with (socket st).
  rewrite Hsock. reflexivity.
Qed.

(** X11: a first offer on the viewer's side, every awaited operation
    succeeding and nothing else running meanwhile.  When the streamer is not
    in the guard set and the connection the call finds or makes is [stable],
    [createAnswer] calls [setRemoteDescription(offer)], [createAnswer()] and
    [setLocalDescription(answer)] on that connection, in this order, sends
    one answer, to the streamer, and ends with the connection [stable], the
    guard set as before and no error recorded. *)
Theorem createAnswer_sends_answer offer streamerId answer x y pc st :
  socket st = true →
  streamerId ∉ processingOffers st →
  let session := ensurePeerConnection streamerId (dropTerminal st) in
  peerConnection session = Some pc →
  pc_signalingState pc session = Some RTC.Stable →
  let final :=
    settle_all [Fulfilled x; Fulfilled answer; Fulfilled y]
      (createAnswer offer streamerId st) in
  final.2 = None
  ∧ emitted final.1 = emitted st ++ [EmitAnswer answer streamerId]
  ∧ calls final.1
    = calls session
      ++ [(pc, RTC.CallSetRemoteDescription offer); (pc, RTC.CallCreateAnswer);
          (pc, RTC.CallSetLocalDescription answer)]
  ∧ pc_signalingState pc final.1 = Some RTC.Stable
  ∧ peerConnection final.1 = Some pc
  ∧ processingOffers final.1 = processingOffers st
  ∧ error final.1 = error st.
Proof.
  intros Hsock Hguard session Hpc Hsig final.
  destruct (session_frame streamerId st) as (F1 & F2 & F3 & F4 & _).
  fold session in F1, F2, F3, F4.
  subst final.
  rewrite (createAnswer_begins offer streamerId pc st Hguard Hpc Hsig).
  fold session. clearbody session.
  cbn [settle_all].
  rewrite resume_AnswerSettingRemote by exact Hpc.
  rewrite resume_AnswerCreating by exact Hpc.
  rewrite resume_AnswerSettingLocal by (by rewrite <- Hsock, <- F1).
  unfold pc_signalingState in *.
  destruct (pcs session !! pc) as [conn|] eqn:Hconn; [|done].
  cbn -[lookup alter union difference].
  rewrite !lookup_alter_eq, Hconn, F2, F3, F4.
  split_and!; try done.
  - by rewrite <- !app_assoc.
  - apply set_eq. intros z. rewrite elem_of_difference, elem_of_union,
      elem_of_singleton. split; [intros [[->|?] ?]; done|].
    intros Hz. split; [by right|]. intros ->. done.
Qed.

Lemma createAnswer_sends_answer_witness :
  emitted
    (settle_all [Fulfilled ""; Fulfilled "answer"; Fulfilled ""]
       (createAnswer "offer" "s" (init true false))).1
    = emitted (init true false) ++ [EmitAnswer "answer" "s"]
  ∧ processingOffers
      (settle_all [Fulfilled ""; Fulfilled "answer"; Fulfilled ""]
         (createAnswer "offer" "s" (init true false))).1
    = processingOffers (init true false).
Proof.
  destruct (createAnswer_sends_answer "offer" "s" "answer" "" "" 0
              (init true false))
    as (_ & Hsent & _ & _ & _ & Hguard & _).
  - reflexivity.
  - apply not_elem_of_empty.
  - reflexivity.
  - reflexivity.
  - split; [exact Hsent | exact Hguard].
Defined.

(** *** Media *)

(** X12: [startLocalStream] on the streamer's side either gives the stream
    back, which then has a video track and is the local stream, the error
    being left as it is; or it throws, and then the message thrown is the
    error recorded, the local stream is the one held before, and no track
    has been stopped: a stream without a video track is refused with its
    tracks left running.  It succeeds exactly when the browser has
    [getUserMedia] and this gives a stream with a video track.  On the
    viewer's side it does nothing. *)
Theorem startLocalStream_outcomes supported media st :
  let r := startLocalStream supported media st in
  (isStreamer st = false → r = (st, StartedNothing))
  ∧ (isStreamer st = true →
     match r.2 with
     | StartedStream stream =>
         supported = true ∧ media = GotStream stream
         ∧ getVideoTracks stream ≠ []
         ∧ localStream r.1 = Some stream ∧ error r.1 = error st
     | StartedThrow message =>
         error r.1 = Some message
         ∧ localStream r.1 = localStream st
         ∧ (supported = false
            ∨ (∃ stream, media = GotStream stream ∧ getVideoTracks stream = []
                         ∧ message = "Unable to get video track")
            ∨ (∃ name m, media = MediaError name m)
            ∨ (media = MediaThrown ∧ message = "Unable to get media devices"))
     | StartedNothing => False
     end
     ∧ stoppedTracks r.1 = stoppedTracks st
     ∧ peerConnections r.1 = peerConnections st
     ∧ emitted r.1 = emitted st).
Proof.
  cbn zeta. unfold startLocalStream. split.
  - by intros ->.
  - intros ->. cbn [negb]. destruct supported; cbn [negb].
    + destruct media as [stream|name m|]; cbn.
      * case_bool_decide as Hlen; cbn.
        -- split_and!; try done. right. left. exists stream.
           split_and!; try done. by apply nil_length_inv.
        -- split_and!; try done. intros Hnil. apply Hlen. by rewrite Hnil.
      * split_and!; try done. right. right. left. by exists name, m.
      * split_and!; try done. right. right. right. done.
    + cbn. split_and!; try done. by left.
Qed.

Lemma startLocalStream_outcomes_witness :
  error
    (startLocalStream true
       (GotStream {| getTracks := [5]; getVideoTracks := [] |})
       (init true true)).1
    = Some "Unable to get video track"
  ∧ stoppedTracks
      (startLocalStream true
         (GotStream {| getTracks := [5]; getVideoTracks := [] |})
         (init true true)).1
    = stoppedTracks (init true true).
Proof.
  destruct (startLocalStream_outcomes true
              (GotStream {| getTracks := [5]; getVideoTracks := [] |})
              (init true true)) as [_ H].
  destruct (H eq_refl) as ((Herr & _) & Hstopped & _).
  split; [exact Herr | exact Hstopped].
Defined.

(** *** Teardown *)

Lemma cleanup_refs st :
  peerConnection (cleanup st) = None ∧ peerConnections (cleanup st) = [].
Proof.
  unfold cleanup. cbn. split; [|done].
  match goal with
  | |- peerConnection (foldl cleanup_one ?s ?l) = _ =>
      destruct (cleanup_fold_frame l s) as (_ & _ & _ & _ & -> & _)
  end.
  destruct (localStream st); cbn; destruct (peerConnection st) eqn:E; cbn; done.
Qed.

(** X13: what arrives late is dropped.  After [cleanup], and on the
    streamer's side after [cleanupViewerConnection] for a viewer, an answer
    or an ICE candidate of that sender that still arrives finds no
    connection: no method is called, nothing is awaited and no error is
    recorded. *)
Theorem late_messages_are_dropped st sender answer candidate :
  handleAnswer answer sender (cleanup st) = (cleanup st, None)
  ∧ handleIceCandidate candidate sender (cleanup st) = (cleanup st, None)
  ∧ handleAnswer answer sender (cleanupViewerConnection sender st)
    = (cleanupViewerConnection sender st, None)
  ∧ (isStreamer st = true →
     handleIceCandidate candidate sender (cleanupViewerConnection sender st)
     = (cleanupViewerConnection sender st, None)).
Proof.
  assert (Hgone : JsMap.get sender
                    (peerConnections (cleanupViewerConnection sender st)) = None).
  { unfold cleanupViewerConnection.
    destruct (JsMap.get sender (peerConnections st)) eqn:Hget; [|done].
    assert (∀ st2, peerConnections st2
                   = JsMap.delete sender (peerConnections st) →
              JsMap.get sender (peerConnections st2) = None) as Hdel.
    { intros st2 ->. apply JsMap_get_delete_eq. }
    repeat case_match; apply Hdel; done. }
  assert (Hside : isStreamer (cleanupViewerConnection sender st) = isStreamer st).
  { unfold cleanupViewerConnection. repeat case_match; done. }
  split_and!.
  - unfold handleAnswer. destruct (cleanup_refs st) as [_ ->].
    by destruct (negb (isStreamer (cleanup st))).
  - unfold handleIceCandidate. destruct (cleanup_refs st) as [-> ->].
    by destruct (isStreamer (cleanup st)).
  - unfold handleAnswer. rewrite Hgone. by destruct (negb _).
  - intros Hstr. unfold handleIceCandidate. by rewrite Hside, Hstr, Hgone.
Qed.

Lemma late_messages_are_dropped_witness :
  handleIceCandidate "candidate" "v2"
    (cleanupViewerConnection "v2" two_sessions)
  = (cleanupViewerConnection "v2" two_sessions, None).
Proof.
  apply (late_messages_are_dropped two_sessions "v2" "answer" "candidate").
  reflexivity.
Defined.

Lemma cleanup_one_shut st pc h :
  (∃ conn, pcs st !! h = Some conn
           ∧ RTC.connectionState conn = RTC.Closed
           ∧ RTC.onconnectionstatechange conn = None) →
  ∃ conn, pcs (cleanup_one st pc) !! h = Some conn
          ∧ RTC.connectionState conn = RTC.Closed
          ∧ RTC.onconnectionstatechange conn = None.
Proof.
  intros (conn & Hl & Hc & Hh). unfold cleanup_one. cbn -[lookup alter].
  destruct (decide (pc = h)) as [->|Hne].
  - rewrite !lookup_alter_eq, Hl. cbn. eexists. split; [reflexivity|]. done.
  - rewrite !lookup_alter_ne by done. by exists conn.
Qed.

Lemma cleanup_fold_shut (hs : list nat) h : ∀ st,
  ((∃ conn, pcs st !! h = Some conn
            ∧ RTC.connectionState conn = RTC.Closed
            ∧ RTC.onconnectionstatechange conn = None)
   ∨ (h ∈ hs ∧ is_Some (pcs st !! h))) →
  ∃ conn, pcs (foldl cleanup_one st hs) !! h = Some conn
          ∧ RTC.connectionState conn = RTC.Closed
          ∧ RTC.onconnectionstatechange conn = None.
Proof.
  induction hs as [|x hs IH]; intros st [Hshut|[Hin Hsome]].
  - done.
  - by apply elem_of_nil in Hin.
  - cbn [foldl]. apply IH. left. by apply cleanup_one_shut.
  - cbn [foldl]. apply IH.
    apply elem_of_cons in Hin as [->|Hin].
    + left. destruct Hsome as [conn Hl]. unfold cleanup_one.
      cbn -[lookup alter]. rewrite !lookup_alter_eq, Hl. cbn.
      eexists. split; [reflexivity|]. done.
    + right. split; [done|]. unfold cleanup_one. cbn -[lookup alter].
      by rewrite !lookup_alter_is_Some.
Qed.

(** X14: on the streamer's side [cleanup] closes every connection of the
    table and unregisters its state-change callback: [close()] is called on
    it, and a state change the browser still reports on it leaves what the
    hook reports at [new], not connected, as [cleanup] has set it. *)
Theorem cleanup_closes_every_session st viewerId h :
  JsMap.get viewerId (peerConnections st) = Some h →
  is_Some (pcs st !! h) →
  (∃ conn, pcs (cleanup st) !! h = Some conn
           ∧ RTC.connectionState conn = RTC.Closed
           ∧ RTC.onconnectionstatechange conn = None)
  ∧ (h, RTC.CallClose) ∈ calls (cleanup st)
  ∧ (∀ c, isConnected (connectionstatechange h c (cleanup st)) = false
          ∧ connectionState (connectionstatechange h c (cleanup st)) = RTC.New).
Proof.
  intros Hget Hsome.
  assert (Hshut : ∃ conn, pcs (cleanup st) !! h = Some conn
                    ∧ RTC.connectionState conn = RTC.Closed
                    ∧ RTC.onconnectionstatechange conn = None).
  { unfold cleanup. cbn -[lookup]. apply cleanup_fold_shut. right.
    assert (Hin : h ∈ JsMap.values (peerConnections st)).
    { apply JsMap_get_Some_elem in Hget. unfold JsMap.values.
      apply list_elem_of_fmap. by exists (viewerId, h). }
    destruct (localStream st); destruct (peerConnection _) eqn:Hp;
      cbn -[lookup alter] in *; rewrite ?lookup_alter_is_Some; done. }
  split_and!.
  - exact Hshut.
  - unfold cleanup. cbn.
    apply (cleanup_fold_calls (JsMap.values _)).
    assert (Hin : h ∈ JsMap.values (peerConnections st)).
    { apply JsMap_get_Some_elem in Hget. unfold JsMap.values.
      apply list_elem_of_fmap. by exists (viewerId, h). }
    destruct (localStream st); destruct (peerConnection _); done.
  - intros c. destruct Hshut as (conn & Hl & _ & Hh).
    unfold connectionstatechange. cbn -[lookup alter cleanup].
    rewrite lookup_alter_eq, Hl. cbn -[cleanup]. rewrite Hh. done.
Qed.

Lemma cleanup_closes_every_session_witness :
  (∃ conn, pcs (cleanup two_sessions) !! 1 = Some conn
           ∧ RTC.connectionState conn = RTC.Closed
           ∧ RTC.onconnectionstatechange conn = None)
  ∧ (1, RTC.CallClose) ∈ calls (cleanup two_sessions).
Proof.
  destruct (cleanup_closes_every_session two_sessions "v2" 1)
    as (Hshut & Hcall & _).
  - reflexivity.
  - vm_compute. eexists. reflexivity.
  - split; [exact Hshut | exact Hcall].
Defined.

End session.

(** ** The streamer page over its life *)

Section streamer_page.
Import Hook.
Implicit Types (st : Streamer.state).

Lemma createOffer_viewers v st :
  Streamer.viewerCount (Streamer.createOffer v st) = Streamer.viewerCount st
  ∧ Streamer.viewersRef (Streamer.createOffer v st) = Streamer.viewersRef st.
Proof.
  unfold Streamer.createOffer. by destruct (createOffer v (Streamer.hook st)).
Qed.

Lemma createOffers_viewers (V : list string) : ∀ st,
  Streamer.viewerCount (foldl (λ st v, Streamer.createOffer v st) st V)
    = Streamer.viewerCount st
  ∧ Streamer.viewersRef (foldl (λ st v, Streamer.createOffer v st) st V)
    = Streamer.viewersRef st.
Proof.
  induction V as [|v V IH]; intros st; [done|].
  cbn [foldl]. destruct (IH (Streamer.createOffer v st)) as [-> ->].
  apply createOffer_viewers.
Qed.

Lemma step_viewerCount ev st :
  Streamer.viewerCount st = length (Streamer.viewersRef st) →
  Streamer.viewerCount (Streamer.step ev st)
  = length (Streamer.viewersRef (Streamer.step ev st)).
Proof.
  intros Hst.
  assert (Hframe : ∀ st', Streamer.viewerCount st' = Streamer.viewerCount st →
            Streamer.viewersRef st' = Streamer.viewersRef st →
            Streamer.viewerCount st' = length (Streamer.viewersRef st')).
  { intros st' -> ->. done. }
  destruct ev; cbn [Streamer.step].
  - apply Hframe; unfold Streamer.initializeStream; by case_match.
  - apply Hframe; unfold Streamer.initializeStream_acquired;
      repeat case_match; simplify_eq; done.
  - apply Hframe; unfold Streamer.initializeStream_attached;
      repeat case_match; simplify_eq; done.
  - apply Hframe; unfold Streamer.initializeStream_connected;
      by case_match.
  - apply Hframe; unfold Streamer.initializeStream_created; by case_match.
  - apply Hframe; unfold Streamer.stopStream; repeat case_match; done.
  - apply Hframe; unfold Streamer.restartStream; by case_match.
  - apply Hframe; unfold Streamer.restartStream_acquired;
      repeat case_match; simplify_eq; done.
  - unfold Streamer.restartStream_attached.
    destruct (Streamer.videoRef st); [|by apply Hframe].
    destruct loaded; [|by apply Hframe].
    cbn [Streamer.restartStream_catch_finally].
    match goal with
    | |- context [foldl _ ?s ?V] =>
        destruct (createOffers_viewers V s) as [H1 H2]
    end.
    apply Hframe; [exact H1 | exact H2].
  - destruct ev; cbn [Streamer.receive]; try done.
    unfold Streamer.onViewerJoined.
    match goal with
    | |- context [Streamer.createOffer ?v ?s] =>
        destruct (createOffer_viewers v s) as [-> ->]
    end.
    done.
  - apply Hframe; unfold Streamer.settle; repeat case_match; done.
Qed.

(** X15: the viewer count the streamer page shows is the size of its viewer
    set, in which no viewer is twice, in every state the page reaches. *)
Theorem viewerCount_is_size evs :
  let st := Streamer.run evs Streamer.init in
  Streamer.viewerCount st = length (Streamer.viewersRef st)
  ∧ NoDup (Streamer.viewersRef st).
Proof.
  cbn zeta. split; [|apply (ok_run evs Streamer.init ok_init)].
  unfold Streamer.run.
  assert (H0 : Streamer.viewerCount Streamer.init
               = length (Streamer.viewersRef Streamer.init)) by done.
  revert H0. generalize Streamer.init.
  induction evs as [|ev evs IH]; intros st Hst; [done|].
  cbn [foldl]. apply IH. by apply step_viewerCount.
Qed.



Example initializeStream_without_room :
  let st' :=
    StreamerStart.initializeStream_run true (GotStream Streamer.webcam)
      true true None Streamer.init in
  Streamer.roomId st' = None ∧ Streamer.isStreaming st' = false
  ∧ error (Streamer.hook st') = Some "Room creation timed out"
  ∧ localStream (Streamer.hook st') = Some Streamer.webcam
  ∧ stoppedTracks (Streamer.hook st') = ∅.
Proof. vm_compute. done. Qed.

(** *** Viewers who come and go while the stream is paused *)

(** [restartStream] carried to its end, the camera giving a stream and the
    video element loading it. *)
Lemma restartStream_run_offers st r stream :
  Streamer.ok st →
  Streamer.truthy (Streamer.roomId st) = Some r →
  getVideoTracks stream ≠ [] →
  let st' := Streamer.restartStream_run true (GotStream stream) true st in
  Streamer.pending st'
  = Streamer.pending st
    ++ Streamer.offersStarted (nextPc (Streamer.hook st)) (Streamer.viewersRef st)
  ∧ reoffered (Streamer.viewersRef st) (Streamer.hook st) (Streamer.hook st')
  ∧ Streamer.viewersRef st' = Streamer.viewersRef st.
Proof.
  intros ((Hwf & Hsock & Hs) & Hnd & [src Hv]) Ht Hvid st'.
  unfold st', Streamer.restartStream_run, Streamer.restartStream. rewrite Ht.
  set (st1 := Streamer.emit _ _).
  unfold Streamer.restartStream_acquired, startLocalStream.
  change (isStreamer (Streamer.hook st1)) with (isStreamer (Streamer.hook st)).
  rewrite Hs. cbn [negb]. rewrite bool_decide_eq_false_2
    by (by destruct (getVideoTracks stream)).
  set (st2 := Streamer.set_hook _ st1).
  unfold Streamer.restartStream_attached.
  change (Streamer.videoRef st2) with (Streamer.videoRef st). rewrite Hv.
  set (st3 := Streamer.setStatus _ _).
  destruct (reoffer_all (Streamer.viewersRef st) st3 stream) as (Hp & He & Hro);
    try done.
  cbn [Streamer.restartStream_catch_finally].
  change (Streamer.viewersRef st3) with (Streamer.viewersRef st).
  destruct (createOffers_viewers (Streamer.viewersRef st) st3) as [_ Hv3].
  set (st4 := foldl _ st3 _) in *.
  change (Streamer.hook (Streamer.setIsInitializing false st4))
    with (Streamer.hook st4).
  change (Streamer.pending (Streamer.setIsInitializing false st4))
    with (Streamer.pending st4).
  split_and!; [by rewrite Hp | by apply (reoffered_from _ (Streamer.hook st3)) |].
  exact Hv3.
Qed.

(** X17: a viewer who joins while the stream is paused is put in the viewer
    set and counted, but gets no connection and no offer: [createOffer]
    records ["Local stream not ready"].  When the streamer resumes, the
    camera giving a stream and the video element loading it, an offer is
    started for that viewer on a new connection, which is then the viewer's
    session. *)
Theorem viewer_joining_while_paused st v r stream :
  Streamer.ok st →
  Streamer.truthy (Streamer.roomId st) = Some r →
  localStream (Streamer.hook st) = None →
  getVideoTracks stream ≠ [] →
  let joined := Streamer.onViewerJoined v st in
  let back := Streamer.restartStream_run true (GotStream stream) true joined in
  v ∈ Streamer.viewersRef joined
  ∧ Streamer.pending joined = Streamer.pending st
  ∧ error (Streamer.hook joined) = Some "Local stream not ready"
  ∧ peerConnections (Streamer.hook joined) = peerConnections (Streamer.hook st)
  ∧ emitted (Streamer.hook joined) = emitted (Streamer.hook st)
  ∧ ∃ pc,
      OfferCreating v pc
        ∈ drop (length (Streamer.pending joined)) (Streamer.pending back)
      ∧ JsMap.get v (peerConnections (Streamer.hook back)) = Some pc
      ∧ (nextPc (Streamer.hook st) ≤ pc)%nat.
Proof.
  intros Hok Hr Hls Hvid joined back.
  pose proof (ok_step (Streamer.Received (Server.ViewerJoined v)) st Hok) as Hok'.
  cbn [Streamer.step Streamer.receive] in Hok'. fold joined in Hok'.
  destruct Hok as ((Hwf & Hsock & Hs) & Hnd & Hvideo).
  assert (Hj : joined
    = Streamer.set_pending (Streamer.pending st ++ [])
        (Streamer.set_hook
           (setError (Some "Local stream not ready") (Streamer.hook st))
           (Streamer.setStatus
              ("Viewer connected ("
               +:+ pretty (JsSet.size (JsSet.add v (Streamer.viewersRef st)))
               +:+ " watching)")
              (Streamer.setViewerCount
                 (JsSet.size (JsSet.add v (Streamer.viewersRef st)))
                 (Streamer.set_viewersRef
                    (JsSet.add v (Streamer.viewersRef st)) st))))).
  { subst joined. unfold Streamer.onViewerJoined, Streamer.createOffer, createOffer.
    cbn [Streamer.hook Streamer.setStatus Streamer.setViewerCount
         Streamer.set_viewersRef Streamer.viewersRef].
    by rewrite Hsock, Hs, Hls. }
  assert (Hin : v ∈ Streamer.viewersRef joined).
  { rewrite Hj. cbn. apply JsSet_elem_of_add. by left. }
  assert (Hroom : Streamer.truthy (Streamer.roomId joined) = Some r)
    by (by rewrite Hj).
  destruct (restartStream_run_offers joined r stream Hok' Hroom Hvid)
    as (Hp & Hro & _).
  fold back in Hp, Hro.
  split_and!; [exact Hin | | | | |].
  - rewrite Hj. cbn. by rewrite app_nil_r.
  - by rewrite Hj.
  - by rewrite Hj.
  - by rewrite Hj.
  - apply list_elem_of_lookup in Hin as [i Hi].
    exists (nextPc (Streamer.hook joined) + i). split_and!.
    + rewrite Hp, drop_app_length. unfold Streamer.offersStarted.
      by apply (elem_of_lookup_imap_2
                  (λ i v, OfferCreating v (nextPc (Streamer.hook joined) + i))).
    + by apply (ro_new _ _ _ Hro).
    + rewrite Hj. cbn. lia.
Qed.

Lemma viewer_joining_while_paused_witness :
  "v2" ∈ Streamer.viewersRef (Streamer.onViewerJoined "v2" Streamer.paused)
  ∧ Streamer.pending (Streamer.onViewerJoined "v2" Streamer.paused)
    = Streamer.pending Streamer.paused
  ∧ error (Streamer.hook (Streamer.onViewerJoined "v2" Streamer.paused))
    = Some "Local stream not ready".
Proof.
  destruct (viewer_joining_while_paused Streamer.paused "v2" "dev-room-001"
              Streamer.camera) as (Hin & Hp & He & _).
  - apply ok_step, ok_run, ok_run, ok_init.
  - reflexivity.
  - reflexivity.
  - discriminate.
  - split_and!; [exact Hin | exact Hp | exact He].
Defined.

(** X18: when a viewer leaves, its session is closed and taken out of the
    table and the viewer out of the viewer set; a later resume starts offers
    for the viewers that remain, and none for the one who left, who stays
    without a session. *)
Theorem viewer_left_is_not_reoffered st v r stream :
  Streamer.ok st →
  Streamer.truthy (Streamer.roomId st) = Some r →
  getVideoTracks stream ≠ [] →
  let gone := Streamer.onViewerLeft v st in
  let back := Streamer.restartStream_run true (GotStream stream) true gone in
  (v ∉ Streamer.viewersRef gone)
  ∧ JsMap.get v (peerConnections (Streamer.hook gone)) = None
  ∧ (∀ pc, JsMap.get v (peerConnections (Streamer.hook st)) = Some pc →
           (pc, RTC.CallClose) ∈ calls (Streamer.hook gone))
  ∧ Streamer.pending back
    = Streamer.pending gone
      ++ Streamer.offersStarted (nextPc (Streamer.hook gone))
           (JsSet.delete v (Streamer.viewersRef st))
  ∧ (∀ pc, OfferCreating v pc
           ∉ Streamer.offersStarted (nextPc (Streamer.hook gone))
               (JsSet.delete v (Streamer.viewersRef st)))
  ∧ JsMap.get v (peerConnections (Streamer.hook back)) = None.
Proof.
  intros Hok Hr Hvid gone back.
  pose proof (ok_step (Streamer.Received (Server.ViewerLeft v)) st Hok) as Hok'.
  cbn [Streamer.step Streamer.receive] in Hok'. fold gone in Hok'.
  assert (Hv : Streamer.viewersRef gone = JsSet.delete v (Streamer.viewersRef st))
    by done.
  assert (Hout : v ∉ Streamer.viewersRef gone).
  { rewrite Hv. intros [? _]%JsSet_elem_of_delete. done. }
  assert (Hh : Streamer.hook gone
               = cleanupViewerConnection v (Streamer.hook st)) by done.
  assert (Hnone : JsMap.get v (peerConnections (Streamer.hook gone)) = None).
  { rewrite Hh. unfold cleanupViewerConnection.
    destruct (JsMap.get v (peerConnections (Streamer.hook st))) eqn:Hget; [|done].
    assert (∀ h2, peerConnections h2
                  = JsMap.delete v (peerConnections (Streamer.hook st)) →
              JsMap.get v (peerConnections h2) = None) as Hdel.
    { intros h2 ->. apply JsMap_get_delete_eq. }
    repeat case_match; apply Hdel; done. }
  assert (Hroom : Streamer.truthy (Streamer.roomId gone) = Some r) by done.
  destruct (restartStream_run_offers gone r stream Hok' Hroom Hvid)
    as (Hp & Hro & _).
  fold back in Hp, Hro. rewrite Hv in Hp.
  split_and!; [exact Hout | exact Hnone | | exact Hp | |].
  - intros pc Hget. rewrite Hh. unfold cleanupViewerConnection. rewrite Hget.
    assert (∀ h2, calls h2 = calls (Streamer.hook st) ++ [(pc, RTC.CallClose)] →
              (pc, RTC.CallClose) ∈ calls h2) as Hc.
    { intros h2 ->. apply elem_of_app. right. by apply list_elem_of_singleton. }
    repeat case_match; apply Hc; done.
  - intros pc Hin. unfold Streamer.offersStarted in Hin.
    apply elem_of_lookup_imap_1 in Hin as (i & w & Heq & Hi).
    injection Heq as <- _. apply list_elem_of_lookup_2 in Hi.
    apply JsSet_elem_of_delete in Hi as [? _]. done.
  - rewrite (ro_others _ _ _ Hro v Hout). exact Hnone.
Qed.

Lemma viewer_left_is_not_reoffered_witness :
  ("v1" ∉ Streamer.viewersRef (Streamer.onViewerLeft "v1" Streamer.paused))
  ∧ JsMap.get "v1"
      (peerConnections (Streamer.hook (Streamer.onViewerLeft "v1" Streamer.paused)))
    = None
  ∧ JsMap.get "v1"
      (peerConnections
         (Streamer.hook
            (Streamer.restartStream_run true (GotStream Streamer.camera) true
               (Streamer.onViewerLeft "v1" Streamer.paused))))
    = None.
Proof.
  destruct (viewer_left_is_not_reoffered Streamer.paused "v1" "dev-room-001"
              Streamer.camera) as (Hout & Hnone & _ & _ & _ & Hback).
  - apply ok_step, ok_run, ok_run, ok_init.
  - reflexivity.
  - discriminate.
  - split_and!; [exact Hout | exact Hnone | exact Hback].
Defined.

End streamer_page.

(** ** The viewer page over its life *)

Section viewer_page.
Import Hook.
Implicit Types (st : Viewer.state).

(** A call of [createAnswer] that does not wait has changed nothing. *)
Lemma createAnswer_ended_at_once offer streamerId (h h' : state) :
  createAnswer offer streamerId h = (h', None) → h' = h.
Proof.
  unfold createAnswer. case_bool_decide as Hguard; [by intros [= <-]|].
  set (st2 := ensurePeerConnection streamerId (dropTerminal h)).
  assert (Hsome : is_Some (peerConnection st2)).
  { subst st2. unfold ensurePeerConnection, newPeerConnection.
    destruct (peerConnection (dropTerminal h)) eqn:Hp; [by rewrite Hp|done]. }
  destruct Hsome as [pc Hpc].
  unfold createAnswer_try. cbn [peerConnection set_processingOffers].
  rewrite Hpc.
  change (pc_signalingState pc (set_processingOffers _ st2))
    with (pc_signalingState pc st2).
  case_bool_decide as Hsig; [|by intros [= _]].
  cbn [createAnswer_catch_finally]. intros [= <-].
  pose proof (session_not_stable_kept streamerId h pc Hpc Hsig) as Hkept.
  cbn zeta in Hkept. fold st2 in Hkept. rewrite Hkept.
  rewrite set_processingOffers_twice.
  rewrite <- (set_processingOffers_same h) at 3. f_equal.
  apply set_eq. intros x.
  rewrite elem_of_difference, elem_of_union, elem_of_singleton.
  split; [intros [[->|?] ?]; done | intros ?; split; [by right | by intros ->]].
Qed.

(** X19: an offer reaches two listeners on the viewer's socket, the hook's
    and the page's, and both call [createAnswer]; whatever the page's
    [shouldProcessOffer] says, the state of the hook after the event is the
    one a single call leaves, and at most one call is left under way: the
    second call is stopped by the guard set, or finds the session not
    stable as the first did. *)
Theorem offer_is_handled_once offer sender st :
  let once := createAnswer offer sender (Viewer.hook st) in
  let st' := Viewer.handler (Viewer.Offer offer sender) st in
  Viewer.hook st' = once.1
  ∧ Viewer.pending st' = Viewer.pending st ++ option_list once.2
  ∧ remoteDescriptions (calls (Viewer.hook st'))
    = remoteDescriptions (calls once.1).
Proof.
  cbn zeta. cbn [Viewer.handler].
  destruct (createAnswer offer sender (Viewer.hook st)) as [h1 k1] eqn:Hfirst.
  assert (Hsecond : createAnswer offer sender h1 = (h1, None)).
  { destruct k1 as [k|].
    - destruct (createAnswer_waits _ _ _ _ _ Hfirst) as (pc & _ & _ & _ & Hin & _).
      unfold createAnswer. by rewrite bool_decide_eq_true_2.
    - pose proof (createAnswer_ended_at_once _ _ _ _ Hfirst) as Heq.
      subst h1. exact Hfirst. }
  unfold Viewer.onOffer, Viewer.spawn.
  destruct (Viewer.shouldProcessOffer _); cbn [fst snd].
  - cbn [Viewer.hook Viewer.set_hook Viewer.set_pending Viewer.setStatus
         Viewer.setIsProcessingOffer Viewer.pending].
    rewrite Hsecond. cbn. by rewrite app_nil_r.
  - done.
Qed.

(** X20: the Reconnect handler does not start the join itself when the
    page has joined: the [joinRoom] it calls is the one of the last render,
    which returns at its guard.  It clears the joined flag and resets the
    hook, the retry count and the timer, and the effect that joins on load,
    running on the change of [hasJoinedRoom], starts the join. *)
Theorem handleReconnect_leaves_join_to_effect st :
  Viewer.roomId st ≠ "" →
  Viewer.hasJoinedRoom st = true →
  Viewer.isJoining st = false →
  let st1 := Viewer.handleReconnect st in
  let st2 := Viewer.joinOnLoad st1 in
  Viewer.isJoining st1 = false
  ∧ Viewer.hasJoinedRoom st1 = false
  ∧ Viewer.status st1 = "Reconnecting signaling + WebRTC..."
  ∧ Viewer.retryCountRef st1 = 0%Z
  ∧ Viewer.retryTimeoutRef st1 = None
  ∧ Viewer.hook st1 = cleanup (Viewer.hook st)
  ∧ Viewer.isJoining st2 = true
  ∧ Viewer.status st2 = "Joining signaling room..."
  ∧ emitted (Viewer.hook (Viewer.joinRoom_connected st2))
    = emitted (Viewer.hook st) ++ [EmitJoinRoom (Viewer.roomId st)].
Proof.
  intros Hroom Hjoined Hjoining. cbn zeta.
  assert (Hclean : ∀ h, error (cleanup h) = None ∧ emitted (cleanup h) = emitted h).
  { intros h. unfold cleanup. cbn. split; [done|].
    match goal with
    | |- emitted (foldl cleanup_one ?s ?l) = _ =>
        destruct (cleanup_fold_frame l s) as (_ & _ & _ & _ & _ & _ & _ & _ & ->)
    end.
    destruct (localStream h); cbn; destruct (peerConnection h); done. }
  unfold Viewer.handleReconnect, Viewer.joinOnLoad, Viewer.joinRoom,
    Viewer.joinRoom_connected.
  rewrite Hjoined, Hjoining.
  destruct (Viewer.retryTimeoutRef st) as [t|] eqn:Htimer;
    do 3 (cbn -[cleanup];
          rewrite ?Hjoining, ?Hjoined, ?bool_decide_eq_false_2 by done);
    cbn -[cleanup];
    destruct (Hclean (Viewer.hook st)) as [He Hm];
    rewrite ?Hm; split_and!; done.
Qed.

Lemma handleReconnect_leaves_join_to_effect_witness :
  Viewer.isJoining (Viewer.handleReconnect Viewer.watching) = false
  ∧ Viewer.hasJoinedRoom (Viewer.handleReconnect Viewer.watching) = false
  ∧ Viewer.isJoining (Viewer.joinOnLoad (Viewer.handleReconnect Viewer.watching))
    = true.
Proof.
  destruct (handleReconnect_leaves_join_to_effect Viewer.watching)
    as (H1 & H2 & _ & _ & _ & _ & H3 & _).
  - vm_compute. discriminate.
  - vm_compute. reflexivity.
  - vm_compute. reflexivity.
  - split_and!; [exact H1 | exact H2 | exact H3].
Defined.

(** X21: a join the server refuses is tried again at once.  The callback
    records the error and clears [isJoining]; the effect that joins on load
    depends on [isJoining], runs again, and its [joinRoom] starts a new
    join: the error is cleared and [join-room] is emitted again for the same
    room. *)
Theorem refused_join_is_retried st e :
  Viewer.roomId st ≠ "" →
  e ≠ "" →
  Viewer.isJoining st = true →
  Viewer.hasJoinedRoom st = false →
  let refused := Viewer.joinRoom_callback (Server.JoinError e) st in
  let again := Viewer.joinOnLoad refused in
  error (Viewer.hook refused) = Some e
  ∧ Viewer.status refused = "Failed to join signaling room"
  ∧ Viewer.isJoining refused = false
  ∧ Viewer.hasJoinedRoom refused = false
  ∧ Viewer.isJoining again = true
  ∧ error (Viewer.hook again) = None
  ∧ Viewer.status again = "Joining signaling room..."
  ∧ emitted (Viewer.hook (Viewer.joinRoom_connected again))
    = emitted (Viewer.hook st) ++ [EmitJoinRoom (Viewer.roomId st)].
Proof.
  intros Hroom He Hjoining Hjoined. cbn zeta.
  unfold Viewer.joinRoom_callback, Viewer.responseError.
  rewrite bool_decide_eq_false_2 by done.
  unfold Viewer.joinOnLoad, Viewer.joinRoom, Viewer.joinRoom_connected.
  do 3 (cbn; rewrite ?Hjoined, ?bool_decide_eq_false_2 by done).
  cbn. split_and!; done.
Qed.

Lemma refused_join_is_retried_witness :
  error
    (Viewer.hook
       (Viewer.joinRoom_callback (Server.JoinError "Room does not exist")
          (Viewer.run [Viewer.JoinOnLoad; Viewer.JoinConnected]
             (Viewer.init "no-such-room"))))
    = Some "Room does not exist"
  ∧ Viewer.isJoining
      (Viewer.joinOnLoad
         (Viewer.joinRoom_callback (Server.JoinError "Room does not exist")
            (Viewer.run [Viewer.JoinOnLoad; Viewer.JoinConnected]
               (Viewer.init "no-such-room"))))
    = true
  ∧ error
      (Viewer.hook
         (Viewer.joinOnLoad
            (Viewer.joinRoom_callback (Server.JoinError "Room does not exist")
               (Viewer.run [Viewer.JoinOnLoad; Viewer.JoinConnected]
                  (Viewer.init "no-such-room")))))
    = None.
Proof.
  destruct (refused_join_is_retried
              (Viewer.run [Viewer.JoinOnLoad; Viewer.JoinConnected]
                 (Viewer.init "no-such-room"))
              "Room does not exist")
    as (H1 & _ & _ & _ & H2 & H3 & _).
  - vm_compute. discriminate.
  - discriminate.
  - vm_compute. reflexivity.
  - vm_compute. reflexivity.
  - split_and!; [exact H1 | exact H2 | exact H3].
Defined.

(** *** Timers *)

Lemma inv_one_timer st t d :
  Viewer.inv st → Viewer.timers st !! t = Some d →
  delete t (Viewer.timers st) = ∅.
Proof.
  intros Hinv Ht. apply map_empty. intros t'.
  destruct (decide (t' = t)) as [->|Hne]; [apply lookup_delete_eq|].
  rewrite lookup_delete_ne by done.
  destruct (Viewer.timers st !! t') as [d'|] eqn:Ht'; [|done].
  destruct (Viewer.inv_timers st Hinv t d Ht) as [H1 _].
  destruct (Viewer.inv_timers st Hinv t' d' Ht') as [H2 _]. congruence.
Qed.

Lemma inv_timers_gone st :
  Viewer.inv st →
  Viewer.timers
    match Viewer.retryTimeoutRef st with
    | Some t => Viewer.clearTimeout t st
    | None => st
    end = ∅.
Proof.
  intros Hinv.
  destruct (Viewer.retryTimeoutRef st) as [t|] eqn:Hr; cbn.
  - apply map_empty. intros t'.
    destruct (decide (t' = t)) as [->|Hne]; [apply lookup_delete_eq|].
    rewrite lookup_delete_ne by done.
    destruct (Viewer.timers st !! t') as [d'|] eqn:Ht'; [|done].
    destruct (Viewer.inv_timers st Hinv t' d' Ht') as [H2 _]. congruence.
  - apply map_empty. intros t'.
    destruct (Viewer.timers st !! t') as [d'|] eqn:Ht'; [|done].
    destruct (Viewer.inv_timers st Hinv t' d' Ht') as [H2 _]. congruence.
Qed.

(** X22: when the page is left no retry is left behind: in every state the
    page reaches, after the cleanup functions have run on unmount no timer
    is scheduled, so that no retry callback can run, and the hook holds no
    connection. *)
Theorem unmount_leaves_no_timer roomId evs :
  let st' := ViewerEnd.unmount (Viewer.run evs (Viewer.init roomId)) in
  Viewer.timers st' = ∅
  ∧ (∀ t, Viewer.retryTimeout t st' = st')
  ∧ peerConnection (Viewer.hook st') = None
  ∧ peerConnections (Viewer.hook st') = [].
Proof.
  cbn zeta.
  pose proof (inv_run evs (Viewer.init roomId) (inv_init roomId)) as Hinv.
  generalize dependent (Viewer.run evs (Viewer.init roomId)). intros st Hinv.
  assert (Ht : Viewer.timers (ViewerEnd.unmount st) = ∅).
  { unfold ViewerEnd.unmount. cbn zeta.
    change (Viewer.timers (Viewer.set_hook ?h ?s)) with (Viewer.timers s).
    destruct (Viewer.retryCleanup st) eqn:Hc.
    - pose proof (inv_no_timer st Hinv Hc) as H0.
      destruct (Viewer.retryTimeoutRef (Viewer.autoRetry_cleanup st));
        cbn [Viewer.timers Viewer.clearTimeout Viewer.set_timers];
        rewrite ?H0, ?delete_empty; done.
    - by apply inv_timers_gone. }
  split_and!.
  - exact Ht.
  - intros t. unfold Viewer.retryTimeout. by rewrite Ht, lookup_empty.
  - apply cleanup_refs.
  - apply cleanup_refs.
Qed.

Lemma render_quiet before st :
  Viewer.timers st = ∅ →
  connectionState (Viewer.hook st) ≠ RTC.Failed →
  connectionState (Viewer.hook st) ≠ RTC.Disconnected →
  Viewer.timers (Viewer.render before st) = ∅
  ∧ Viewer.hook (Viewer.render before st) = Viewer.hook st
  ∧ Viewer.retryCountRef (Viewer.render before st) = Viewer.retryCountRef st
  ∧ Viewer.hasJoinedRoom (Viewer.render before st) = Viewer.hasJoinedRoom st
  ∧ Viewer.isJoining (Viewer.render before st) = Viewer.isJoining st.
Proof.
  intros Ht Hf Hd. unfold Viewer.render.
  case_bool_decide; [done|].
  unfold Viewer.autoRetry.
  set (st0 := if Viewer.retryCleanup st then Viewer.autoRetry_cleanup st else st).
  assert (H0 : Viewer.timers st0 = ∅ ∧ Viewer.hook st0 = Viewer.hook st
               ∧ Viewer.retryCountRef st0 = Viewer.retryCountRef st
               ∧ Viewer.hasJoinedRoom st0 = Viewer.hasJoinedRoom st
               ∧ Viewer.isJoining st0 = Viewer.isJoining st).
  { subst st0. unfold Viewer.autoRetry_cleanup.
    destruct (Viewer.retryCleanup st); [|done].
    destruct (Viewer.retryTimeoutRef st); [|done].
    cbn. rewrite Ht. split_and!; done. }
  destruct H0 as (H1 & H2 & H3 & H4 & H5).
  rewrite H2, !bool_decide_eq_false_2 by done. cbn. done.
Qed.

Lemma joinRoom_refs a b st :
  Viewer.hasJoinedRoom (Viewer.joinRoom a b st) = Viewer.hasJoinedRoom st
  ∧ peerConnection (Viewer.hook (Viewer.joinRoom a b st))
    = peerConnection (Viewer.hook st)
  ∧ peerConnections (Viewer.hook (Viewer.joinRoom a b st))
    = peerConnections (Viewer.hook st)
  ∧ connectionState (Viewer.hook (Viewer.joinRoom a b st))
    = connectionState (Viewer.hook st).
Proof. unfold Viewer.joinRoom. repeat case_match; done. Qed.

(** X23: when a retry timer fires, the reconnect runs only if the viewer is
    neither connected nor joining: the hook then holds no connection any
    more, the retry count is 0 and the page is no longer joined; otherwise
    the hook, the count and the joined flag are as before.  In both cases no
    timer is scheduled afterwards. *)
Theorem retry_timer_fires st t d :
  Viewer.inv st →
  Viewer.timers st !! t = Some d →
  let st' := Viewer.step (Viewer.RetryTimeout t) st in
  Viewer.timers st' = ∅
  ∧ if isConnected (Viewer.hook st) || Viewer.isJoining st then
      Viewer.hook st' = Viewer.hook st
      ∧ Viewer.retryCountRef st' = Viewer.retryCountRef st
      ∧ Viewer.hasJoinedRoom st' = Viewer.hasJoinedRoom st
    else
      peerConnection (Viewer.hook st') = None
      ∧ peerConnections (Viewer.hook st') = []
      ∧ connectionState (Viewer.hook st') = RTC.New
      ∧ Viewer.retryCountRef st' = 0%Z
      ∧ Viewer.hasJoinedRoom st' = false.
Proof.
  intros Hinv Ht st'. subst st'.
  unfold Viewer.step. cbn [Viewer.handler]. unfold Viewer.retryTimeout.
  rewrite Ht. cbn zeta.
  set (st1 := Viewer.set_timers _ st).
  assert (H1 : Viewer.timers st1 = ∅) by (by eapply inv_one_timer).
  change (isConnected (Viewer.hook st1)) with (isConnected (Viewer.hook st)).
  change (Viewer.isJoining st1) with (Viewer.isJoining st).
  destruct (isConnected (Viewer.hook st)) eqn:Hconn;
    [|destruct (Viewer.isJoining st) eqn:Hjoin]; cbn [negb andb orb].
  - unfold Viewer.render.
    rewrite (bool_decide_eq_true_2
               (Viewer.autoRetry_deps st = Viewer.autoRetry_deps st1))
      by reflexivity.
    done.
  - unfold Viewer.render.
    rewrite (bool_decide_eq_true_2
               (Viewer.autoRetry_deps st = Viewer.autoRetry_deps st1))
      by reflexivity.
    done.
  - clearbody st1. set (st2 := Viewer.handleReconnect st1).
    assert (H2 : Viewer.timers st2 = ∅
                 ∧ peerConnection (Viewer.hook st2) = None
                 ∧ peerConnections (Viewer.hook st2) = []
                 ∧ connectionState (Viewer.hook st2) = RTC.New
                 ∧ Viewer.retryCountRef st2 = 0%Z
                 ∧ Viewer.hasJoinedRoom st2 = false).
    { subst st2. unfold Viewer.handleReconnect. cbv zeta.
      set (st0 := match Viewer.retryTimeoutRef st1 with
                  | Some t0 => _
                  | None => st1
                  end).
      assert (E : Viewer.timers st0 = ∅).
      { subst st0. destruct (Viewer.retryTimeoutRef st1); cbn;
          rewrite ?H1, ?delete_empty; done. }
      match goal with
      | |- context [Viewer.joinRoom ?a ?b ?s] =>
          destruct (joinRoom_frame a b s) as (F1 & _ & _ & F4);
          destruct (joinRoom_refs a b s) as (F5 & F6 & F7 & F8)
      end.
      rewrite F1, F4, F5, F6, F7, F8. cbn -[cleanup].
      destruct (cleanup_refs (Viewer.hook st0)) as [-> ->].
      split_and!; done. }
    destruct H2 as (G1 & G2 & G3 & G4 & G5 & G6).
    destruct (render_quiet st st2 G1) as (R1 & R2 & R3 & R4 & _).
    + by rewrite G4.
    + by rewrite G4.
    + rewrite R1, R2, R3, R4. done.
Qed.

Lemma retry_timer_fires_witness :
  Viewer.timers (Viewer.step (Viewer.RetryTimeout 0) (Viewer.step (Viewer.ConnectionStateChanged 0 RTC.Disconnected) Viewer.watching)) = ∅
  ∧ if isConnected (Viewer.hook (Viewer.step (Viewer.ConnectionStateChanged 0 RTC.Disconnected) Viewer.watching)) || Viewer.isJoining (Viewer.step (Viewer.ConnectionStateChanged 0 RTC.Disconnected) Viewer.watching) then
      Viewer.hook (Viewer.step (Viewer.RetryTimeout 0) (Viewer.step (Viewer.ConnectionStateChanged 0 RTC.Disconnected) Viewer.watching)) = Viewer.hook (Viewer.step (Viewer.ConnectionStateChanged 0 RTC.Disconnected) Viewer.watching)
      ∧ Viewer.retryCountRef (Viewer.step (Viewer.RetryTimeout 0) (Viewer.step (Viewer.ConnectionStateChanged 0 RTC.Disconnected) Viewer.watching))
        = Viewer.retryCountRef (Viewer.step (Viewer.ConnectionStateChanged 0 RTC.Disconnected) Viewer.watching)
      ∧ Viewer.hasJoinedRoom (Viewer.step (Viewer.RetryTimeout 0) (Viewer.step (Viewer.ConnectionStateChanged 0 RTC.Disconnected) Viewer.watching))
        = Viewer.hasJoinedRoom (Viewer.step (Viewer.ConnectionStateChanged 0 RTC.Disconnected) Viewer.watching)
    else
      peerConnection (Viewer.hook (Viewer.step (Viewer.RetryTimeout 0) (Viewer.step (Viewer.ConnectionStateChanged 0 RTC.Disconnected) Viewer.watching)))
        = None
      ∧ peerConnections (Viewer.hook (Viewer.step (Viewer.RetryTimeout 0) (Viewer.step (Viewer.ConnectionStateChanged 0 RTC.Disconnected) Viewer.watching)))
        = []
      ∧ connectionState (Viewer.hook (Viewer.step (Viewer.RetryTimeout 0) (Viewer.step (Viewer.ConnectionStateChanged 0 RTC.Disconnected) Viewer.watching)))
        = RTC.New
      ∧ Viewer.retryCountRef (Viewer.step (Viewer.RetryTimeout 0) (Viewer.step (Viewer.ConnectionStateChanged 0 RTC.Disconnected) Viewer.watching)) = 0%Z
      ∧ Viewer.hasJoinedRoom (Viewer.step (Viewer.RetryTimeout 0) (Viewer.step (Viewer.ConnectionStateChanged 0 RTC.Disconnected) Viewer.watching)) = false.
Proof.
  apply (retry_timer_fires (Viewer.step (Viewer.ConnectionStateChanged 0 RTC.Disconnected) Viewer.watching) 0 2000%Z).
  - apply inv_step. apply (inv_run _ _ (inv_init "dev-room-001")).
  - vm_compute. reflexivity.
Defined.

End viewer_page.
